(** * Medical-Chat-Bot: the retrieval-and-answer pipeline

    A shallow embedding of [utils/pdf_processor.py], [utils/vector_database.py]
    and [utils/retrieval_qa.py], followed by the properties of the
    specification that were settled on it.

    Conventions.
    - A Python [str] is a [list ascii]; a character is a code point in
      U+0000..U+00FF (Latin-1).  The classes [\s], [\w], [\d] and the case
      mapping below are the ones Python applies to these code points.
    - A Python [float] (a similarity score, a vector component) is a
      rational number; NaN and the infinities are left out.
    - The third-party collaborators (the sentence embedding model, the FAISS
      index search, the completion service, the text splitter, the disk) are
      taken as parameters: what they compute is not part of this repository.
    - Module globals become fields of a state record that is threaded
      through a state-and-exception monad; a raised exception keeps the
      state reached so far, as in Python. *)

From Stdlib Require Import Ascii String DecimalString.
From Stdlib Require Import List Sorted Bool Arith NArith ZArith QArith Lia.
From Equations Require Import Equations.
Import ListNotations.

Set Implicit Arguments.
Close Scope Q_scope.
Open Scope nat_scope.

(** ** Python strings *)

Module PyStr.

Definition str := list ascii.

Definition lit (s : string) : str := list_ascii_of_string s.

Definition code (c : ascii) : N := N_of_ascii c.

Definition between (lo hi : N) (c : ascii) : bool :=
  (lo <=? code c)%N && (code c <=? hi)%N.

Definition code_is (n : N) (c : ascii) : bool := (code c =? n)%N.

(** [str.isspace] and the regex class [\s] *)
Definition isspace (c : ascii) : bool :=
  between 9 13 c || between 28 32 c || code_is 133 c || code_is 160 c.

(** the regex class [\d] *)
Definition isdigit (c : ascii) : bool := between 48 57 c.

(** the regex class [[A-Z]] *)
Definition isupper (c : ascii) : bool := between 65 90 c.

(** the regex class [\w] *)
Definition isword (c : ascii) : bool :=
  between 48 57 c || between 65 90 c || code_is 95 c || between 97 122 c
  || code_is 170 c || between 178 179 c || code_is 181 c || between 185 186 c
  || between 188 190 c || between 192 214 c || between 216 246 c
  || between 248 255 c.

Definition isnewline (c : ascii) : bool := code_is 10 c.

(** [str.lower] on one character *)
Definition lower_char (c : ascii) : ascii :=
  if between 65 90 c || between 192 214 c || between 216 222 c
  then ascii_of_N (code c + 32) else c.

Definition lower (s : str) : str := map lower_char s.

Fixpoint dropwhile (p : ascii -> bool) (s : str) : str :=
  match s with
  | c :: t => if p c then dropwhile p t else s
  | [] => []
  end.

Fixpoint takewhile (p : ascii -> bool) (s : str) : str :=
  match s with
  | c :: t => if p c then c :: takewhile p t else []
  | [] => []
  end.

Definition lstrip (s : str) : str := dropwhile isspace s.
Definition rstrip (s : str) : str := rev (dropwhile isspace (rev s)).

(** [str.strip()] *)
Definition strip (s : str) : str := rstrip (lstrip s).

Definition eqc (a b : ascii) : bool := Ascii.eqb a b.

(** [s.startswith(p)] *)
Fixpoint startswith (p s : str) : bool :=
  match p, s with
  | [], _ => true
  | a :: p', b :: s' => eqc a b && startswith p' s'
  | _ :: _, [] => false
  end.

(** [p in s] *)
Fixpoint contains (p s : str) : bool :=
  startswith p s ||
  match s with
  | [] => false
  | _ :: t => contains p t
  end.

(** [s.endswith(p)] *)
Definition endswith (p s : str) : bool := startswith (rev p) (rev s).

(** [any(k in s for k in keys)] *)
Definition any_in (keys : list str) (s : str) : bool :=
  existsb (fun k => contains k s) keys.

(** Scanning substitution, the loop shared by [re.sub] and [str.replace]:
    at each position, left to right, [match_at] is given the previous
    character and the rest of the subject and answers with the length of
    the match that starts there, if any; a match is replaced by [repl]
    of the matched text and the scan resumes behind it.  None of the
    patterns used here matches the empty string. *)
Section Substitution.
Variable match_at : option ascii -> str -> option nat.
Variable repl : str -> str.

Fixpoint sub_from (skip : nat) (prev : option ascii) (s : str) : str :=
  match s with
  | [] => []
  | c :: t =>
      match skip with
      | S k => sub_from k (Some c) t
      | O =>
          match match_at prev s with
          | Some (S n) => repl (firstn (S n) s) ++ sub_from n (Some c) t
          | _ => c :: sub_from 0 (Some c) t
          end
      end
  end.

Definition sub (s : str) : str := sub_from 0 None s.
End Substitution.

(** [s.replace(old, new)] for a non-empty [old] *)
Definition replace (old new s : str) : str :=
  sub (fun _ r => if startswith old r then Some (length old) else None)
      (fun _ => new) s.

(** [s.split()]: the maximal runs of non-blank characters *)
Fixpoint split_from (cur : str) (s : str) : list str :=
  match s with
  | [] => match cur with [] => [] | _ => [rev cur] end
  | c :: t =>
      if isspace c
      then match cur with
           | [] => split_from [] t
           | _ => rev cur :: split_from [] t
           end
      else split_from (c :: cur) t
  end.

Definition split (s : str) : list str := split_from [] s.

(** [sep.join(parts)] *)
Fixpoint join (sep : str) (parts : list str) : str :=
  match parts with
  | [] => []
  | [p] => p
  | p :: rest => p ++ sep ++ join sep rest
  end.

End PyStr.

(** ** utils/pdf_processor.py *)

Module PdfProcessor.
Import PyStr.

Definition nl : str := ["010"%char].

Definition one_of (set : string) (c : ascii) : bool :=
  existsb (eqc c) (lit set).

Fixpoint index_where (p : ascii -> bool) (s : str) : option nat :=
  match s with
  | [] => None
  | c :: t => if p c then Some 0 else option_map S (index_where p t)
  end.

(** index of the last character of [s] that satisfies [p] *)
Fixpoint last_index_where (p : ascii -> bool) (s : str) : option nat :=
  match s with
  | [] => None
  | c :: t =>
      match last_index_where p t with
      | Some j => Some (S j)
      | None => if p c then Some 0 else None
      end
  end.

(** *** The patterns of [preprocess_medical_text]

    Each pattern is given by the length of its match at the head of the
    subject, following the greedy and lazy quantifiers of [re]. *)

(** [kw \d+.*?\n] with [kw] one of ["Page "], ["Chapter "]: the keyword, a
    digit, and then everything up to and including the first line break
    ([.] stops at a line break, so the lazy [.*?] ends at the first one). *)
Definition header_at (kw : str) (_ : option ascii) (s : str) : option nat :=
  if startswith kw s then
    match skipn (length kw) s with
    | d :: r =>
        if isdigit d
        then option_map (fun j => length kw + 1 + j + 1) (index_where isnewline r)
        else None
    | [] => None
    end
  else None.

(** [\n\d+\n] *)
Definition page_number_at (_ : option ascii) (s : str) : option nat :=
  match s with
  | c :: r =>
      if isnewline c then
        let ds := takewhile isdigit r in
        match ds, skipn (length ds) r with
        | _ :: _, e :: _ => if isnewline e then Some (length ds + 2) else None
        | _, _ => None
        end
      else None
  | [] => None
  end.

Definition wordb (o : option ascii) : bool :=
  match o with
  | Some c => isword c
  | None => false
  end.

(** [\b] between two neighbouring positions *)
Definition boundary (before after : option ascii) : bool :=
  xorb (wordb before) (wordb after).

(** prefix test under [re.IGNORECASE] *)
Fixpoint istartswith (p s : str) : bool :=
  match p, s with
  | [], _ => true
  | a :: p', b :: s' => eqc (lower_char a) (lower_char b) && istartswith p' s'
  | _ :: _, [] => false
  end.

(** [\b] + [re.escape(abbrev)] + [\b] with [re.IGNORECASE] *)
Definition abbrev_at (key : str) (prev : option ascii) (s : str) : option nat :=
  if boundary prev (nth_error s 0)
     && istartswith key s
     && boundary (nth_error s (length key - 1)) (nth_error s (length key))
  then Some (length key) else None.

(** [\s+] *)
Definition spaces_at (_ : option ascii) (s : str) : option nat :=
  match length (takewhile isspace s) with
  | O => None
  | n => Some n
  end.

(** [\n\s*\n]: a line break, then the blank run that follows it as far as
    its last line break (the greedy [\s*] gives back what lies behind). *)
Definition paragraph_at (_ : option ascii) (s : str) : option nat :=
  match s with
  | c :: r =>
      if isnewline c
      then option_map (fun j => j + 2)
             (last_index_where isnewline (takewhile isspace r))
      else None
  | [] => None
  end.

Definition allowed (c : ascii) : bool :=
  isword c || isspace c || one_of ".,;:!?-()%+/" c || code_is 176 c.

(** [[^\w\s\.\,\;\:\!\?\-\(\)\%\°\+\-\/]] *)
Definition special_at (_ : option ascii) (s : str) : option nat :=
  match s with
  | c :: _ => if allowed c then None else Some 1
  | [] => None
  end.

(** [\s+([,.!?;:])] *)
Definition space_punct_at (_ : option ascii) (s : str) : option nat :=
  let ws := takewhile isspace s in
  match ws, skipn (length ws) s with
  | _ :: _, p :: _ => if one_of ",.!?;:" p then Some (length ws + 1) else None
  | _, _ => None
  end.

(** [([.!?])\s*([A-Z])] *)
Definition punct_capital_at (_ : option ascii) (s : str) : option nat :=
  match s with
  | p :: r =>
      if one_of ".!?" p then
        let ws := takewhile isspace r in
        match skipn (length ws) r with
        | u :: _ => if isupper u then Some (length ws + 2) else None
        | [] => None
        end
      else None
  | [] => None
  end.

Definition last_char (m : str) : str :=
  match rev m with
  | c :: _ => [c]
  | [] => []
  end.

Definition first_char (m : str) : str := firstn 1 m.

Definition medical_abbrevs : list (string * string) :=
  [ ("mg/dl", "milligrams per deciliter");
    ("mmHg", "millimeters of mercury");
    ("CBC", "complete blood count");
    ("BP", "blood pressure");
    ("HR", "heart rate");
    ("RBC", "red blood cells");
    ("WBC", "white blood cells");
    ("ECG", "electrocardiogram");
    ("EKG", "electrocardiogram");
    ("MRI", "magnetic resonance imaging");
    ("CT", "computed tomography");
    ("ICU", "intensive care unit");
    ("ER", "emergency room");
    ("IV", "intravenous");
    ("IM", "intramuscular");
    ("PO", "by mouth");
    ("PRN", "as needed");
    ("BID", "twice daily");
    ("TID", "three times daily");
    ("QID", "four times daily") ]%string.

Definition remove_headers (t : str) : str :=
  let t := sub (header_at (lit "Page ")) (fun _ => []) t in
  let t := sub (header_at (lit "Chapter ")) (fun _ => []) t in
  sub page_number_at (fun _ => nl) t.

Definition expand_abbrev (t : str) (kv : string * string) : str :=
  sub (abbrev_at (lit (fst kv))) (fun _ => lit (snd kv)) t.

Definition expand_abbrevs (t : str) : str :=
  fold_left expand_abbrev medical_abbrevs t.

Definition collapse_spaces (t : str) : str :=
  sub spaces_at (fun _ => lit " ") t.

Definition paragraph_breaks (t : str) : str :=
  sub paragraph_at (fun _ => nl ++ nl) t.

Definition remove_special (t : str) : str :=
  sub special_at (fun _ => lit " ") t.

Definition fix_punctuation (t : str) : str :=
  let t := sub space_punct_at last_char t in
  sub punct_capital_at (fun m => first_char m ++ lit " " ++ last_char m) t.

Definition preprocess_medical_text (t : str) : str :=
  let t := remove_headers t in
  let t := expand_abbrevs t in
  let t := collapse_spaces t in
  let t := paragraph_breaks t in
  let t := remove_special t in
  let t := fix_punctuation t in
  strip t.

(** *** Chunking *)

Definition medical_keywords : list string :=
  [ "symptom"; "disease"; "treatment"; "medicine"; "diagnosis";
    "patient"; "doctor"; "hospital"; "pain"; "fever"; "infection";
    "medical"; "health"; "illness"; "condition"; "therapy";
    "prescription"; "medication"; "surgery"; "procedure"; "test";
    "blood"; "heart"; "lung"; "brain"; "liver"; "kidney" ]%string.

Definition detect_medical_terms (t : str) : bool :=
  any_in (map lit medical_keywords) (lower t).

Record Metadata := {
  chunk_id : nat;
  source : string;
  length_ : nat;
  word_count : nat;
  has_medical_terms : bool
}.

Record Chunk := {
  text : str;
  metadata : Metadata
}.

(** The loop [for i, chunk in enumerate(chunks)] of [create_smart_chunks],
    from index [i] on. *)
Fixpoint enhance (i : nat) (chunks : list str) : list Chunk :=
  match chunks with
  | [] => []
  | chunk :: rest =>
      let chunk := strip chunk in
      if length chunk <? 50 then enhance (S i) rest
      else {| text := chunk;
              metadata := {| chunk_id := i;
                             source := "medical_encyclopedia";
                             length_ := length chunk;
                             word_count := length (split chunk);
                             has_medical_terms := detect_medical_terms chunk |} |}
           :: enhance (S i) rest
  end.

(** [split_text] is [RecursiveCharacterTextSplitter(chunk_size=800,
    chunk_overlap=150, ...).split_text] of langchain. *)
Definition create_smart_chunks (split_text : str -> list str) (t : str) : list Chunk :=
  enhance 0 (split_text t).

(** [process_pdf_complete], from the text that [extract_text_from_pdf]
    returned (the empty string when the extraction failed). *)
Definition process_pdf_complete (split_text : str -> list str) (raw_text : str) : list Chunk :=
  match raw_text with
  | [] => []
  | _ =>
      match preprocess_medical_text raw_text with
      | [] => []
      | cleaned_text => create_smart_chunks split_text cleaned_text
      end
  end.

End PdfProcessor.

(** ** Exceptions and module globals

    A computation of the program runs on a state [S] and either returns a
    value or raises; in both cases it hands on the state it has reached. *)

Module Py.

Inductive outcome (A : Type) : Type :=
| Ok (a : A)
| Raise.
Arguments Raise {A}.

Definition M (S A : Type) : Type := S -> outcome A * S.

Section Monad.
Variable S : Type.

Definition ret {A} (a : A) : M S A := fun s => (Ok a, s).

Definition raise {A} : M S A := fun s => (Raise, s).

Definition bind {A B} (c : M S A) (k : A -> M S B) : M S B :=
  fun s =>
    match c s with
    | (Ok a, s') => k a s'
    | (Raise, s') => (Raise, s')
    end.

Definition get : M S S := fun s => (Ok s, s).

Definition modify (f : S -> S) : M S unit := fun s => (Ok tt, f s).

(** [try: c  except Exception: h] *)
Definition try_except {A} (c : M S A) (h : M S A) : M S A :=
  fun s =>
    match c s with
    | (Ok a, s') => (Ok a, s')
    | (Raise, s') => h s'
    end.

(** an outcome computed without touching the state *)
Definition of_outcome {A} (o : outcome A) : M S A := fun s => (o, s).

Definition of_option {A} (o : option A) : M S A :=
  match o with
  | Some a => ret a
  | None => raise
  end.
End Monad.

Arguments ret {S A}.
Arguments raise {S A}.
Arguments get {S}.

End Py.

Notation "x <- c ;; k" := (Py.bind c (fun x => k))
  (at level 61, c at next level, right associativity).
Notation "c ;;; k" := (Py.bind c (fun _ => k))
  (at level 61, right associativity).

(** ** utils/vector_database.py *)

Module VectorDatabase.
Import PyStr PdfProcessor Py.

Definition vec := list Q.

(** A [float32] numpy array built from a list of rows: of shape
    [(len rows, c)] when [columns] is [Some c]; one-dimensional, of shape
    [(0,)], when it is [None]. *)
Record ndarray := {
  columns : option nat;
  rows : list vec
}.

(** [faiss.IndexHNSWFlat]: its dimension [d], the graph parameters and the
    stored vectors; [ntotal] is their number. *)
Record IndexHNSWFlat := {
  dim : nat;
  neighbors : nat;
  efSearch : nat;
  efConstruction : nat;
  xb : list vec
}.

Definition ntotal (i : IndexHNSWFlat) : nat := length (xb i).

Record SentenceTransformer := {
  get_sentence_embedding_dimension : nat
}.

(** The third-party code the module calls.  [None] stands for a raised
    exception. *)
Record Library := {
  (** [SentenceTransformer('all-MiniLM-L6-v2')] *)
  load_model : option SentenceTransformer;
  (** [embedding_model.encode(batch, ...)] *)
  encode : list str -> option (list vec);
  (** what [faiss.normalize_L2] makes of one row *)
  fvec_renorm_L2 : vec -> vec;
  (** [zip(scores[0], indices[0])] of [index.search(x, k)] *)
  hnsw_search : IndexHNSWFlat -> vec -> nat -> list (Q * Z)
}.

Record Globals := {
  vector_index : option IndexHNSWFlat;
  vector_texts : list str;
  vector_metadatas : list Metadata;
  embedding_model : option SentenceTransformer;
  dimension : option nat
}.

Definition initial : Globals :=
  {| vector_index := None; vector_texts := []; vector_metadatas := [];
     embedding_model := None; dimension := None |}.

Definition set_vector_index (v : option IndexHNSWFlat) (g : Globals) : Globals :=
  {| vector_index := v; vector_texts := vector_texts g;
     vector_metadatas := vector_metadatas g;
     embedding_model := embedding_model g; dimension := dimension g |}.

Definition set_vector_texts (v : list str) (g : Globals) : Globals :=
  {| vector_index := vector_index g; vector_texts := v;
     vector_metadatas := vector_metadatas g;
     embedding_model := embedding_model g; dimension := dimension g |}.

Definition set_vector_metadatas (v : list Metadata) (g : Globals) : Globals :=
  {| vector_index := vector_index g; vector_texts := vector_texts g;
     vector_metadatas := v;
     embedding_model := embedding_model g; dimension := dimension g |}.

Definition set_embedding_model (v : option SentenceTransformer) (g : Globals) : Globals :=
  {| vector_index := vector_index g; vector_texts := vector_texts g;
     vector_metadatas := vector_metadatas g;
     embedding_model := v; dimension := dimension g |}.

Definition set_dimension (v : option nat) (g : Globals) : Globals :=
  {| vector_index := vector_index g; vector_texts := vector_texts g;
     vector_metadatas := vector_metadatas g;
     embedding_model := embedding_model g; dimension := v |}.

Section WithLibrary.
Variable L : Library.

Definition initialize_embeddings : M Globals SentenceTransformer :=
  m <- of_option (load_model L) ;;
  modify (set_embedding_model (Some m)) ;;;
  modify (set_dimension (Some (get_sentence_embedding_dimension m))) ;;;
  ret m.

Definition create_vector_index : M Globals IndexHNSWFlat :=
  g <- get ;;
  match dimension g with
  | None => initialize_embeddings ;;; ret tt
  | Some _ => ret tt
  end ;;;
  g <- get ;;
  dm <- of_option (dimension g) ;;
  let index := {| dim := dm; neighbors := 32; efSearch := 64;
                  efConstruction := 40; xb := [] |} in
  modify (set_vector_index (Some index)) ;;;
  ret index.

(** [range(0, stop, step)] *)
Definition range_step (stop step : nat) : list nat :=
  map (fun j => j * step) (seq 0 ((stop + step - 1) / step)).

Definition batch_size : nat := 32.

(** the body of [for i in range(0, len(texts), batch_size)] *)
Fixpoint encode_batches (texts : list str) (starts : list nat)
         (all_embeddings : list vec) : M Globals (list vec) :=
  match starts with
  | [] => ret all_embeddings
  | i :: later =>
      let batch := firstn batch_size (skipn i texts) in
      embeddings <- of_option (encode L batch) ;;
      encode_batches texts later (all_embeddings ++ embeddings)
  end.

(** [np.array(rows, dtype='float32')]: rows of unequal length raise *)
Definition np_array (l : list vec) : M Globals ndarray :=
  match l with
  | [] => ret {| columns := None; rows := [] |}
  | r :: others =>
      if forallb (fun r' => length r' =? length r) others
      then ret {| columns := Some (length r); rows := l |}
      else raise
  end.

Definition generate_embeddings (texts : list str) : M Globals ndarray :=
  g <- get ;;
  match embedding_model g with
  | None => initialize_embeddings ;;; ret tt
  | Some _ => ret tt
  end ;;;
  all_embeddings <- encode_batches texts (range_step (length texts) batch_size) [] ;;
  np_array all_embeddings.

(** [faiss.normalize_L2(x)] reads [x.shape[1]] and renormalises every
    row in place. *)
Definition normalize_L2 (x : ndarray) : M Globals ndarray :=
  match columns x with
  | None => raise
  | Some _ => ret {| columns := columns x; rows := map (fvec_renorm_L2 L) (rows x) |}
  end.

(** [index.add(x)]: [n, d = x.shape; assert d == self.d] and then the
    rows are appended. *)
Definition index_add (index : IndexHNSWFlat) (x : ndarray) : outcome IndexHNSWFlat :=
  match columns x with
  | Some c =>
      if c =? dim index
      then Ok {| dim := dim index; neighbors := neighbors index;
                 efSearch := efSearch index;
                 efConstruction := efConstruction index;
                 xb := xb index ++ rows x |}
      else Raise
  | None => Raise
  end.

Definition add_to_vector_database (chunks : list Chunk) : M Globals unit :=
  g <- get ;;
  match vector_index g with
  | None => create_vector_index ;;; ret tt
  | Some _ => ret tt
  end ;;;
  let texts := map text chunks in
  let metadatas := map metadata chunks in
  embeddings <- generate_embeddings texts ;;
  embeddings <- normalize_L2 embeddings ;;
  g <- get ;;
  index <- of_option (vector_index g) ;;
  index <- of_outcome (index_add index embeddings) ;;
  modify (set_vector_index (Some index)) ;;;
  modify (fun g => set_vector_texts (vector_texts g ++ texts) g) ;;;
  modify (fun g => set_vector_metadatas (vector_metadatas g ++ metadatas) g).

(** [l[i]] for a Python list and a signed index *)
Definition getitem {A} (l : list A) (i : Z) : option A :=
  if (0 <=? i)%Z then nth_error l (Z.to_nat i)
  else if (- Z.of_nat (length l) <=? i)%Z
       then nth_error l (Z.to_nat (Z.of_nat (length l) + i))
       else None.

Definition relevance_threshold : Q := 3 # 10.

Definition Qgtb (a b : Q) : bool := negb (Qle_bool a b).

(** [index.search(x, k)]: [n, d = x.shape; assert d == self.d;
    assert k > 0]; the hits of the first query row. *)
Definition index_search (index : IndexHNSWFlat) (x : ndarray) (k : nat)
  : M Globals (list (Q * Z)) :=
  match columns x, rows x with
  | Some c, v :: _ =>
      if (c =? dim index) && (0 <? k)
      then ret (hnsw_search L index v k)
      else raise
  | _, _ => raise
  end.

(** the loop [for score, idx in zip(scores[0], indices[0])] *)
Fixpoint collect (texts : list str) (metadatas : list Metadata)
         (hits : list (Q * Z)) (results : list (str * Q * Metadata))
  : outcome (list (str * Q * Metadata)) :=
  match hits with
  | [] => Ok results
  | (score, idx) :: later =>
      if negb (idx =? -1)%Z && Qgtb score relevance_threshold
      then match getitem texts idx, getitem metadatas idx with
           | Some t, Some m => collect texts metadatas later (results ++ [(t, score, m)])
           | _, _ => Raise
           end
      else collect texts metadatas later results
  end.

Definition similarity_search (query : str) (k : nat)
  : M Globals (list (str * Q * Metadata)) :=
  g <- get ;;
  match vector_index g with
  | None => ret []
  | Some index =>
      if ntotal index =? 0 then ret []
      else
        match embedding_model g with
        | None => initialize_embeddings ;;; ret tt
        | Some _ => ret tt
        end ;;;
        query_embedding <- of_option (encode L [query]) ;;
        query_embedding <- np_array query_embedding ;;
        query_embedding <- normalize_L2 query_embedding ;;
        hits <- index_search index query_embedding k ;;
        g <- get ;;
        of_outcome (collect (vector_texts g) (vector_metadatas g) hits [])
  end.

Record Stats := {
  total_chunks : nat;
  index_size : nat;
  stats_dimension : option nat;
  model : string
}.

Definition get_database_stats (g : Globals) : Stats :=
  {| total_chunks := length (vector_texts g);
     index_size := match vector_index g with
                   | Some index => ntotal index
                   | None => 0
                   end;
     stats_dimension := dimension g;
     model := "all-MiniLM-L6-v2" |}.

End WithLibrary.

(** *** Persistence *)

(** What [pickle.load] finds in a side file: a dictionary, any of whose
    three keys may be missing. *)
Record Pickled := {
  p_texts : option (list str);
  p_metadatas : option (list Metadata);
  p_dimension : option (option nat)
}.

Inductive Blob :=
| FaissFile (index : IndexHNSWFlat)
| PickleFile (data : Pickled)
| Corrupt.

(** The disk: the files by path, and whether the operating system lets a
    directory be created and a file be opened for writing. *)
Record Disk := {
  files : str -> option Blob;
  makedirs_ok : str -> bool;
  open_wb_ok : str -> bool
}.

Definition str_eqb (a b : str) : bool :=
  if list_eq_dec ascii_dec a b then true else false.

Definition write_file (path : str) (b : Blob) (dk : Disk) : Disk :=
  {| files := fun p => if str_eqb p path then Some b else files dk p;
     makedirs_ok := makedirs_ok dk;
     open_wb_ok := open_wb_ok dk |}.

Definition slash : ascii := "/"%char.

(** [os.path.dirname] *)
Definition dirname (path : str) : str :=
  let head := rev (dropwhile (fun c => negb (eqc c slash)) (rev path)) in
  if forallb (fun c => eqc c slash) head then head
  else rev (dropwhile (fun c => eqc c slash) (rev head)).

Definition faiss_path (path : str) : str := path ++ lit ".faiss".
Definition pkl_path (path : str) : str := path ++ lit ".pkl".

(** [os.makedirs(name, exist_ok=True)]: the empty name raises *)
Definition makedirs (name : str) : M Disk unit :=
  fun dk =>
    match name with
    | [] => (Raise, dk)
    | _ => if makedirs_ok dk name then (Ok tt, dk) else (Raise, dk)
    end.

(** writing a whole file: [faiss.write_index], or [open(.., 'wb')] and
    [pickle.dump] *)
Definition write (path : str) (b : Blob) : M Disk unit :=
  fun dk =>
    if open_wb_ok dk path then (Ok tt, write_file path b dk) else (Raise, dk).

Definition save_vector_database (g : Globals) (path : str) : M Disk unit :=
  makedirs (dirname path) ;;;
  match vector_index g with
  | Some index =>
      if 0 <? ntotal index then write (faiss_path path) (FaissFile index)
      else ret tt
  | None => ret tt
  end ;;;
  write (pkl_path path)
    (PickleFile {| p_texts := Some (vector_texts g);
                   p_metadatas := Some (vector_metadatas g);
                   p_dimension := Some (dimension g) |}).

Section Loading.
Variable L : Library.
Variable dk : Disk.

(** [faiss.read_index] *)
Definition read_index (b : Blob) : M Globals IndexHNSWFlat :=
  match b with
  | FaissFile index => ret index
  | _ => raise
  end.

(** [pickle.load] *)
Definition pickle_load (b : Blob) : M Globals Pickled :=
  match b with
  | PickleFile data => ret data
  | _ => raise
  end.

Definition load_body (path : str) : M Globals bool :=
  match files dk (faiss_path path) with
  | Some b =>
      index <- read_index b ;;
      modify (set_vector_index (Some index))
  | None => ret tt
  end ;;;
  match files dk (pkl_path path) with
  | Some b =>
      data <- pickle_load b ;;
      texts <- of_option (p_texts data) ;;
      modify (set_vector_texts texts) ;;;
      metadatas <- of_option (p_metadatas data) ;;
      modify (set_vector_metadatas metadatas) ;;;
      dm <- of_option (p_dimension data) ;;
      modify (set_dimension dm)
  | None => ret tt
  end ;;;
  initialize_embeddings L ;;;
  ret true.

Definition load_vector_database (path : str) : M Globals bool :=
  try_except (load_body path) (ret false).
End Loading.

End VectorDatabase.

(** ** utils/retrieval_qa.py *)

Module RetrievalQA.
Import PyStr PdfProcessor Py VectorDatabase.

(** The template is kept as the bytes of the source file; it is only
    handed to the completion service. *)
Definition prompt_head : string :=
"You are a highly knowledgeable and professional medical assistant. Use the medical context provided below, along with your general medical knowledge, to generate accurate, helpful, and easy-to-understand responses to the user's question.

Instructions:
• Prioritize information found in the medical context whenever relevant.
• If specific details are not present in the context, provide a reliable and informative response based on your broader medical knowledge—without stating that the context is lacking.
• Structure your response using clear formatting, such as bullet points (•) or numbered lists, where appropriate. But dont use +.
• Use professional yet approachable language suitable for both medical professionals and laypersons.
• Explain complex medical terms in simple language when needed.
• Do not mention the absence or presence of information in the context. Focus on delivering a complete and helpful answer.

Medical Context:
".

(** [create_medical_prompt_template().format(context=.., question=..)] *)
Definition format_prompt (context question : str) : str :=
  lit prompt_head ++ context
  ++ nl ++ nl ++ lit "User Question:" ++ nl ++ question
  ++ nl ++ nl ++ lit "Answer:".

Definition vague_phrases : list string :=
  [ "I'm sorry"; "I don't know"; "insufficient information";
    "not enough context"; "I cannot provide"; "I am unable" ]%string.

(** the critic *)
Definition is_response_complete (response : str) : bool :=
  match response with
  | [] => false
  | _ =>
      if length response <? 80 then false
      else negb (existsb (fun phrase => contains (lower (lit phrase)) (lower response))
                         vague_phrases)
  end.

Definition format_medical_response (response : str) : str :=
  let response := replace (lit "**") [] response in
  let response := replace (lit "*") [] response in
  let response := replace (nl ++ nl ++ nl) (nl ++ nl) response in
  let response := strip response in
  let disclaimer : str := [] in
  if negb (endswith (strip disclaimer) response)
  then response ++ disclaimer
  else response.

Definition medical_indicators : list string :=
  [ "symptom"; "disease"; "condition"; "treatment"; "medicine"; "medication";
    "diagnosis"; "doctor"; "hospital"; "pain"; "fever"; "infection";
    "medical"; "health"; "illness"; "therapy"; "surgery"; "procedure";
    "blood"; "heart"; "lung"; "brain"; "liver"; "kidney"; "cancer";
    "diabetes"; "hypertension"; "pneumonia"; "what is"; "how to treat";
    "causes of"; "prevention"; "cure"; "relief" ]%string.

Definition validate_medical_query (query : str) : bool :=
  let query_lower := lower query in
  any_in (map lit medical_indicators) query_lower.

(** One request: the module globals of the vector database, and a record
    of the calls made to the collaborators (the breadth of every
    retrieval, the prompt of every completion call), oldest first. *)
Record Session := {
  globals : Globals;
  retrievals : list nat;
  completions : list str
}.

Definition set_globals (g : Globals) (s : Session) : Session :=
  {| globals := g; retrievals := retrievals s; completions := completions s |}.

Definition log_retrieval (k : nat) (s : Session) : Session :=
  {| globals := globals s; retrievals := retrievals s ++ [k];
     completions := completions s |}.

Definition log_completion (prompt : str) (s : Session) : Session :=
  {| globals := globals s; retrievals := retrievals s;
     completions := completions s ++ [prompt] |}.

Definition lift {A} (c : M Globals A) : M Session A :=
  fun s => let (o, g) := c (globals s) in (o, set_globals g s).

(** The completion service: the answer to a prompt may differ from call
    to call, so it is given the number of calls made before; [None] is any
    exception on the way to [completion.choices[0].message.content]. *)
Definition Groq := nat -> str -> option str.

Definition fallback : string :=
  "I apologize, but I encountered an error while processing your medical question. Please try rephrasing your question or consult a healthcare professional directly.".

Definition no_context : string :=
  "No relevant medical information found in the knowledge base.".

Definition decimal (n : nat) : str :=
  lit (DecimalString.NilEmpty.string_of_uint (Nat.to_uint n)).

Section WithClient.
Variable L : Library.
(** [f"{score:.2f}"] *)
Variable format_2f : Q -> str.
Variable groq_client : Groq.

(** the loop [for i, (text, score, metadata) in enumerate(results, 1)] *)
Fixpoint context_pieces (i : nat) (results : list (str * Q * Metadata)) : list str :=
  match results with
  | [] => []
  | (t, score, _) :: later =>
      (lit "[Source " ++ decimal i ++ lit " - Relevance: " ++ format_2f score
       ++ lit "]" ++ nl ++ strip t)
      :: context_pieces (S i) later
  end.

Definition retrieve_relevant_context (query : str) (top_k : nat) : M Session str :=
  modify (log_retrieval top_k) ;;;
  results <- lift (similarity_search L query top_k) ;;
  match results with
  | [] => ret (lit no_context)
  | _ =>
      let contexts := context_pieces 1 results in
      ret (nl ++ nl ++ repeat "="%char 50 ++ join (nl ++ nl) contexts)
  end.

(** [groq_client.chat.completions.create(...)] and the content of its
    first choice *)
Definition chat_completion (prompt : str) : M Session str :=
  s <- get ;;
  modify (log_completion prompt) ;;;
  of_option (groq_client (length (completions s)) prompt).

(** one turn of the loop up to the critic: retrieval, prompt, completion
    and formatting *)
Definition draft (query : str) (top_k : nat) : M Session str :=
  context <- retrieve_relevant_context query top_k ;;
  let prompt := format_prompt context query in
  response <- chat_completion prompt ;;
  ret (format_medical_response response).

Definition max_top_k : nat := 12.

(** the turns the loop has left when it tests [top_k <= max_top_k] *)
Definition turns_left (top_k : nat) : nat := S max_top_k - top_k.

(** [while top_k <= max_top_k: ...], from the values the loop variables
    have on entry; the result is [final_response] and [retries]. *)
Equations? critic_loop (query : str) (top_k retries : nat) (final_response : str)
           (s : Session) : outcome (str * nat) * Session
  by wf (turns_left top_k) lt :=
  critic_loop query top_k retries final_response s with le_lt_dec top_k max_top_k => {
    | right _ => (Ok (final_response, retries), s);
    | left _ with draft query top_k s => {
        | (Raise, s') => (Raise, s');
        | (Ok formatted_response, s') with is_response_complete formatted_response => {
            | true => (Ok (formatted_response, retries), s');
            | false => critic_loop query (top_k + 1) (retries + 1) formatted_response s'
          }
      }
  }.
Proof. unfold turns_left, max_top_k in *. lia. Qed.

Definition generate_medical_response (query : str) : Session -> str * Session :=
  fun s =>
    match critic_loop query 3 0 [] s with
    | (Ok (final_response, _), s') => (final_response, s')
    | (Raise, s') => (lit fallback, s')
    end.

End WithClient.

End RetrievalQA.


(** ** Vocabulary of the properties *)

Module Props.
Import PyStr PdfProcessor Py VectorDatabase RetrievalQA.

Definition no_newline (c : ascii) : Prop := isnewline c = false.

(** the ids of the passages, in output order *)
Definition ids (chunks : list Chunk) : list nat :=
  map (fun c => chunk_id (metadata c)) chunks.

(** [enumerate(chunks)] *)
Definition enumerate {A} (l : list A) : list (nat * A) :=
  combine (seq 0 (length l)) l.

(** [index.count]: what [get_database_stats] reports as [index_size] *)
Definition index_count (g : Globals) : nat := index_size (get_database_stats g).

(** index count, stored texts and stored metadata are equally many *)
Definition count_invariant (g : Globals) : Prop :=
  index_count g = length (vector_texts g)
  /\ length (vector_texts g) = length (vector_metadatas g).

(** the three collections of the store are as they were *)
Definition same_store (g g' : Globals) : Prop :=
  index_count g' = index_count g
  /\ vector_texts g' = vector_texts g
  /\ vector_metadatas g' = vector_metadatas g.

(** [encode] returns one row for every text it is given *)
Definition encode_row_per_text (L : Library) : Prop :=
  forall batch m, encode L batch = Some m -> length m = length batch.




(** the test [idx != -1 and score > 0.3] of [similarity_search] *)
Definition kept (h : Q * Z) : bool :=
  negb (snd h =? -1)%Z && Qgtb (fst h) relevance_threshold.

Definition score (r : str * Q * Metadata) : Q := snd (fst r).


(** the result [r] was built from the hit [h] *)
Definition result_of (texts : list str) (metadatas : list Metadata)
           (h : Q * Z) (r : str * Q * Metadata) : Prop :=
  getitem texts (snd h) = Some (fst (fst r))
  /\ score r = fst h
  /\ getitem metadatas (snd h) = Some (snd r).

Definition is_some {A} (o : option A) : bool :=
  match o with
  | Some _ => true
  | None => false
  end.

(** the index file is missing, or [faiss.read_index] can read it *)
Definition index_file_ok (f : option Blob) : bool :=
  match f with
  | None => true
  | Some (FaissFile _) => true
  | Some _ => false
  end.

(** the side file is missing, or it unpickles to a dictionary with the keys
    ['texts'], ['metadatas'] and ['dimension'] *)
Definition side_file_ok (f : option Blob) : bool :=
  match f with
  | None => true
  | Some (PickleFile data) =>
      is_some (p_texts data) && is_some (p_metadatas data) && is_some (p_dimension data)
  | Some _ => false
  end.

(** nothing stands in the way of [load_vector_database] *)
Definition load_succeeds (L : Library) (dk : Disk) (path : str) : bool :=
  index_file_ok (files dk (faiss_path path))
  && side_file_ok (files dk (pkl_path path))
  && is_some (load_model L).

(** the side file [save_vector_database] writes for the globals [g] *)
Definition side_file (g : Globals) : Blob :=
  PickleFile {| p_texts := Some (vector_texts g);
                p_metadatas := Some (vector_metadatas g);
                p_dimension := Some (dimension g) |}.

(** the index exists and holds at least one vector *)
Definition has_vectors (g : Globals) : bool :=
  match vector_index g with
  | Some index => 0 <? ntotal index
  | None => false
  end.


(** the turns of breadth [lo], ..., [hi - 1] on the sessions [ss lo], ...
    all end with a candidate, [cs k] for breadth [k], that the critic
    rejects *)
Definition rejected_between (L : Library) (format_2f : Q -> str) (groq_client : Groq)
           (query : str) (ss : nat -> Session) (cs : nat -> str) (lo hi : nat) : Prop :=
  forall k, lo <= k < hi ->
            draft L format_2f groq_client query k (ss k) = (Ok (cs k), ss (S k))
            /\ is_response_complete (cs k) = false.

(** a computation that never changes the three collections *)
Definition framed {A} (c : M Globals A) : Prop :=
  forall g o g', c g = (o, g') -> same_store g g'.

(** the test [len(chunk) < 50] fails on an enumerated trimmed chunk *)
Definition long_enough (p : nat * str) : bool := negb (length (snd p) <? 50).

End Props.

(** ** Vocabulary of the normal form *)

Module NormalForm.
Import PyStr PdfProcessor.

(** the character before the position reached after reading [l] *)
Definition prev_after (prev : option ascii) (l : str) : option ascii :=
  fold_left (fun _ c => Some c) l prev.

(** the pattern matches at no position of the subject *)
Fixpoint nomatch (match_at : option ascii -> str -> option nat)
         (prev : option ascii) (s : str) : bool :=
  match s with
  | [] => true
  | c :: t => negb (Props.is_some (match_at prev s)) && nomatch match_at (Some c) t
  end.

(** wherever the pattern matches, the replacement is the matched text *)
Fixpoint stable (match_at : option ascii -> str -> option nat) (repl : str -> str)
         (prev : option ascii) (s : str) : Prop :=
  match s with
  | [] => True
  | c :: t =>
      match match_at prev s with
      | Some (S n) => repl (firstn (S n) s) = firstn (S n) s
      | _ => True
      end /\ stable match_at repl (Some c) t
  end.

(** no two neighbouring characters are in the relation [R] *)
Fixpoint chain (R : ascii -> ascii -> bool) (prev : option ascii) (s : str) : Prop :=
  match s with
  | [] => True
  | c :: t =>
      match prev with
      | Some p => R p c = false
      | None => True
      end /\ chain R (Some c) t
  end.

Definition ispunct (c : ascii) : bool := one_of ",.!?;:" c.
Definition isstop (c : ascii) : bool := one_of ".!?" c.

Definition blank_blank (a b : ascii) : bool := isspace a && isspace b.
Definition blank_punct (a b : ascii) : bool := isspace a && ispunct b.
Definition stop_capital (a b : ascii) : bool := isstop a && isupper b.

(** the normalized text has no two adjacent blanks *)
Definition no_double_space (s : str) : Prop := chain blank_blank None s.

Definition blank_is_space (c : ascii) : Prop := isspace c = true -> c = " "%char.

Definition head_blank (s : str) : bool :=
  match s with
  | c :: _ => isspace c
  | [] => false
  end.

Definition blankb (o : option ascii) : bool :=
  match o with
  | Some c => isspace c
  | None => false
  end.

(** behind the blanks at the head of [s] there is a punctuation mark *)
Definition leads_punct (s : str) : bool :=
  match dropwhile isspace s with
  | p :: _ => ispunct p
  | [] => false
  end.

(** behind the blanks at the head of [s] there is a capital letter *)
Definition leads_capital (s : str) : bool :=
  match dropwhile isspace s with
  | u :: _ => isupper u
  | [] => false
  end.

Definition stopb (o : option ascii) : bool :=
  match o with
  | Some c => isstop c
  | None => false
  end.

Definition head_capital (s : str) : bool :=
  match s with
  | c :: _ => isupper c
  | [] => false
  end.

(** [re.sub(r'\s+([,.!?;:])', r'\1', text)] and
    [re.sub(r'([.!?])\s*([A-Z])', r'\1 \2', text)], from a position on *)
Definition unspace_from (prev : option ascii) (s : str) : str :=
  sub_from space_punct_at last_char 0 prev s.

Definition respace_from (prev : option ascii) (s : str) : str :=
  sub_from punct_capital_at (fun m => first_char m ++ lit " " ++ last_char m) 0 prev s.

(** the text is empty or starts with a character that is not a word
    character *)
Definition sep_head (x : str) : bool :=
  match x with
  | c :: _ => negb (isword c)
  | [] => true
  end.

(** a key made of word characters *)
Definition one_word (k : str) : bool :=
  negb (length k =? 0) && forallb isword k.

(** *** Words and separators *)

(** A text as its maximal runs of word characters and, one by one, the
    characters between them. *)
Inductive tok :=
| Word (w : str)
| Sep (c : ascii).

Definition flat1 (t : tok) : str :=
  match t with
  | Word w => w
  | Sep c => [c]
  end.

Definition flat (toks : list tok) : str := flat_map flat1 toks.

Fixpoint tokenize (s : str) : list tok :=
  match s with
  | [] => []
  | c :: t =>
      if isword c
      then match tokenize t with
           | Word w :: rest => Word (c :: w) :: rest
           | rest => Word [c] :: rest
           end
      else Sep c :: tokenize t
  end.

(** words are not empty and made of word characters, separators are not
    word characters, and no two words are adjacent; [after_word] tells
    whether a word stands before the list *)
Fixpoint wf (after_word : bool) (toks : list tok) : bool :=
  match toks with
  | [] => true
  | Word w :: rest =>
      negb after_word && negb (length w =? 0) && forallb isword w && wf true rest
  | Sep c :: rest => negb (isword c) && wf false rest
  end.

(** a well-formed list that ends with a word (or is empty after a word) *)
Fixpoint wf_open (after_word : bool) (toks : list tok) : bool :=
  match toks with
  | [] => after_word
  | Word w :: rest =>
      negb after_word && negb (length w =? 0) && forallb isword w && wf_open true rest
  | Sep c :: rest => negb (isword c) && wf_open false rest
  end.

(** [w] is the key [k], case ignored *)
Definition ieqs (w k : str) : bool := (length w =? length k) && istartswith k w.

Definition expand_from (k e : str) (prev : option ascii) (s : str) : str :=
  sub_from (abbrev_at k) (fun _ => e) 0 prev s.

(** the substitution of a one-word key, on tokens *)
Definition expand_tok (k : str) (e : list tok) (t : tok) : list tok :=
  match t with
  | Word w => if ieqs w k then e else [Word w]
  | Sep c => [Sep c]
  end.

Definition expand_toks (k : str) (e : list tok) (toks : list tok) : list tok :=
  flat_map (expand_tok k e) toks.

(** the word is not the key *)
Definition other_word (k : str) (t : tok) : bool :=
  match t with
  | Word w => negb (ieqs w k)
  | Sep _ => true
  end.

(** *** The key with a solidus *)

Definition solidus : ascii := "/"%char.

(** the key [a/b], two words around a solidus *)
Definition slash_key (a b : str) : str := a ++ solidus :: b.

(** the list starts with the word [a], a solidus and the word [b] *)
Definition triple_at (a b : str) (toks : list tok) : bool :=
  match toks with
  | Word w1 :: Sep c :: Word w2 :: _ => ieqs w1 a && eqc c solidus && ieqs w2 b
  | _ => false
  end.

Fixpoint no_triple (a b : str) (toks : list tok) : bool :=
  match toks with
  | [] => true
  | _ :: rest => negb (triple_at a b toks) && no_triple a b rest
  end.

(** the substitution of the key [a/b], on tokens *)
Fixpoint expand_triples_from (a b : str) (e : list tok) (skip : nat)
         (toks : list tok) : list tok :=
  match toks with
  | [] => []
  | t :: rest =>
      match skip with
      | S n => expand_triples_from a b e n rest
      | O =>
          if triple_at a b toks
          then e ++ expand_triples_from a b e 2 rest
          else t :: expand_triples_from a b e 0 rest
      end
  end.

(** the end of a match of [k] at the head of [s] is a word boundary *)
Definition end_ok (k s : str) : bool :=
  boundary (nth_error s (length k - 1)) (nth_error s (length k)).

Definition eqc_pair (p : ascii * ascii) : bool := eqc (fst p) (snd p).

(** *** The table of abbreviations *)

(** no key of the table matches anywhere in the text *)
Definition abbrev_free (s : str) : bool :=
  forallb (fun kv => nomatch (abbrev_at (lit (fst kv))) None s) medical_abbrevs.

Definition key (kv : string * string) : str := lit (fst kv).

Definition expansion (kv : string * string) : list tok := tokenize (lit (snd kv)).

Definition word_headed (e : list tok) : bool :=
  match e with
  | Word _ :: _ => true
  | _ => false
  end.

(** the expansion starts and ends with a word and none of its words is
    [a], [b] or one of [keys] *)
Definition entry_ok (a b : str) (keys : list str) (kv : string * string) : bool :=
  let e := expansion kv in
  word_headed e && wf_open false e
  && forallb (other_word a) e && forallb (other_word b) e
  && forallb (fun k => forallb (other_word k) e) keys.

Definition mg : str := lit "mg".
Definition dl : str := lit "dl".

(** the first key is [mg/dl], the other keys are single words, and no
    expansion contains a key *)
Definition table_ok : bool :=
  match medical_abbrevs with
  | kv0 :: rest =>
      forallb eqc_pair (combine (key kv0) (slash_key mg dl))
      && (length (key kv0) =? length (slash_key mg dl))
      && one_word mg && one_word dl
      && forallb (fun kv => one_word (key kv)) rest
      && forallb (entry_ok mg dl (map key rest)) medical_abbrevs
  | [] => false
  end.

(** the words of the text after the substitutions already made: no
    [a/b] and none of the keys in [done] *)
Definition settled (a b : str) (done : list str) (toks : list tok) : Prop :=
  wf false toks = true
  /\ no_triple a b toks = true
  /\ forall k, In k done -> forallb (other_word k) toks = true.

(** [abbrev_free] on the words of the text *)
Definition token_free (toks : list tok) : bool :=
  no_triple mg dl toks
  && forallb (fun kv => forallb (other_word (key kv)) toks) (tl medical_abbrevs).

(** *** The text up to what stands between its words *)

(** a character that is neither a word character nor the solidus *)
Definition junk (c : ascii) : bool := negb (isword c) && negb (eqc c solidus).

Definition hash : ascii := "#"%char.

(** every run of junk before a word character or a solidus becomes one
    [#], the junk at the end is dropped; [pending] tells whether junk
    (or the start of the text) stands before [s] *)
Fixpoint alpha (pending : bool) (s : str) : str :=
  match s with
  | [] => []
  | c :: t =>
      if junk c then alpha true t
      else if pending then hash :: c :: alpha false t
           else c :: alpha false t
  end.

Definition pend (pending : bool) (s : str) : bool :=
  fold_left (fun _ c => junk c) s pending.

(** [alpha] on tokens *)
Fixpoint talpha (pending : bool) (toks : list tok) : list tok :=
  match toks with
  | [] => []
  | Word w :: rest =>
      if pending then Sep hash :: Word w :: talpha false rest
      else Word w :: talpha false rest
  | Sep c :: rest =>
      if eqc c solidus
      then if pending then Sep hash :: Sep c :: talpha false rest
           else Sep c :: talpha false rest
      else talpha true rest
  end.

End NormalForm.

(** ** Concrete inputs and collaborators *)

Module Examples.
Import PyStr PdfProcessor Py VectorDatabase RetrievalQA.

(** a first paragraph of two characters, a second one of 797 *)
Definition two_paragraphs : str :=
  lit "Hi" ++ nl ++ nl ++ repeat "x"%char 797.

(** the chunks a splitter with [chunk_size=800] makes of [two_paragraphs]:
    the two paragraphs do not fit into one chunk *)
Definition split_paragraphs (t : str) : list str :=
  [lit "Hi"; repeat "x"%char 797].

(** a disk without files, on which everything may be written *)
Definition empty_disk : Disk :=
  {| files := fun _ => None;
     makedirs_ok := fun _ => true;
     open_wb_ok := fun _ => true |}.

Definition store_path : str := lit "data/medical_vector_store".

Definition toy_model : SentenceTransformer :=
  {| get_sentence_embedding_dimension := 2 |}.

(** the hits of the toy index: the first two stored vectors, then the
    padding FAISS uses when it has found nothing more *)
Definition toy_hits (k : nat) : list (Q * Z) :=
  firstn k [((9 # 10)%Q, 0%Z); ((1 # 10)%Q, 1%Z)]
  ++ repeat ((-1 # 1)%Q, (-1)%Z) (k - 2).

(** a library in which nothing fails: two-dimensional embeddings, one row
    per text *)
Definition toy_library : Library :=
  {| load_model := Some toy_model;
     encode := fun batch => Some (map (fun t => [(Z.of_nat (length t) # 1)%Q; (1 # 1)%Q]) batch);
     fvec_renorm_L2 := fun v => v;
     hnsw_search := fun _ _ k => toy_hits k |}.



(** a library whose embedding model cannot encode *)
Definition failing_library : Library :=
  {| load_model := Some toy_model;
     encode := fun _ => None;
     fvec_renorm_L2 := fun v => v;
     hnsw_search := fun _ _ k => toy_hits k |}.

(** a completion service whose every answer the critic rejects *)
Definition vague_client : Groq := fun _ _ => Some (lit "I don't know.").

(** a completion service that fails at its third call *)
Definition flaky_client : Groq :=
  fun n _ => if n <? 2 then Some (lit "I don't know.") else None.

Definition plain_2f (q : Q) : str := lit "0.90".

Definition fever : str := lit "What is fever?".

(** the prompt built for [fever] when nothing was retrieved *)
Definition fever_prompt : str := format_prompt (lit no_context) fever.

(** the session after the turns of breadth 3, ..., [k - 1] on the empty
    store, every one of them with a completion call *)
Definition session_at (k : nat) : Session :=
  {| globals := initial;
     retrievals := seq 3 (k - 3);
     completions := repeat fever_prompt (k - 3) |}.

Definition passage (i : nat) (t : string) : Chunk :=
  {| text := lit t;
     metadata := {| chunk_id := i; source := "medical_encyclopedia";
                    length_ := length (lit t);
                    word_count := length (split (lit t));
                    has_medical_terms := detect_medical_terms (lit t) |} |}.

Definition two_passages : list Chunk :=
  [ passage 0 "Fever is a rise of the body temperature above the normal range.";
    passage 1 "Hypertension is a long-term condition of raised blood pressure." ].

End Examples.

(** ** utils/pdf_processor.py: the extraction of the text *)

Module PdfExtraction.
Import PyStr PdfProcessor Py.

(** PyPDF2's [PdfReader]: for every page, what [page.extract_text()]
    gives; [None] is a raised exception. *)
Record PdfReader := {
  pages : list (option str)
}.

(** the loop [for i, page in enumerate(reader.pages)], on the text
    gathered so far: a page without text adds nothing *)
Fixpoint extract_pages (pages : list (option str)) (text : str) : outcome str :=
  match pages with
  | [] => Ok text
  | None :: _ => Raise
  | Some page_text :: later =>
      match page_text with
      | [] => extract_pages later text
      | _ => extract_pages later (text ++ page_text ++ nl)
      end
  end.

(** [reader] is what [PdfReader(pdf_path)] gives, [None] when it raises;
    [except Exception] returns the empty text. *)
Definition extract_text_from_pdf (reader : option PdfReader) : str :=
  match reader with
  | Some r =>
      match extract_pages (pages r) [] with
      | Ok text => text
      | Raise => []
      end
  | None => []
  end.

End PdfExtraction.

(** ** app.py *)

Module App.
Import PyStr PdfProcessor PdfExtraction Py VectorDatabase RetrievalQA.

Definition PDF_PATH : str := lit "data/Medical_book.pdf".

Definition VECTOR_DB_PATH : str := lit "data/medical_vector_store".

(** What the process finds around it: whether [os.path.exists(PDF_PATH)],
    what [PdfReader(PDF_PATH)] gives, and the splitter of langchain. *)
Record Environment := {
  pdf_exists : bool;
  pdf_reader : option PdfReader;
  split_text : str -> list str
}.

(** The globals of [utils.vector_database], the disk, and the global
    [vector_index] of [app.py] itself, which is unbound until
    [reprocess_pdf] binds it: [from utils.vector_database import
    vector_index] under [global vector_index] makes a name of the module
    [app], and assigning to it leaves the name of the same spelling in
    [utils.vector_database] as it is.  The names [vector_texts] and
    [vector_metadatas] that the same import binds refer to the list
    objects of [utils.vector_database], so that [clear()] empties those. *)
Record World := {
  store : Globals;
  disk : Disk;
  app_vector_index : option (option IndexHNSWFlat)
}.

Definition set_store (g : Globals) (w : World) : World :=
  {| store := g; disk := disk w; app_vector_index := app_vector_index w |}.

Definition set_disk (dk : Disk) (w : World) : World :=
  {| store := store w; disk := dk; app_vector_index := app_vector_index w |}.

(** a function of [utils.vector_database] called from [app.py] *)
Definition on_store {A} (c : M Globals A) : M World A :=
  fun w => let (o, g) := c (store w) in (o, set_store g w).

(** The body of a JSON response. *)
Inductive Body :=
| ErrorBody (error : str)
| ReplyBody (response : str) (timestamp : str)
| ReprocessedBody (message : str) (chunks_count : nat)
| HealthBody (status_text : str) (vector_database : Stats) (groq_model : str)
             (timestamp : str).

Record Response := {
  body : Body;
  status : nat
}.

(** What [request.get_json()] and [data.get('message', '')] make of the
    request: [Unreadable] when one of them, or the [strip()] that
    follows, raises (no JSON, a body that is no dictionary, a message that
    is no string). *)
Inductive Payload :=
| Unreadable
| NoMessage
| Message (m : str).

Definition not_medical : string :=
  "Please ask a medical-related question. I'm specialized in providing medical information from my knowledge base.".

Section WithCollaborators.
Variable L : Library.
Variable E : Environment.
Variable format_2f : Q -> str.
Variable groq_client : Groq.
(** [datetime.now().strftime('%H:%M')] and [datetime.now().isoformat()] *)
Variable clock : str.
Variable iso_clock : str.
(** [str(e)] in the handler of [reprocess_pdf] *)
Variable str_e : str.

Definition save_vector_database (path : str) : M World unit :=
  fun w =>
    let (o, dk) := VectorDatabase.save_vector_database (store w) path (disk w) in
    (o, set_disk dk w).

Definition load_vector_database (path : str) : M World bool :=
  fun w =>
    let (o, g) := VectorDatabase.load_vector_database L (disk w) path (store w) in
    (o, set_store g w).

Definition process_medical_pdf : M World bool :=
  try_except
    (if negb (pdf_exists E) then ret false
     else
       let chunks := process_pdf_complete (split_text E)
                       (extract_text_from_pdf (pdf_reader E)) in
       match chunks with
       | [] => ret false
       | _ =>
           on_store (add_to_vector_database L chunks) ;;;
           save_vector_database VECTOR_DB_PATH ;;;
           ret true
       end)
    (ret false).

Definition initialize_medical_chatbot : M World bool :=
  on_store (initialize_embeddings L) ;;;
  loaded <- load_vector_database VECTOR_DB_PATH ;;
  w <- get ;;
  if loaded && (0 <? total_chunks (get_database_stats (store w)))
  then ret true
  else process_medical_pdf.

(** the body of [try] in [chat] *)
Definition chat_body (payload : Payload) : M Session Response :=
  user_message <- match payload with
                  | Unreadable => raise
                  | NoMessage => ret (strip [])
                  | Message m => ret (strip m)
                  end ;;
  match user_message with
  | [] => ret {| body := ErrorBody (lit "Please enter a message"); status := 400 |}
  | _ =>
      if 500 <? length user_message
      then ret {| body := ErrorBody (lit "Message too long. Please keep it under 500 characters.");
                  status := 400 |}
      else if negb (validate_medical_query user_message)
      then ret {| body := ReplyBody (lit not_medical) clock; status := 200 |}
      else
        fun s =>
          let (response, s') :=
            generate_medical_response L format_2f groq_client user_message s in
          (Ok {| body := ReplyBody response clock; status := 200 |}, s')
  end.

Definition chat (payload : Payload) : Session -> Response * Session :=
  fun s =>
    match chat_body payload s with
    | (Ok r, s') => (r, s')
    | (Raise, s') =>
        ({| body := ErrorBody (lit "An error occurred while processing your request");
            status := 500 |}, s')
    end.

Definition health_check (g : Globals) : Response :=
  {| body := HealthBody (lit "healthy") (get_database_stats g)
                        (lit "llama-3.3-70b-versatile") iso_clock;
     status := 200 |}.

(** [vector_index = None; vector_texts.clear(); vector_metadatas.clear()]
    in [reprocess_pdf] *)
Definition clear_existing_database (w : World) : World :=
  {| store := set_vector_metadatas [] (set_vector_texts [] (store w));
     disk := disk w;
     app_vector_index := Some None |}.

Definition reprocess_body : M World Response :=
  modify clear_existing_database ;;;
  success <- process_medical_pdf ;;
  w <- get ;;
  if success
  then ret {| body := ReprocessedBody (lit "PDF reprocessed successfully!")
                        (total_chunks (get_database_stats (store w)));
              status := 200 |}
  else ret {| body := ErrorBody (lit "Failed to reprocess PDF"); status := 500 |}.

Definition reprocess_pdf : World -> Response * World :=
  fun w =>
    match reprocess_body w with
    | (Ok r, w') => (r, w')
    | (Raise, w') =>
        ({| body := ErrorBody (lit "Failed to reprocess PDF: " ++ str_e);
            status := 500 |}, w')
    end.

End WithCollaborators.

End App.

(** ** Vocabulary of the further properties *)

Module Coverage.
Import PyStr PdfProcessor PdfExtraction Py VectorDatabase RetrievalQA Props Examples.

(** the batches [texts[i:i + batch_size]] of [generate_embeddings] *)
Definition batches (texts : list str) : list (list str) :=
  map (fun i => firstn batch_size (skipn i texts))
      (range_step (length texts) batch_size).

(** The states of the store that the functions a client calls to fill and
    to query it can reach from the state at import. *)
Inductive reachable (L : Library) : Globals -> Prop :=
| reach_import : reachable L initial
| reach_initialize g o g' :
    reachable L g -> initialize_embeddings L g = (o, g') -> reachable L g'
| reach_add g chunks o g' :
    reachable L g -> add_to_vector_database L chunks g = (o, g') ->
    reachable L g'
| reach_search g query k o g' :
    reachable L g -> similarity_search L query k g = (o, g') ->
    reachable L g'.

(** the index reports the padding position [-1] or a position below its
    number of vectors *)
Definition hit_in_range (n : nat) (h : Q * Z) : Prop :=
  snd h = (-1)%Z \/ (0 <= snd h < Z.of_nat n)%Z.

(** [encode] turns every text into a vector of the model's dimension *)
Definition encode_dimension (L : Library) (m : SentenceTransformer) : Prop :=
  forall batch, exists out,
    encode L batch = Some out
    /\ length out = length batch
    /\ Forall (fun v => length v = get_sentence_embedding_dimension m) out.

Definition not_asterisk (c : ascii) : Prop := c <> "*"%char.

(** an answer the critic accepts *)
Definition long_answer : str :=
  lit "Fever is a temporary rise of the body temperature, often caused by an infection; rest and fluids help.".

(** a completion service whose third answer is the first one the critic
    accepts *)
Definition recovering_client : Groq :=
  fun n _ => if n <? 2 then Some (lit "I don't know.") else Some long_answer.

(** the request carries a message that [chat] hands on to
    [generate_medical_response]: not empty once trimmed, of at most 500
    characters, and with a medical indicator *)
Definition admitted (payload : App.Payload) : bool :=
  match payload with
  | App.Message m =>
      negb (length (strip m) =? 0) && (length (strip m) <=? 500)
      && validate_medical_query (strip m)
  | _ => false
  end.

(** a PDF of one page, and a splitter that leaves the text in one chunk *)
Definition one_page : str :=
  lit "Fever is a rise of the body temperature above the normal range of the body.".

Definition toy_environment : App.Environment :=
  {| App.pdf_exists := true;
     App.pdf_reader := Some {| pages := [Some one_page] |};
     App.split_text := fun t => [t] |}.

(** the process after two passages were added, on a disk without files *)
Definition toy_world : App.World :=
  {| App.store := snd (add_to_vector_database toy_library two_passages initial);
     App.disk := empty_disk;
     App.app_vector_index := None |}.

End Coverage.

(** * Properties *)

(** ** Characters *)

Module CharFacts.
Import PyStr PdfProcessor.

Lemma newline_is_space (c : ascii) : isnewline c = true -> isspace c = true.
Proof.
  unfold isnewline, code_is, isspace, between.
  intros H. apply N.eqb_eq in H. rewrite H. reflexivity.
Qed.

Lemma space_not_newline : isnewline " "%char = false.
Proof. reflexivity. Qed.

Lemma Forall_dropwhile (P : ascii -> Prop) p (s : str) :
  Forall P s -> Forall P (dropwhile p s).
Proof.
  induction 1 as [|c t Hc Ht IH]; simpl; [constructor|].
  destruct (p c); auto.
Qed.

Lemma Forall_takewhile (P : ascii -> Prop) p (s : str) :
  Forall P s -> Forall P (takewhile p s).
Proof.
  induction 1 as [|c t Hc Ht IH]; simpl; [constructor|].
  destruct (p c); auto.
Qed.

Lemma Forall_strip (P : ascii -> Prop) (s : str) :
  Forall P s -> Forall P (strip s).
Proof.
  intros H. unfold strip, rstrip, lstrip.
  apply Forall_rev, Forall_dropwhile, Forall_rev, Forall_dropwhile, H.
Qed.

Lemma Forall_firstn (P : ascii -> Prop) n (s : str) :
  Forall P s -> Forall P (firstn n s).
Proof.
  intros H. revert n. induction H; intros [|n]; simpl; auto.
Qed.

Lemma Forall_last_char (P : ascii -> Prop) (m : str) :
  Forall P m -> Forall P (last_char m).
Proof.
  intros H. unfold last_char.
  apply Forall_rev in H. destruct (rev m); [constructor|].
  inversion H; subst. auto.
Qed.

Lemma Forall_first_char (P : ascii -> Prop) (m : str) :
  Forall P m -> Forall P (first_char m).
Proof. apply Forall_firstn. Qed.

End CharFacts.

(** ** The scanning substitution *)

Module SubFacts.
Import PyStr PdfProcessor CharFacts.

Section Preservation.
Variable match_at : option ascii -> str -> option nat.
Variable repl : str -> str.
Variable P : ascii -> Prop.

(** A property of every character survives a substitution whose
    replacements have it whenever the subject has it. *)
Hypothesis repl_ok :
  forall prev s n, Forall P s -> match_at prev s = Some (S n) ->
                   Forall P (repl (firstn (S n) s)).

Lemma sub_from_Forall (s : str) :
  Forall P s -> forall skip prev, Forall P (sub_from match_at repl skip prev s).
Proof.
  induction 1 as [|c t Hc Ht IH]; intros skip prev; simpl; [constructor|].
  destruct skip as [|k]; [|apply IH].
  destruct (match_at prev (c :: t)) as [[|n]|] eqn:E.
  - constructor; auto.
  - apply Forall_app. split; [|apply IH].
    change (c :: firstn n t) with (firstn (S n) (c :: t)).
    apply repl_ok with (prev := prev); auto.
  - constructor; auto.
Qed.

Lemma sub_Forall (s : str) : Forall P s -> Forall P (sub match_at repl s).
Proof. intros H. apply sub_from_Forall, H. Qed.
End Preservation.

(** Where the pattern matches nowhere, the subject is returned as it is. *)
Lemma sub_from_no_match match_at repl (s : str) :
  (forall prev r, match_at prev r = None) ->
  forall prev, sub_from match_at repl 0 prev s = s.
Proof.
  intros H. induction s as [|c t IH]; intros prev; simpl; [reflexivity|].
  rewrite H. f_equal. apply IH.
Qed.

End SubFacts.

(** ** The normalizer *)

Module NormalizerFacts.
Import PyStr PdfProcessor Props CharFacts SubFacts.

(** After [re.sub(r'\s+', ' ', text)] the only blank left is the space. *)
Lemma collapse_spaces_blank (s : str) :
  forall skip prev,
    Forall (fun c => isspace c = true -> c = " "%char)
           (sub_from spaces_at (fun _ => lit " ") skip prev s).
Proof.
  induction s as [|c t IH]; intros skip prev; simpl; [constructor|].
  destruct skip as [|k]; [|apply IH].
  destruct (spaces_at prev (c :: t)) as [[|n]|] eqn:E.
  - unfold spaces_at in E. simpl in E.
    destruct (isspace c) eqn:Hc; simpl in E; [discriminate|].
    constructor; [congruence|apply IH].
  - simpl. constructor; [reflexivity|apply IH].
  - unfold spaces_at in E. simpl in E.
    destruct (isspace c) eqn:Hc; simpl in E; [discriminate|].
    constructor; [congruence|apply IH].
Qed.

Lemma collapse_spaces_no_newline (s : str) :
  Forall no_newline (collapse_spaces s).
Proof.
  unfold collapse_spaces, sub.
  eapply Forall_impl; [|apply collapse_spaces_blank].
  intros c H. unfold no_newline.
  destruct (isnewline c) eqn:E; [|reflexivity].
  rewrite (H (newline_is_space c E)) in E. discriminate.
Qed.

Lemma paragraph_breaks_no_newline (s : str) :
  Forall no_newline s -> Forall no_newline (paragraph_breaks s).
Proof.
  apply sub_Forall. intros prev r n Hr E.
  unfold paragraph_at in E. destruct r as [|c r']; [discriminate|].
  inversion Hr; subst. unfold no_newline in *.
  match goal with H : isnewline c = false |- _ => rewrite H in E end.
  discriminate.
Qed.

Lemma remove_special_no_newline (s : str) :
  Forall no_newline s -> Forall no_newline (remove_special s).
Proof.
  apply sub_Forall. intros. repeat constructor.
Qed.

Lemma fix_punctuation_no_newline (s : str) :
  Forall no_newline s -> Forall no_newline (fix_punctuation s).
Proof.
  intros H. unfold fix_punctuation.
  apply sub_Forall.
  - intros prev r n Hr _.
    apply Forall_app. split; [apply Forall_first_char, Forall_firstn, Hr|].
    apply Forall_app. split; [repeat constructor|].
    apply Forall_last_char, Forall_firstn, Hr.
  - apply sub_Forall; [|exact H].
    intros prev r n Hr _. apply Forall_last_char, Forall_firstn, Hr.
Qed.

Lemma preprocess_no_newline (t : str) :
  Forall no_newline (preprocess_medical_text t).
Proof.
  unfold preprocess_medical_text.
  apply Forall_strip, fix_punctuation_no_newline, remove_special_no_newline,
    paragraph_breaks_no_newline, collapse_spaces_no_newline.
Qed.

Lemma contains_cons_Forall (P : ascii -> Prop) (c : ascii) (p s : str) :
  Forall P s -> contains (c :: p) s = true -> P c.
Proof.
  induction 1 as [|x t Hx Ht IH]; simpl; intros H.
  - discriminate.
  - apply orb_true_iff in H. destruct H as [H|H]; [|auto].
    apply andb_true_iff in H. destruct H as [H _].
    unfold eqc in H. apply Ascii.eqb_eq in H. subst. exact Hx.
Qed.

End NormalizerFacts.

(** C4 (code defect).  No paragraph break survives [preprocess_medical_text]:
    [re.sub(r'\s+', ' ', text)] runs first and turns every line break into a
    space, so the later [re.sub(r'\n\s*\n', '\n\n', text)] finds nothing.
    The text "a", blank line, "b" comes out as "a b", and no output ever
    contains a double newline. *)
Theorem preprocess_loses_paragraph_breaks :
  PdfProcessor.preprocess_medical_text
    (PyStr.lit "a" ++ PdfProcessor.nl ++ PdfProcessor.nl ++ PyStr.lit "b")
  = PyStr.lit "a b"
  /\ forall t : PyStr.str,
       PyStr.contains (PdfProcessor.nl ++ PdfProcessor.nl)
                      (PdfProcessor.preprocess_medical_text t) = false.
Proof.
  split; [vm_compute; reflexivity|].
  intros t.
  destruct (PyStr.contains _ _) eqn:E; [|reflexivity].
  eapply NormalizerFacts.contains_cons_Forall in E;
    [|apply NormalizerFacts.preprocess_no_newline].
  discriminate E.
Qed.

(** C7 (counterexample).  On "a@@b" the normalizer returns "a  b" with two
    spaces (each "@" is replaced by a space after the blanks were collapsed);
    normalizing that again gives "a b". *)
Lemma preprocess_not_idempotent :
  PdfProcessor.preprocess_medical_text
    (PdfProcessor.preprocess_medical_text (PyStr.lit "a@@b"))
  <> PdfProcessor.preprocess_medical_text (PyStr.lit "a@@b").
Proof. vm_compute. discriminate. Qed.

(** ** The normal form of the normalizer

    The result of [preprocess_medical_text] is described by what no two
    neighbouring characters are, by its words, and by what the steps do to
    a text that already has the form. *)

(** The scan of [sub_from], step by step. *)

Module ScanFacts.
Import PyStr PdfProcessor NormalForm.

Lemma prev_after_app prev (a b : str) :
  prev_after prev (a ++ b) = prev_after (prev_after prev a) b.
Proof. unfold prev_after. apply fold_left_app. Qed.

Lemma str_length_ind (P : str -> Prop) :
  (forall s, (forall t, length t < length s -> P t) -> P s) -> forall s, P s.
Proof.
  intros H s. remember (length s) as n eqn:Hn. revert s Hn.
  induction n as [n IH] using lt_wf_ind. intros s ->.
  apply H. intros t Ht. eapply IH; eauto.
Qed.

Section Scan.
Variable match_at : option ascii -> str -> option nat.
Variable repl : str -> str.

(** skipping [k] characters is resuming behind them *)
Lemma sub_from_skip (s : str) : forall k prev,
  sub_from match_at repl k prev s
  = sub_from match_at repl 0 (prev_after prev (firstn k s)) (skipn k s).
Proof.
  induction s as [|c t IH]; intros k prev.
  - destruct k; reflexivity.
  - destruct k as [|k]; [reflexivity|].
    simpl sub_from at 1. rewrite IH. reflexivity.
Qed.

(** one step of the scan *)
Lemma sub_step prev c (t : str) :
  sub_from match_at repl 0 prev (c :: t)
  = match match_at prev (c :: t) with
    | Some (S n) =>
        repl (firstn (S n) (c :: t))
        ++ sub_from match_at repl 0 (prev_after (Some c) (firstn n t)) (skipn n t)
    | _ => c :: sub_from match_at repl 0 (Some c) t
    end.
Proof.
  simpl. destruct (match_at prev (c :: t)) as [[|n]|]; try reflexivity.
  rewrite sub_from_skip. reflexivity.
Qed.

(** the step at a match, with the subject split behind the match *)
Lemma sub_match prev (m rest : str) :
  m <> [] ->
  match_at prev (m ++ rest) = Some (length m) ->
  sub_from match_at repl 0 prev (m ++ rest)
  = repl m ++ sub_from match_at repl 0 (prev_after prev m) rest.
Proof.
  intros Hm E. destruct m as [|c m']; [contradiction|].
  change ((c :: m') ++ rest) with (c :: (m' ++ rest)) in *.
  simpl length in E. rewrite sub_step, E.
  rewrite firstn_cons.
  rewrite !firstn_app, Nat.sub_diag, firstn_all, firstn_O, app_nil_r.
  rewrite skipn_app, Nat.sub_diag, skipn_all. reflexivity.
Qed.

Lemma stable_skip (s : str) : forall k prev,
  stable match_at repl prev s ->
  stable match_at repl (prev_after prev (firstn k s)) (skipn k s).
Proof.
  induction s as [|c t IH]; intros k prev H.
  - destruct k; exact I.
  - destruct k as [|k]; [exact H|].
    destruct H as [_ H]. apply (IH k) in H. exact H.
Qed.

(** a subject on which every replacement is the matched text is returned
    as it is *)
Lemma stable_sub_from (s : str) : forall prev,
  stable match_at repl prev s -> sub_from match_at repl 0 prev s = s.
Proof.
  induction s as [s IH] using str_length_ind. intros prev H.
  destruct s as [|c t]; [reflexivity|].
  rewrite sub_step. destruct H as [Hm Ht].
  destruct (match_at prev (c :: t)) as [[|n]|] eqn:E.
  - f_equal. apply IH; [simpl; lia|exact Ht].
  - rewrite Hm. rewrite IH.
    + change (firstn (S n) (c :: t)) with (c :: firstn n t). simpl.
      f_equal. apply firstn_skipn.
    + simpl. pose proof (length_skipn n t). lia.
    + apply stable_skip, Ht.
  - f_equal. apply IH; [simpl; lia|exact Ht].
Qed.

Lemma nomatch_stable (s : str) : forall prev,
  nomatch match_at prev s = true -> stable match_at repl prev s.
Proof.
  induction s as [|c t IH]; intros prev H; [exact I|].
  simpl in H. apply andb_true_iff in H. destruct H as [H1 H2].
  split; [|apply IH, H2].
  destruct (match_at prev (c :: t)); [discriminate|exact I].
Qed.

Lemma nomatch_sub (s : str) prev :
  nomatch match_at prev s = true -> sub_from match_at repl 0 prev s = s.
Proof. intros H. apply stable_sub_from, nomatch_stable, H. Qed.

End Scan.

End ScanFacts.

(** Classes of characters, and neighbours in a text. *)

Module ClassFacts.
Import PyStr PdfProcessor NormalForm.

(** A property of characters that holds on the 256 of them holds always. *)
Lemma all_chars (P : ascii -> bool) :
  forallb P (map ascii_of_nat (seq 0 256)) = true -> forall c, P c = true.
Proof.
  intros H c. rewrite forallb_forall in H. apply H.
  rewrite <- (ascii_nat_embedding c). apply in_map, in_seq.
  pose proof (nat_ascii_bounded c). lia.
Qed.

Ltac by_cases c :=
  revert c;
  match goal with
  | |- forall c, @?P c = true => apply (all_chars P); vm_compute; reflexivity
  end.

Lemma blank_not_punct c : implb (isspace c) (negb (ispunct c)) = true.
Proof. by_cases c. Qed.

Lemma blank_not_capital c : implb (isspace c) (negb (isupper c)) = true.
Proof. by_cases c. Qed.

Lemma stop_is_punct c : implb (isstop c) (ispunct c) = true.
Proof. by_cases c. Qed.

Lemma punct_not_word c : implb (ispunct c) (negb (isword c)) = true.
Proof. by_cases c. Qed.

Lemma capital_is_word c : implb (isupper c) (isword c) = true.
Proof. by_cases c. Qed.

Lemma implb_use (a b : bool) : implb a b = true -> a = true -> b = true.
Proof. destruct a, b; simpl; congruence. Qed.

Lemma implb_neg (a b : bool) : implb a (negb b) = true -> a = true -> b = false.
Proof. destruct a, b; simpl; congruence. Qed.

End ClassFacts.

Module ChainFacts.
Import PyStr PdfProcessor NormalForm ScanFacts ClassFacts.

Section Chain.
Variable R : ascii -> ascii -> bool.

Lemma chain_app prev (a b : str) :
  chain R prev (a ++ b) <-> chain R prev a /\ chain R (prev_after prev a) b.
Proof.
  revert prev. induction a as [|c a IH]; intros prev; simpl.
  - tauto.
  - rewrite IH. unfold prev_after. simpl. tauto.
Qed.

Lemma chain_forget prev (s : str) : chain R prev s -> chain R None s.
Proof. destruct s; simpl; tauto. Qed.

Lemma chain_tail prev c (s : str) : chain R prev (c :: s) -> chain R (Some c) s.
Proof. simpl. tauto. Qed.

Lemma chain_dropwhile p prev (s : str) :
  chain R prev s -> chain R None (dropwhile p s).
Proof.
  revert prev. induction s as [|c t IH]; intros prev H; simpl; [exact I|].
  destruct (p c); [eapply IH, chain_tail, H|].
  eapply chain_forget, H.
Qed.

Lemma rstrip_prefix (s : str) : exists b, s = rstrip s ++ b.
Proof.
  unfold rstrip. exists (rev (takewhile isspace (rev s))).
  rewrite <- rev_app_distr.
  assert (E : forall l : str, takewhile isspace l ++ dropwhile isspace l = l).
  { induction l as [|c l IHl]; simpl; [reflexivity|].
    destruct (isspace c); simpl; congruence. }
  rewrite E, rev_involutive. reflexivity.
Qed.

Lemma chain_strip (s : str) : chain R None s -> chain R None (strip s).
Proof.
  intros H. unfold strip.
  apply (chain_dropwhile isspace) in H. fold (lstrip s) in H.
  destruct (rstrip_prefix (lstrip s)) as [b E]. rewrite E in H.
  apply chain_app in H. tauto.
Qed.

End Chain.

(** *** [re.sub(r'\s+', ' ', text)] *)

Lemma spaces_at_blank prev c (t : str) n :
  spaces_at prev (c :: t) = Some n ->
  isspace c = true /\ n = S (length (takewhile isspace t)).
Proof.
  unfold spaces_at. simpl. destruct (isspace c); simpl; [|discriminate].
  intros H; inversion H; auto.
Qed.

Lemma spaces_at_none prev c (t : str) :
  spaces_at prev (c :: t) = None -> isspace c = false.
Proof.
  unfold spaces_at. simpl. destruct (isspace c); simpl; [discriminate|reflexivity].
Qed.

Lemma skipn_takewhile p (t : str) :
  skipn (length (takewhile p t)) t = dropwhile p t.
Proof.
  induction t as [|c t IH]; simpl; [reflexivity|].
  destruct (p c); simpl; [exact IH|reflexivity].
Qed.

Lemma firstn_takewhile p (t : str) :
  firstn (length (takewhile p t)) t = takewhile p t.
Proof.
  induction t as [|c t IH]; simpl; [reflexivity|].
  destruct (p c); simpl; [f_equal; exact IH|reflexivity].
Qed.

Lemma dropwhile_head p (t : str) :
  match dropwhile p t with
  | c :: _ => p c = false
  | [] => True
  end.
Proof.
  induction t as [|c t IH]; simpl; [exact I|].
  destruct (p c) eqn:E; [exact IH|exact E].
Qed.

(** After the collapse no two blanks are adjacent. *)
Lemma collapse_chain (s : str) : forall prev out,
  (blankb out = true -> head_blank s = false) ->
  chain blank_blank out (sub_from spaces_at (fun _ => lit " ") 0 prev s).
Proof.
  induction s as [s IH] using str_length_ind. intros prev out Hout.
  destruct s as [|c t]; [exact I|].
  rewrite sub_step.
  destruct (spaces_at prev (c :: t)) as [[|n]|] eqn:E.
  - apply spaces_at_blank in E. destruct E as [_ E]. discriminate E.
  - apply spaces_at_blank in E. destruct E as [Hc E]. injection E as ->.
    simpl app. split.
    + destruct out as [p|]; [|exact I]. unfold blank_blank.
      destruct (isspace p) eqn:Hp; [|reflexivity].
      specialize (Hout Hp). simpl in Hout. congruence.
    + rewrite skipn_takewhile. apply IH.
      * simpl. pose proof (length_skipn (length (takewhile isspace t)) t) as L.
        rewrite skipn_takewhile in L. lia.
      * intros _. pose proof (dropwhile_head isspace t) as D.
        destruct (dropwhile isspace t); [reflexivity|exact D].
  - apply spaces_at_none in E. split.
    + destruct out as [p|]; [|exact I]. unfold blank_blank. rewrite E.
      apply andb_false_r.
    + apply IH; [simpl; lia|]. simpl. rewrite E. discriminate.
Qed.

End ChainFacts.

(** The two substitutions of [fix_punctuation]. *)

Module PunctFacts.
Import PyStr PdfProcessor NormalForm ScanFacts ClassFacts ChainFacts.

Lemma length_dropwhile p (t : str) : length (dropwhile p t) <= length t.
Proof.
  induction t as [|c t IH]; simpl; [lia|]. destruct (p c); simpl; lia.
Qed.

Lemma takewhile_dropwhile p (t : str) : takewhile p t ++ dropwhile p t = t.
Proof.
  induction t as [|c t IH]; simpl; [reflexivity|].
  destruct (p c); simpl; congruence.
Qed.

Lemma Forall_takewhile_true p (t : str) :
  Forall (fun c => p c = true) (takewhile p t).
Proof.
  induction t as [|c t IH]; simpl; [constructor|].
  destruct (p c) eqn:E; [constructor; assumption|constructor].
Qed.

Lemma last_char_snoc (a : str) c : last_char (a ++ [c]) = [c].
Proof. unfold last_char. rewrite rev_app_distr. reflexivity. Qed.

Lemma prev_after_snoc prev (a : str) c : prev_after prev (a ++ [c]) = Some c.
Proof. rewrite prev_after_app. reflexivity. Qed.

(** *** Blanks before punctuation *)

Lemma space_punct_at_spec prev c (t : str) :
  space_punct_at prev (c :: t)
  = if isspace c && leads_punct t
    then Some (length (takewhile isspace t) + 2) else None.
Proof.
  unfold space_punct_at, leads_punct. simpl.
  destruct (isspace c); simpl; [|reflexivity].
  rewrite skipn_takewhile.
  destruct (dropwhile isspace t) as [|p rest]; [reflexivity|].
  destruct (one_of ",.!?;:" p) eqn:E; unfold ispunct; rewrite E;
    [f_equal; lia|reflexivity].
Qed.

Lemma unspace_match prev c (t : str) p rest :
  isspace c = true -> dropwhile isspace t = p :: rest -> ispunct p = true ->
  unspace_from prev (c :: t) = p :: unspace_from (Some p) rest.
Proof.
  intros Hc Hd Hp. unfold unspace_from.
  pose proof (space_punct_at_spec prev c t) as E.
  unfold leads_punct in E. rewrite Hc, Hd, Hp in E. simpl andb in E. cbv iota in E.
  assert (Et : c :: t = (c :: takewhile isspace t ++ [p]) ++ rest).
  { simpl. rewrite <- app_assoc. simpl. rewrite <- Hd.
    rewrite takewhile_dropwhile. reflexivity. }
  rewrite Et in E |- *.
  rewrite sub_match.
  - rewrite app_comm_cons, last_char_snoc, prev_after_snoc. reflexivity.
  - discriminate.
  - rewrite E. f_equal. simpl. rewrite length_app. simpl. lia.
Qed.

Lemma unspace_copy prev c (t : str) :
  isspace c && leads_punct t = false ->
  unspace_from prev (c :: t) = c :: unspace_from (Some c) t.
Proof.
  intros H. unfold unspace_from. rewrite sub_step, space_punct_at_spec, H.
  reflexivity.
Qed.

Lemma leads_punct_cons c (t : str) :
  leads_punct (c :: t) = if isspace c then leads_punct t else ispunct c.
Proof. unfold leads_punct. simpl. destruct (isspace c); reflexivity. Qed.

(** the induction on the scan of [unspace_from] *)
Lemma unspace_ind (P : option ascii -> str -> str -> Prop) :
  (forall prev, P prev [] []) ->
  (forall prev c t p rest,
      isspace c = true -> dropwhile isspace t = p :: rest -> ispunct p = true ->
      P (Some p) rest (unspace_from (Some p) rest) ->
      P prev (c :: t) (p :: unspace_from (Some p) rest)) ->
  (forall prev c t,
      isspace c && leads_punct t = false ->
      P (Some c) t (unspace_from (Some c) t) ->
      P prev (c :: t) (c :: unspace_from (Some c) t)) ->
  forall s prev, P prev s (unspace_from prev s).
Proof.
  intros H0 Hm Hc s. induction s as [s IH] using str_length_ind. intros prev.
  destruct s as [|c t]; [apply H0|].
  destruct (isspace c && leads_punct t) eqn:E.
  - apply andb_true_iff in E. destruct E as [E1 E2].
    unfold leads_punct in E2.
    destruct (dropwhile isspace t) as [|p rest] eqn:Hd; [discriminate|].
    rewrite (@unspace_match prev c t p rest E1 Hd E2).
    apply Hm; auto. apply IH. simpl.
    pose proof (length_dropwhile isspace t) as L. rewrite Hd in L. simpl in L. lia.
  - rewrite (@unspace_copy prev c t E). apply Hc; auto.
Qed.

(** *** Sentence ends before capitals *)

Lemma punct_capital_at_spec prev p (r : str) :
  punct_capital_at prev (p :: r)
  = if isstop p && leads_capital r
    then Some (length (takewhile isspace r) + 2) else None.
Proof.
  unfold punct_capital_at, leads_capital, isstop.
  destruct (one_of ".!?" p); simpl; [|reflexivity].
  rewrite skipn_takewhile.
  destruct (dropwhile isspace r) as [|u rest]; [reflexivity|].
  destruct (isupper u); reflexivity.
Qed.

Lemma respace_match prev p (r : str) u rest :
  isstop p = true -> dropwhile isspace r = u :: rest -> isupper u = true ->
  respace_from prev (p :: r) = p :: " "%char :: u :: respace_from (Some u) rest.
Proof.
  intros Hp Hd Hu. unfold respace_from.
  pose proof (punct_capital_at_spec prev p r) as E.
  unfold leads_capital in E. rewrite Hp, Hd, Hu in E. simpl andb in E. cbv iota in E.
  assert (Er : p :: r = (p :: takewhile isspace r ++ [u]) ++ rest).
  { simpl. rewrite <- app_assoc. simpl. rewrite <- Hd.
    rewrite takewhile_dropwhile. reflexivity. }
  rewrite Er in E |- *.
  rewrite sub_match.
  - rewrite app_comm_cons, last_char_snoc, prev_after_snoc. reflexivity.
  - discriminate.
  - rewrite E. f_equal. simpl. rewrite length_app. simpl. lia.
Qed.

Lemma respace_copy prev c (t : str) :
  isstop c && leads_capital t = false ->
  respace_from prev (c :: t) = c :: respace_from (Some c) t.
Proof.
  intros H. unfold respace_from. rewrite sub_step, punct_capital_at_spec, H.
  reflexivity.
Qed.

(** the induction on the scan of [respace_from] *)
Lemma respace_ind (P : option ascii -> str -> str -> Prop) :
  (forall prev, P prev [] []) ->
  (forall prev p r u rest,
      isstop p = true -> dropwhile isspace r = u :: rest -> isupper u = true ->
      P (Some u) rest (respace_from (Some u) rest) ->
      P prev (p :: r) (p :: " "%char :: u :: respace_from (Some u) rest)) ->
  (forall prev c t,
      isstop c && leads_capital t = false ->
      P (Some c) t (respace_from (Some c) t) ->
      P prev (c :: t) (c :: respace_from (Some c) t)) ->
  forall s prev, P prev s (respace_from prev s).
Proof.
  intros H0 Hm Hc s. induction s as [s IH] using str_length_ind. intros prev.
  destruct s as [|c t]; [apply H0|].
  destruct (isstop c && leads_capital t) eqn:E.
  - apply andb_true_iff in E. destruct E as [E1 E2].
    unfold leads_capital in E2.
    destruct (dropwhile isspace t) as [|u rest] eqn:Hd; [discriminate|].
    rewrite (@respace_match prev c t u rest E1 Hd E2).
    apply Hm; auto. apply IH. simpl.
    pose proof (length_dropwhile isspace t) as L. rewrite Hd in L. simpl in L. lia.
  - rewrite (@respace_copy prev c t E). apply Hc; auto.
Qed.

(** *** Neighbours after the two substitutions *)

Lemma blank_run_split (t : str) p rest :
  dropwhile isspace t = p :: rest ->
  t = takewhile isspace t ++ p :: rest.
Proof. intros H. rewrite <- H. symmetry. apply takewhile_dropwhile. Qed.

Lemma chain_behind R prev (a : str) p rest :
  chain R prev (a ++ p :: rest) -> chain R (Some p) rest.
Proof. intros H. apply chain_app in H. destruct H as [_ H]. apply H. Qed.

(** no blank is left before a punctuation mark *)
Lemma unspace_blank_punct (s : str) : forall prev,
  (blankb prev = true -> leads_punct s = false) ->
  chain blank_punct prev (unspace_from prev s).
Proof.
  apply (unspace_ind
           (fun prev s o => (blankb prev = true -> leads_punct s = false) ->
                            chain blank_punct prev o)).
  - intros; exact I.
  - intros prev c t p rest Hc Hd Hp IH Hpre.
    rewrite leads_punct_cons, Hc in Hpre. unfold leads_punct in Hpre.
    rewrite Hd, Hp in Hpre.
    split.
    + destruct prev as [q|]; [|exact I]. unfold blank_punct.
      destruct (isspace q) eqn:Hq; [|reflexivity].
      specialize (Hpre Hq). discriminate.
    + apply IH. simpl. intros Hb.
      rewrite (@implb_neg _ _ (blank_not_punct p) Hb) in Hp. discriminate.
  - intros prev c t E IH Hpre. split.
    + destruct prev as [q|]; [|exact I]. unfold blank_punct.
      destruct (isspace q) eqn:Hq; [|reflexivity].
      specialize (Hpre Hq). rewrite leads_punct_cons in Hpre.
      destruct (isspace c) eqn:Hc; [|exact Hpre].
      apply (@implb_neg _ _ (blank_not_punct c) Hc).
    + apply IH. simpl. intros Hb. rewrite Hb in E. exact E.
Qed.

Lemma unspace_blank_blank (s : str) : forall prev,
  chain blank_blank prev s -> chain blank_blank prev (unspace_from prev s).
Proof.
  apply (unspace_ind
           (fun prev s o => chain blank_blank prev s -> chain blank_blank prev o)).
  - intros; exact I.
  - intros prev c t p rest Hc Hd Hp IH H.
    assert (Hnb : isspace p = false).
    { destruct (isspace p) eqn:Hb; [|reflexivity].
      rewrite (@implb_neg _ _ (blank_not_punct p) Hb) in Hp. discriminate. }
    split.
    + destruct prev as [q|]; [|exact I]. unfold blank_blank. rewrite Hnb.
      apply andb_false_r.
    + apply IH. rewrite (blank_run_split t Hd) in H.
      apply chain_tail in H. eapply chain_behind, H.
  - intros prev c t E IH H. destruct H as [H1 H2]. split; [exact H1|].
    apply IH, H2.
Qed.

Lemma stop_not_blank p : isstop p = true -> isspace p = false.
Proof.
  intros H. pose proof (@implb_use _ _ (stop_is_punct p) H) as Hp.
  destruct (isspace p) eqn:Hb; [|reflexivity].
  rewrite (@implb_neg _ _ (blank_not_punct p) Hb) in Hp. discriminate.
Qed.

Lemma capital_not_blank u : isupper u = true -> isspace u = false.
Proof.
  intros H. destruct (isspace u) eqn:Hb; [|reflexivity].
  rewrite (@implb_neg _ _ (blank_not_capital u) Hb) in H. discriminate.
Qed.

Lemma capital_not_punct u : isupper u = true -> ispunct u = false.
Proof.
  intros H. pose proof (@implb_use _ _ (capital_is_word u) H) as Hw.
  destruct (ispunct u) eqn:Hp; [|reflexivity].
  rewrite (@implb_neg _ _ (punct_not_word u) Hp) in Hw. discriminate.
Qed.

Lemma capital_not_stop u : isupper u = true -> isstop u = false.
Proof.
  intros H. destruct (isstop u) eqn:Hs; [|reflexivity].
  pose proof (@implb_use _ _ (stop_is_punct u) Hs) as Hp.
  rewrite (capital_not_punct u H) in Hp. discriminate.
Qed.

Section Respace.
Variable R : ascii -> ascii -> bool.
Hypothesis stop_first : forall p q, isstop p = true -> R p q = true -> False.
Hypothesis capital_second : forall q u, isupper u = true -> R q u = true -> False.

(** a relation that never holds from a sentence end, nor to a capital,
    stays excluded *)
Lemma respace_chain (s : str) : forall prev,
  chain R prev s -> chain R prev (respace_from prev s).
Proof.
  apply (respace_ind (fun prev s o => chain R prev s -> chain R prev o)).
  - intros; exact I.
  - intros prev p r u rest Hp Hd Hu IH H.
    destruct H as [H1 H2]. split; [exact H1|]. split; [|split].
    + destruct (R p " ") eqn:E; [|reflexivity].
      exfalso. eapply stop_first; eauto.
    + destruct (R " " u) eqn:E; [|reflexivity].
      exfalso. eapply capital_second; eauto.
    + apply IH. rewrite (blank_run_split r Hd) in H2. eapply chain_behind, H2.
  - intros prev c t E IH H. destruct H as [H1 H2]. split; [exact H1|].
    apply IH, H2.
Qed.
End Respace.

Lemma respace_blank_blank (s : str) prev :
  chain blank_blank prev s -> chain blank_blank prev (respace_from prev s).
Proof.
  apply respace_chain; unfold blank_blank; intros a b H E;
    apply andb_true_iff in E; destruct E as [E1 E2].
  - rewrite (stop_not_blank a H) in E1. discriminate.
  - rewrite (capital_not_blank b H) in E2. discriminate.
Qed.

Lemma respace_blank_punct (s : str) prev :
  chain blank_punct prev s -> chain blank_punct prev (respace_from prev s).
Proof.
  apply respace_chain; unfold blank_punct; intros a b H E;
    apply andb_true_iff in E; destruct E as [E1 E2].
  - rewrite (stop_not_blank a H) in E1. discriminate.
  - rewrite (capital_not_punct b H) in E2. discriminate.
Qed.

Lemma head_capital_leads (t : str) :
  head_capital t = true -> leads_capital t = true.
Proof.
  destruct t as [|h t]; simpl; [discriminate|]. intros H.
  unfold leads_capital. simpl. rewrite (capital_not_blank h H). exact H.
Qed.

(** no sentence end is left directly before a capital *)
Lemma respace_stop_capital (s : str) : forall prev,
  (stopb prev = true -> head_capital s = false) ->
  chain stop_capital prev (respace_from prev s).
Proof.
  apply (respace_ind
           (fun prev s o => (stopb prev = true -> head_capital s = false) ->
                            chain stop_capital prev o)).
  - intros; exact I.
  - intros prev p r u rest Hp Hd Hu IH Hpre. split; [|split; [|split]].
    + destruct prev as [q|]; [|exact I]. unfold stop_capital.
      destruct (isupper p) eqn:E; [|apply andb_false_r].
      rewrite (capital_not_stop p E) in Hp. discriminate.
    + unfold stop_capital. apply andb_false_r.
    + reflexivity.
    + apply IH. simpl. rewrite (capital_not_stop u Hu). discriminate.
  - intros prev c t E IH Hpre. split.
    + destruct prev as [q|]; [|exact I]. unfold stop_capital.
      destruct (isstop q) eqn:Hq; [|reflexivity].
      apply (Hpre Hq).
    + apply IH. simpl. intros Hs. rewrite Hs in E. simpl in E.
      destruct (head_capital t) eqn:Hh; [|reflexivity].
      rewrite (head_capital_leads t Hh) in E. discriminate.
Qed.

End PunctFacts.

Unset Implicit Arguments.

(** Texts that a step returns as they are. *)

Module FixpointFacts.
Import PyStr PdfProcessor NormalForm ScanFacts ClassFacts ChainFacts PunctFacts.
Import Props CharFacts SubFacts NormalizerFacts.

(** a pattern that needs a character the subject does not have matches
    nowhere *)
Lemma nomatch_Forall (P : ascii -> Prop) match_at :
  (forall prev s, Forall P s -> match_at prev s = None) ->
  forall s prev, Forall P s -> nomatch match_at prev s = true.
Proof.
  intros Hm s. induction s as [|c t IH]; intros prev H; [reflexivity|].
  simpl. rewrite (Hm prev _ H). simpl. apply IH. inversion H; assumption.
Qed.

Lemma blank_is_space_no_newline c : blank_is_space c -> no_newline c.
Proof.
  unfold blank_is_space, no_newline. intros H.
  destruct (isnewline c) eqn:E; [|reflexivity].
  rewrite (H (newline_is_space c E)) in E. discriminate.
Qed.

Lemma index_where_none p (s : str) :
  Forall (fun c => p c = false) s -> index_where p s = None.
Proof.
  induction 1 as [|c t Hc Ht IH]; simpl; [reflexivity|].
  rewrite Hc, IH. reflexivity.
Qed.

Lemma Forall_skipn (P : ascii -> Prop) n (s : str) :
  Forall P s -> Forall P (skipn n s).
Proof.
  intros H. revert n. induction H; intros [|n]; simpl; auto.
Qed.

Lemma header_at_none kw prev (s : str) :
  Forall no_newline s -> header_at kw prev s = None.
Proof.
  intros H. unfold header_at. destruct (startswith kw s); [|reflexivity].
  pose proof (Forall_skipn _ (length kw) _ H) as Hs.
  destruct (skipn (length kw) s) as [|d r]; [reflexivity|].
  destruct (isdigit d); [|reflexivity].
  inversion Hs; subst. rewrite index_where_none; [reflexivity|assumption].
Qed.

Lemma page_number_at_none prev (s : str) :
  Forall no_newline s -> page_number_at prev s = None.
Proof.
  intros H. unfold page_number_at. destruct s as [|c r]; [reflexivity|].
  inversion H; subst. unfold no_newline in *.
  match goal with E : isnewline c = false |- _ => rewrite E end. reflexivity.
Qed.

Lemma paragraph_at_none prev (s : str) :
  Forall no_newline s -> paragraph_at prev s = None.
Proof.
  intros H. unfold paragraph_at. destruct s as [|c r]; [reflexivity|].
  inversion H; subst. unfold no_newline in *.
  match goal with E : isnewline c = false |- _ => rewrite E end. reflexivity.
Qed.

Lemma special_at_none prev (s : str) :
  Forall (fun c => allowed c = true) s -> special_at prev s = None.
Proof.
  intros H. unfold special_at. destruct s as [|c r]; [reflexivity|].
  inversion H; subst.
  match goal with E : allowed c = true |- _ => rewrite E end. reflexivity.
Qed.

(** *** The steps that leave a text without line breaks, or without
    special characters, as it is *)

Lemma remove_headers_fixed (s : str) :
  Forall no_newline s -> remove_headers s = s.
Proof.
  intros H. unfold remove_headers, sub.
  assert (Hh : forall kw, sub_from (header_at kw) (fun _ => []) 0 None s = s).
  { intros kw. apply nomatch_sub.
    apply (nomatch_Forall no_newline); auto.
    intros; apply header_at_none; assumption. }
  rewrite !Hh. apply nomatch_sub.
  apply (nomatch_Forall no_newline); auto.
  intros; apply page_number_at_none; assumption.
Qed.

Lemma paragraph_breaks_fixed (s : str) :
  Forall no_newline s -> paragraph_breaks s = s.
Proof.
  intros H. unfold paragraph_breaks, sub. apply nomatch_sub.
  apply (nomatch_Forall no_newline); auto.
  intros; apply paragraph_at_none; assumption.
Qed.

Lemma remove_special_fixed (s : str) :
  Forall (fun c => allowed c = true) s -> remove_special s = s.
Proof.
  intros H. unfold remove_special, sub. apply nomatch_sub.
  apply (nomatch_Forall (fun c => allowed c = true)); auto.
  intros; apply special_at_none; assumption.
Qed.

(** *** What the steps establish for every character *)

Lemma remove_special_allowed (s : str) : forall skip prev,
  Forall (fun c => allowed c = true)
         (sub_from special_at (fun _ => lit " ") skip prev s).
Proof.
  induction s as [|c t IH]; intros skip prev; simpl; [constructor|].
  destruct skip as [|k]; [|apply IH].
  destruct (allowed c) eqn:E; simpl.
  - constructor; [exact E|apply IH].
  - constructor; [reflexivity|apply IH].
Qed.

Lemma fix_punctuation_Forall (P : ascii -> Prop) (s : str) :
  P " "%char -> Forall P s -> Forall P (fix_punctuation s).
Proof.
  intros Hsp H. unfold fix_punctuation.
  apply sub_Forall.
  - intros prev r n Hr _.
    apply Forall_app. split; [apply Forall_first_char, Forall_firstn, Hr|].
    apply Forall_app. split; [repeat constructor; exact Hsp|].
    apply Forall_last_char, Forall_firstn, Hr.
  - apply sub_Forall; [|exact H].
    intros prev r n Hr _. apply Forall_last_char, Forall_firstn, Hr.
Qed.

Lemma paragraph_breaks_blank (s : str) :
  Forall blank_is_space s -> Forall blank_is_space (paragraph_breaks s).
Proof.
  intros H. rewrite paragraph_breaks_fixed; [exact H|].
  eapply Forall_impl; [|exact H]. apply blank_is_space_no_newline.
Qed.

Lemma remove_special_blank (s : str) :
  Forall blank_is_space s -> Forall blank_is_space (remove_special s).
Proof.
  apply sub_Forall. intros. repeat constructor.
Qed.

Lemma collapse_spaces_blank_is_space (s : str) :
  Forall blank_is_space (collapse_spaces s).
Proof. apply collapse_spaces_blank. Qed.

(** *** Trimming twice *)

Lemma dropwhile_fixed p (s : str) :
  match s with c :: _ => p c = false | [] => True end -> dropwhile p s = s.
Proof. destruct s as [|c t]; simpl; [reflexivity|]. intros ->. reflexivity. Qed.

Lemma dropwhile_snoc p (a : str) h :
  p h = false -> dropwhile p (a ++ [h]) = dropwhile p a ++ [h].
Proof.
  intros H. induction a as [|c a IH]; simpl; [rewrite H; reflexivity|].
  destruct (p c); [exact IH|reflexivity].
Qed.

Lemma rstrip_head (s : str) :
  match s with c :: _ => isspace c = false | [] => True end ->
  match rstrip s with c :: _ => isspace c = false | [] => True end.
Proof.
  destruct s as [|h t]; intros H; [exact I|].
  unfold rstrip. simpl rev. rewrite dropwhile_snoc by exact H.
  rewrite rev_app_distr.
  simpl. exact H.
Qed.

Lemma strip_head (s : str) :
  match strip s with c :: _ => isspace c = false | [] => True end.
Proof. unfold strip. apply rstrip_head, dropwhile_head. Qed.

Lemma strip_last (s : str) :
  match rev (strip s) with c :: _ => isspace c = false | [] => True end.
Proof.
  unfold strip, rstrip. rewrite rev_involutive. apply dropwhile_head.
Qed.

Lemma strip_strip (s : str) : strip (strip s) = strip s.
Proof.
  unfold strip at 1. unfold lstrip.
  rewrite (dropwhile_fixed isspace (strip s) (strip_head s)).
  unfold rstrip.
  rewrite (dropwhile_fixed isspace (rev (strip s)) (strip_last s)).
  apply rev_involutive.
Qed.

(** *** The fixed points of the three substitutions on blanks *)

Lemma collapse_stable (s : str) : forall prev out,
  Forall blank_is_space s -> chain blank_blank out s ->
  stable spaces_at (fun _ => lit " ") prev s.
Proof.
  induction s as [|c t IH]; intros prev out Hb Hc; [exact I|].
  inversion Hb as [|? ? Hbc Hbt]; subst. destruct Hc as [_ Hc].
  split; [|eapply IH; eauto].
  destruct (spaces_at prev (c :: t)) as [[|n]|] eqn:E; try exact I.
  apply spaces_at_blank in E. destruct E as [Hsp E]. injection E as ->.
  rewrite (Hbc Hsp). destruct t as [|d t']; [reflexivity|].
  destruct Hc as [Hcd _]. unfold blank_blank in Hcd.
  rewrite (Hbc Hsp) in Hcd. simpl in Hcd. simpl. rewrite Hcd. reflexivity.
Qed.

Lemma collapse_spaces_fixed (s : str) :
  Forall blank_is_space s -> no_double_space s -> collapse_spaces s = s.
Proof.
  intros Hb Hc. unfold collapse_spaces, sub.
  apply stable_sub_from. eapply collapse_stable; eauto.
Qed.

Lemma chain_last R prev (a : str) b p rest :
  chain R prev ((a ++ [b]) ++ p :: rest) -> R b p = false.
Proof.
  intros H. apply chain_app in H. destruct H as [_ H].
  rewrite prev_after_snoc in H. apply H.
Qed.

Lemma blank_run_last c (t : str) :
  isspace c = true ->
  exists a b, c :: takewhile isspace t = a ++ [b] /\ isspace b = true.
Proof.
  intros Hc.
  assert (H : Forall (fun x => isspace x = true) (c :: takewhile isspace t)).
  { constructor; [exact Hc|apply Forall_takewhile_true]. }
  destruct (exists_last (l := c :: takewhile isspace t)) as (a & b & E);
    [discriminate|].
  exists a, b. split; [exact E|].
  rewrite E in H. apply Forall_app in H. destruct H as [_ H].
  inversion H; assumption.
Qed.

Lemma unspace_fixed (s : str) : forall prev out,
  chain blank_punct out s -> unspace_from prev s = s.
Proof.
  apply (unspace_ind
           (fun prev s o => forall out, chain blank_punct out s -> o = s)).
  - reflexivity.
  - intros prev c t p rest Hc Hd Hp _ out H. exfalso.
    destruct (blank_run_last c t Hc) as (a & b & E & Hb).
    rewrite (@blank_run_split t p rest Hd), app_comm_cons, E in H.
    apply chain_last in H. unfold blank_punct in H. rewrite Hb, Hp in H.
    discriminate.
  - intros prev c t _ IH out H. f_equal. eapply IH, chain_tail, H.
Qed.

Lemma respace_fixed (s : str) : forall prev out,
  Forall blank_is_space s ->
  chain blank_blank out s -> chain stop_capital out s ->
  respace_from prev s = s.
Proof.
  apply (respace_ind
           (fun prev s o => forall out,
                Forall blank_is_space s ->
                chain blank_blank out s -> chain stop_capital out s -> o = s)).
  - reflexivity.
  - intros prev p r u rest Hp Hd Hu IH out Hb Hbb Hsc.
    pose proof (@blank_run_split r u rest Hd) as Er.
    destruct (takewhile isspace r) as [|b1 [|b2 w]] eqn:Ew.
    + exfalso. simpl in Er. subst r. destruct Hsc as [_ [Hsc _]].
      unfold stop_capital in Hsc. rewrite Hp, Hu in Hsc. discriminate.
    + pose proof (@Forall_takewhile_true isspace r) as Hw. rewrite Ew in Hw.
      assert (Hb1 : isspace b1 = true) by (inversion Hw; assumption).
      clear Hw Ew. simpl in Er. subst r.
      assert (Hs1 : blank_is_space b1).
      { inversion Hb as [|? ? _ Hb']. inversion Hb'; assumption. }
      assert (Hb3 : Forall blank_is_space rest).
      { inversion Hb as [|? ? _ Hb']. inversion Hb' as [|? ? _ Hb''].
        inversion Hb''; assumption. }
      rewrite (Hs1 Hb1). f_equal. f_equal. f_equal.
      eapply IH; [exact Hb3| |].
      * destruct Hbb as [_ [_ [_ Hbb]]]. exact Hbb.
      * destruct Hsc as [_ [_ [_ Hsc]]]. exact Hsc.
    + exfalso.
      pose proof (@Forall_takewhile_true isspace r) as Hw. rewrite Ew in Hw.
      assert (Hb1 : isspace b1 = true) by (inversion Hw; assumption).
      assert (Hb2 : isspace b2 = true).
      { inversion Hw as [|? ? _ Hw']. inversion Hw'; assumption. }
      clear Hw Ew. simpl in Er. subst r. destruct Hbb as [_ [_ [Hbb _]]].
      unfold blank_blank in Hbb. rewrite Hb1, Hb2 in Hbb. discriminate.
  - intros prev c t _ IH out Hb Hbb Hsc. f_equal.
    inversion Hb; subst. eapply IH; eauto; eapply chain_tail; eauto.
Qed.

End FixpointFacts.

(** Abbreviations of one word, on characters and on tokens. *)

Module WordFacts.
Import PyStr PdfProcessor NormalForm ScanFacts ClassFacts PunctFacts.

Lemma lower_word c : Bool.eqb (isword (lower_char c)) (isword c) = true.
Proof. by_cases c. Qed.

Lemma eqc_eq a b : eqc a b = true -> a = b.
Proof. unfold eqc. apply Ascii.eqb_eq. Qed.

(** characters that are equal up to case are both word characters or
    both not *)
Lemma ieq_word k c :
  eqc (lower_char k) (lower_char c) = true -> isword k = isword c.
Proof.
  intros H. apply eqc_eq in H.
  pose proof (lower_word k) as Hk. pose proof (lower_word c) as Hc.
  apply eqb_prop in Hk. apply eqb_prop in Hc. congruence.
Qed.

Lemma ieq_word_false k c :
  isword k = true -> isword c = false ->
  eqc (lower_char k) (lower_char c) = false.
Proof.
  intros Hk Hc. destruct (eqc _ _) eqn:E; [|reflexivity].
  apply ieq_word in E. congruence.
Qed.

Lemma wordb_hd_sep (x : str) : sep_head x = true -> wordb (nth_error x 0) = false.
Proof.
  destruct x as [|c x]; simpl; [reflexivity|]. intros H.
  apply negb_true_iff in H. exact H.
Qed.

(** a key of word characters does not start in a shorter word *)
Lemma istartswith_short (k : str) : forall (w x : str),
  Forall (fun c => isword c = true) k ->
  length w < length k -> sep_head x = true ->
  istartswith k (w ++ x) = false.
Proof.
  induction k as [|a k IH]; intros w x Hk Hl Hx; [simpl in Hl; lia|].
  inversion Hk as [|? ? Ha Hk']; subst.
  destruct w as [|b w]; simpl.
  - destruct x as [|c x]; [reflexivity|]. simpl in Hx.
    apply negb_true_iff in Hx. rewrite (ieq_word_false a c Ha Hx). reflexivity.
  - rewrite IH; [apply andb_false_r|assumption|simpl in Hl; lia|assumption].
Qed.

Lemma istartswith_long (k : str) : forall (w x : str),
  length k <= length w -> istartswith k (w ++ x) = istartswith k w.
Proof.
  induction k as [|a k IH]; intros w x Hl; [reflexivity|].
  destruct w as [|b w]; [simpl in Hl; lia|]. simpl.
  rewrite IH; [reflexivity|simpl in Hl; lia].
Qed.

Lemma Forall_nth_word (w : str) n :
  Forall (fun c => isword c = true) w -> n < length w ->
  wordb (nth_error w n) = true.
Proof.
  intros H. revert n. induction H as [|c w Hc Hw IH]; intros n Hn;
    [simpl in Hn; lia|].
  destruct n as [|n]; [exact Hc|]. simpl. apply IH. simpl in Hn. lia.
Qed.

(** at the start of a word, a one-word key matches when the word is the
    key *)
Lemma abbrev_at_word (k w x : str) prev :
  k <> [] -> Forall (fun c => isword c = true) k ->
  w <> [] -> Forall (fun c => isword c = true) w ->
  wordb prev = false -> sep_head x = true ->
  abbrev_at k prev (w ++ x) = if ieqs w k then Some (length k) else None.
Proof.
  intros Hk0 Hk Hw0 Hw Hp Hx. unfold abbrev_at, boundary, ieqs.
  assert (H0 : wordb (nth_error (w ++ x) 0) = true).
  { rewrite nth_error_app1 by (destruct w; [contradiction|simpl; lia]).
    apply Forall_nth_word; [exact Hw|]. destruct w; [contradiction|simpl; lia]. }
  rewrite Hp, H0. simpl xorb. rewrite andb_true_l.
  assert (Hkl : 0 < length k) by (destruct k; [contradiction|simpl; lia]).
  destruct (Nat.lt_trichotomy (length w) (length k)) as [Hlt|[Heq|Hgt]].
  - rewrite istartswith_short by assumption. simpl.
    replace (length w =? length k) with false
      by (symmetry; apply Nat.eqb_neq; lia). reflexivity.
  - rewrite istartswith_long by lia. rewrite Heq, Nat.eqb_refl. simpl.
    rewrite nth_error_app1 by lia.
    rewrite (Forall_nth_word w (length k - 1) Hw) by lia.
    rewrite nth_error_app2 by lia. rewrite <- Heq, Nat.sub_diag.
    rewrite (wordb_hd_sep x Hx). simpl. rewrite andb_true_r. reflexivity.
  - replace (length w =? length k) with false
      by (symmetry; apply Nat.eqb_neq; lia). simpl.
    rewrite !nth_error_app1 by lia.
    rewrite !(Forall_nth_word w) by (assumption || lia).
    simpl. rewrite andb_false_r. reflexivity.
Qed.

(** a key that starts with a word character matches neither at a
    separator nor inside a word *)
Lemma abbrev_at_sep (k : str) a prev c (t : str) :
  isword a = true -> isword c = false ->
  abbrev_at (a :: k) prev (c :: t) = None.
Proof.
  intros Ha Hc. unfold abbrev_at. simpl istartswith.
  rewrite (ieq_word_false a c Ha Hc). simpl. rewrite andb_false_r. reflexivity.
Qed.

Lemma abbrev_at_inside (k : str) prev c (t : str) :
  wordb prev = true -> isword c = true -> abbrev_at k prev (c :: t) = None.
Proof.
  intros Hp Hc. unfold abbrev_at, boundary. simpl nth_error at 1.
  simpl wordb at 2. rewrite Hp, Hc. reflexivity.
Qed.

Lemma forallb_Forall (p : ascii -> bool) (w : str) :
  forallb p w = true -> Forall (fun c => p c = true) w.
Proof. intros H. apply Forall_forall. apply forallb_forall. exact H. Qed.

Lemma one_word_spec (k : str) :
  one_word k = true ->
  k <> [] /\ Forall (fun c => isword c = true) k
  /\ exists a k', k = a :: k' /\ isword a = true.
Proof.
  unfold one_word. intros H. apply andb_true_iff in H. destruct H as [H1 H2].
  destruct k as [|a k']; [discriminate|].
  split; [discriminate|]. split; [apply forallb_Forall, H2|].
  exists a, k'. split; [reflexivity|].
  simpl in H2. apply andb_true_iff in H2. tauto.
Qed.

Lemma prev_after_word prev (w : str) :
  w <> [] -> Forall (fun c => isword c = true) w ->
  wordb (prev_after prev w) = true.
Proof.
  intros H0 H. destruct (exists_last H0) as (a & b & ->).
  rewrite prev_after_snoc. apply Forall_app in H. destruct H as [_ H].
  inversion H; assumption.
Qed.

Section OneKey.
Variable k e : str.

Lemma expand_sep prev c (t : str) :
  sep_head k = false -> isword c = false ->
  expand_from k e prev (c :: t) = c :: expand_from k e (Some c) t.
Proof.
  intros Hk Hc. destruct k as [|a k']; [discriminate|].
  simpl in Hk. apply negb_false_iff in Hk.
  unfold expand_from. rewrite sub_step, abbrev_at_sep by assumption. reflexivity.
Qed.

Lemma expand_inside (w x : str) : forall prev,
  wordb prev = true -> Forall (fun c => isword c = true) w ->
  expand_from k e prev (w ++ x) = w ++ expand_from k e (prev_after prev w) x.
Proof.
  induction w as [|c w IH]; intros prev Hp Hw; [reflexivity|].
  inversion Hw as [|? ? Hc Hw']; subst. simpl app.
  unfold expand_from in *. rewrite sub_step, abbrev_at_inside by assumption.
  f_equal. apply IH; assumption.
Qed.

Lemma expand_word (w x : str) prev :
  one_word k = true ->
  w <> [] -> Forall (fun c => isword c = true) w ->
  wordb prev = false -> sep_head x = true ->
  expand_from k e prev (w ++ x)
  = (if ieqs w k then e else w) ++ expand_from k e (prev_after prev w) x.
Proof.
  intros Hk Hw0 Hw Hp Hx.
  destruct (one_word_spec k Hk) as (Hk0 & Hkw & _).
  pose proof (abbrev_at_word k w x prev Hk0 Hkw Hw0 Hw Hp Hx) as E.
  destruct (ieqs w k) eqn:Ei.
  - unfold expand_from. apply sub_match; [exact Hw0|]. rewrite E. f_equal.
    unfold ieqs in Ei. apply andb_true_iff in Ei. destruct Ei as [Ei _].
    apply Nat.eqb_eq in Ei. congruence.
  - destruct w as [|c w']; [contradiction|].
    inversion Hw as [|? ? Hc Hw']; subst. simpl app in *.
    unfold expand_from in *. rewrite sub_step, E. f_equal.
    apply (expand_inside w' x (Some c)); assumption.
Qed.

Lemma nomatch_sep prev c (t : str) :
  sep_head k = false -> isword c = false ->
  nomatch (abbrev_at k) prev (c :: t) = nomatch (abbrev_at k) (Some c) t.
Proof.
  intros Hk Hc. destruct k as [|a k']; [discriminate|].
  simpl in Hk. apply negb_false_iff in Hk.
  simpl nomatch. rewrite abbrev_at_sep by assumption. reflexivity.
Qed.

Lemma nomatch_inside (w x : str) : forall prev,
  wordb prev = true -> Forall (fun c => isword c = true) w ->
  nomatch (abbrev_at k) prev (w ++ x)
  = nomatch (abbrev_at k) (prev_after prev w) x.
Proof.
  induction w as [|c w IH]; intros prev Hp Hw; [reflexivity|].
  inversion Hw as [|? ? Hc Hw']; subst. simpl app. simpl nomatch.
  rewrite abbrev_at_inside by assumption. simpl. apply IH; assumption.
Qed.

Lemma nomatch_word (w x : str) prev :
  one_word k = true ->
  w <> [] -> Forall (fun c => isword c = true) w ->
  wordb prev = false -> sep_head x = true ->
  nomatch (abbrev_at k) prev (w ++ x)
  = negb (ieqs w k) && nomatch (abbrev_at k) (prev_after prev w) x.
Proof.
  intros Hk Hw0 Hw Hp Hx.
  destruct (one_word_spec k Hk) as (Hk0 & Hkw & _).
  pose proof (abbrev_at_word k w x prev Hk0 Hkw Hw0 Hw Hp Hx) as E.
  destruct w as [|c w']; [contradiction|].
  inversion Hw as [|? ? Hc Hw']; subst. simpl app in *. simpl nomatch.
  rewrite E. f_equal; [destruct (ieqs (c :: w') k); reflexivity|].
  apply (nomatch_inside w' x (Some c)); assumption.
Qed.

End OneKey.

End WordFacts.

Module TokenFacts.
Import PyStr PdfProcessor NormalForm ScanFacts ClassFacts PunctFacts WordFacts.

Lemma flat_app (a b : list tok) : flat (a ++ b) = flat a ++ flat b.
Proof. unfold flat. apply flat_map_app. Qed.

Lemma flat_tokenize (s : str) : flat (tokenize s) = s.
Proof.
  induction s as [|c t IH]; [reflexivity|]. simpl.
  destruct (isword c).
  - destruct (tokenize t) as [|[w|d] rest]; simpl in *; congruence.
  - simpl. congruence.
Qed.

Lemma wf_tokenize (s : str) : wf false (tokenize s) = true.
Proof.
  induction s as [|c t IH]; [reflexivity|]. simpl.
  destruct (isword c) eqn:Hc.
  - destruct (tokenize t) as [|[w|d] rest]; simpl in *.
    + rewrite Hc. reflexivity.
    + rewrite Hc. simpl.
      destruct (length w =? 0); simpl in IH; [discriminate|]. exact IH.
    + rewrite Hc. simpl. exact IH.
  - simpl. rewrite Hc. exact IH.
Qed.

Lemma wf_after_word (rest : list tok) :
  wf true rest = true -> sep_head (flat rest) = true.
Proof.
  destruct rest as [|[w|c] rest]; simpl; [reflexivity|discriminate|].
  intros H. apply andb_true_iff in H. tauto.
Qed.

Lemma wf_word b (w : str) (rest : list tok) :
  wf b (Word w :: rest) = true ->
  b = false /\ w <> [] /\ Forall (fun c => isword c = true) w /\ wf true rest = true.
Proof.
  simpl. intros H. repeat (apply andb_true_iff in H; destruct H as [H ?]).
  split; [destruct b; [discriminate|reflexivity]|].
  split; [destruct w; [discriminate|discriminate]|].
  split; [apply forallb_Forall; assumption|assumption].
Qed.

Lemma wf_sep b c (rest : list tok) :
  wf b (Sep c :: rest) = true -> isword c = false /\ wf false rest = true.
Proof.
  simpl. intros H. apply andb_true_iff in H. destruct H as [H1 H2].
  apply negb_true_iff in H1. auto.
Qed.

Section OneKey.
Variable k : str.
Hypothesis key : one_word k = true.

Lemma key_head : sep_head k = false.
Proof.
  destruct (one_word_spec k key) as (_ & _ & a & k' & -> & Ha).
  simpl. rewrite Ha. reflexivity.
Qed.

(** the substitution of a one-word key replaces the words that are the
    key *)
Lemma expand_flat (e : list tok) (toks : list tok) : forall prev,
  wf (wordb prev) toks = true ->
  expand_from k (flat e) prev (flat toks) = flat (expand_toks k e toks).
Proof.
  induction toks as [|[w|c] rest IH]; intros prev H; [reflexivity| |].
  - apply wf_word in H. destruct H as (Hp & Hw0 & Hw & Hr).
    change (flat (Word w :: rest)) with (w ++ flat rest).
    rewrite expand_word; auto using wf_after_word.
    rewrite IH by (rewrite prev_after_word; assumption).
    unfold expand_toks. simpl flat_map. rewrite flat_app. f_equal.
    simpl. destruct (ieqs w k); [reflexivity|]. simpl. symmetry. apply app_nil_r.
  - apply wf_sep in H. destruct H as [Hc Hr].
    change (flat (Sep c :: rest)) with (c :: flat rest).
    rewrite expand_sep by (apply key_head || assumption).
    rewrite IH by (simpl; rewrite Hc; assumption). reflexivity.
Qed.

(** a one-word key matches nowhere when no word is the key *)
Lemma nomatch_flat (toks : list tok) : forall prev,
  wf (wordb prev) toks = true ->
  nomatch (abbrev_at k) prev (flat toks) = forallb (other_word k) toks.
Proof.
  induction toks as [|[w|c] rest IH]; intros prev H; [reflexivity| |].
  - apply wf_word in H. destruct H as (Hp & Hw0 & Hw & Hr).
    change (flat (Word w :: rest)) with (w ++ flat rest).
    rewrite nomatch_word; auto using wf_after_word.
    rewrite IH by (rewrite prev_after_word; assumption). reflexivity.
  - apply wf_sep in H. destruct H as [Hc Hr].
    change (flat (Sep c :: rest)) with (c :: flat rest).
    rewrite nomatch_sep by (apply key_head || assumption).
    rewrite IH by (simpl; rewrite Hc; assumption). reflexivity.
Qed.

End OneKey.

Lemma wf_open_app (e : list tok) : forall b (rest : list tok),
  wf_open b e = true -> wf true rest = true -> wf b (e ++ rest) = true.
Proof.
  induction e as [|[w|c] e IH]; intros b rest He Hr; simpl in *.
  - subst b. exact Hr.
  - apply andb_true_iff in He. destruct He as [He H3].
    rewrite He, (IH true rest) by assumption. reflexivity.
  - apply andb_true_iff in He. destruct He as [H1 H2].
    rewrite H1, (IH false rest) by assumption. reflexivity.
Qed.

(** replacing words by well-formed expansions keeps the list well formed *)
Lemma wf_expand_toks (k : str) (e : list tok) (toks : list tok) : forall b,
  wf_open false e = true -> wf b toks = true ->
  wf b (expand_toks k e toks) = true.
Proof.
  induction toks as [|[w|c] rest IH]; intros b He H; [exact H| |].
  - pose proof (wf_word _ _ _ H) as (Hb & _ & _ & Hr). subst b.
    unfold expand_toks. simpl flat_map. fold (expand_toks k e rest).
    destruct (ieqs w k).
    + apply wf_open_app; [exact He|apply IH; assumption].
    + simpl app. simpl in H |- *.
      apply andb_true_iff in H. destruct H as [H H3].
      rewrite H, (IH true) by assumption. reflexivity.
  - pose proof (wf_sep _ _ _ H) as (Hc & Hr).
    unfold expand_toks. simpl flat_map. fold (expand_toks k e rest).
    simpl. rewrite Hc, (IH false) by assumption. reflexivity.
Qed.

(** after the substitution no word is the key, and a key that was
    nowhere before is nowhere after, when it is none of the words brought
    in *)
Lemma other_word_expand (k k' : str) (e : list tok) (toks : list tok) :
  forallb (other_word k') e = true ->
  k' = k \/ forallb (other_word k') toks = true ->
  forallb (other_word k') (expand_toks k e toks) = true.
Proof.
  intros He H. unfold expand_toks. rewrite forallb_forall. intros t Ht.
  apply in_flat_map in Ht. destruct Ht as (t0 & Ht0 & Ht).
  destruct t0 as [w|c]; simpl in Ht.
  - destruct (ieqs w k) eqn:E.
    + rewrite forallb_forall in He. apply He, Ht.
    + destruct Ht as [<-|[]]. simpl. destruct H as [->|H].
      * rewrite E. reflexivity.
      * rewrite forallb_forall in H. apply (H (Word w) Ht0).
  - destruct Ht as [<-|[]]. reflexivity.
Qed.

End TokenFacts.

(** The abbreviation [mg/dl], two words around a solidus. *)

Module SlashFacts.
Import PyStr PdfProcessor NormalForm ScanFacts ClassFacts PunctFacts WordFacts TokenFacts.

Lemma ieq_slash_b c :
  Bool.eqb (eqc (lower_char solidus) (lower_char c)) (eqc c solidus) = true.
Proof. by_cases c. Qed.

Lemma ieq_slash c : eqc (lower_char solidus) (lower_char c) = eqc c solidus.
Proof. apply eqb_prop, ieq_slash_b. Qed.

Lemma slash_not_word : isword solidus = false.
Proof. reflexivity. Qed.

Lemma ieq_word_diff k c :
  isword k <> isword c -> eqc (lower_char k) (lower_char c) = false.
Proof.
  intros H. destruct (eqc _ _) eqn:E; [|reflexivity].
  apply ieq_word in E. contradiction.
Qed.

Lemma istartswith_sep (k x : str) a :
  isword a = true -> sep_head x = true -> istartswith (a :: k) x = false.
Proof.
  intros Ha Hx. destruct x as [|c x]; [reflexivity|]. simpl in *.
  apply negb_true_iff in Hx. rewrite (ieq_word_false a c Ha Hx). reflexivity.
Qed.

(** a key [a/b] starts at the start of a word when the word is [a] and
    what follows starts with [/b] *)
Lemma istartswith_slash (a : str) : forall (w x b : str),
  a <> [] -> Forall (fun c => isword c = true) a ->
  w <> [] -> Forall (fun c => isword c = true) w ->
  sep_head x = true ->
  istartswith (slash_key a b) (w ++ x) = ieqs w a && istartswith (solidus :: b) x.
Proof.
  unfold slash_key.
  induction a as [|a0 a' IH]; intros w x b Ha0 Ha Hw0 Hw Hx; [contradiction|].
  destruct w as [|c w']; [contradiction|].
  inversion Ha as [|? ? Ha0' Ha']; subst. inversion Hw as [|? ? Hc Hw']; subst.
  unfold ieqs. cbn [app istartswith length].
  destruct a' as [|a1 a'']; destruct w' as [|d w''].
  - cbn [app istartswith length]. rewrite Nat.eqb_refl, andb_true_r. reflexivity.
  - inversion Hw' as [|? ? Hd _]; subst. cbn [app istartswith length].
    rewrite (ieq_word_diff solidus d) by (rewrite slash_not_word, Hd; discriminate).
    cbn [andb]. rewrite andb_false_r. reflexivity.
  - inversion Ha' as [|? ? Ha1 _]; subst. cbn [app].
    rewrite (istartswith_sep _ x a1 Ha1 Hx).
    rewrite andb_false_r. reflexivity.
  - rewrite IH by (assumption || discriminate). unfold ieqs.
    change (S (length (d :: w'')) =? S (length (a1 :: a'')))
      with (length (d :: w'') =? length (a1 :: a'')).
    destruct (eqc (lower_char a0) (lower_char c)),
      (length (d :: w'') =? length (a1 :: a'')),
      (istartswith (a1 :: a'') (d :: w'')); reflexivity.
Qed.

(** a one-word key read off the equation of [abbrev_at_word] *)
Lemma word_match (k w x : str) :
  one_word k = true ->
  w <> [] -> Forall (fun c => isword c = true) w -> sep_head x = true ->
  istartswith k (w ++ x) && end_ok k (w ++ x) = ieqs w k.
Proof.
  intros Hk Hw0 Hw Hx.
  destruct (one_word_spec k Hk) as (Hk0 & Hkw & _).
  pose proof (abbrev_at_word k w x None Hk0 Hkw Hw0 Hw eq_refl Hx) as E.
  unfold abbrev_at, boundary in E. fold (boundary (nth_error (w ++ x) (length k - 1))
                                          (nth_error (w ++ x) (length k))) in E.
  fold (end_ok k (w ++ x)) in E.
  assert (H0 : wordb (nth_error (w ++ x) 0) = true).
  { rewrite nth_error_app1 by (destruct w; [contradiction|simpl; lia]).
    apply Forall_nth_word; [exact Hw|]. destruct w; [contradiction|simpl; lia]. }
  rewrite H0 in E. simpl in E.
  destruct (istartswith k (w ++ x) && end_ok k (w ++ x)), (ieqs w k);
    try reflexivity; discriminate.
Qed.

Lemma ieqs_length (w k : str) : ieqs w k = true -> length w = length k.
Proof.
  unfold ieqs. intros H. apply andb_true_iff in H. destruct H as [H _].
  apply Nat.eqb_eq, H.
Qed.

Lemma end_ok_shift (a b w z : str) c :
  length w = length a -> b <> [] ->
  end_ok (slash_key a b) (w ++ c :: z) = end_ok b z.
Proof.
  intros Hl Hb. unfold end_ok, slash_key. rewrite length_app. simpl length.
  assert (0 < length b) by (destruct b; [contradiction|simpl; lia]).
  rewrite !nth_error_app2 by lia.
  replace (length a + S (length b) - 1 - length w) with (S (length b - 1)) by lia.
  replace (length a + S (length b) - length w) with (S (length b)) by lia.
  reflexivity.
Qed.

Section SlashKey.
Variable a b : str.
Hypothesis key_a : one_word a = true.
Hypothesis key_b : one_word b = true.

Lemma slash_key_head : sep_head (slash_key a b) = false.
Proof.
  destruct (one_word_spec a key_a) as (_ & _ & a0 & a' & -> & Ha).
  simpl. rewrite Ha. reflexivity.
Qed.

(** at the start of a word the key [a/b] matches when the next three
    tokens are the word [a], a solidus and the word [b] *)
Lemma abbrev_at_triple (w : str) (rest : list tok) prev :
  wordb prev = false -> wf false (Word w :: rest) = true ->
  abbrev_at (slash_key a b) prev (flat (Word w :: rest))
  = if triple_at a b (Word w :: rest)
    then Some (length (slash_key a b)) else None.
Proof.
  intros Hp H. apply wf_word in H. destruct H as (_ & Hw0 & Hw & Hr).
  destruct (one_word_spec a key_a) as (Ha0 & Haw & _).
  destruct (one_word_spec b key_b) as (Hb0 & Hbw & b0 & b' & Eb & Hb0w).
  change (flat (Word w :: rest)) with (w ++ flat rest).
  unfold abbrev_at, boundary.
  fold (boundary (nth_error (w ++ flat rest) (length (slash_key a b) - 1))
                 (nth_error (w ++ flat rest) (length (slash_key a b)))).
  fold (end_ok (slash_key a b) (w ++ flat rest)).
  assert (H0 : wordb (nth_error (w ++ flat rest) 0) = true).
  { rewrite nth_error_app1 by (destruct w; [contradiction|simpl; lia]).
    apply Forall_nth_word; [exact Hw|]. destruct w; [contradiction|simpl; lia]. }
  rewrite Hp, H0. simpl xorb. rewrite andb_true_l.
  rewrite istartswith_slash by (auto using wf_after_word).
  destruct rest as [|[w'|c] rest2].
  - cbn [flat flat_map istartswith triple_at]. rewrite andb_false_r. reflexivity.
  - discriminate Hr.
  - apply wf_sep in Hr. destruct Hr as [Hc Hr2].
    change (flat (Sep c :: rest2)) with (c :: flat rest2).
    cbn [istartswith]. rewrite ieq_slash.
    destruct rest2 as [|[w2|d] rest3].
    + cbn [flat flat_map triple_at]. rewrite Eb. cbn [istartswith].
      rewrite !andb_false_r. reflexivity.
    + apply wf_word in Hr2. destruct Hr2 as (_ & Hw20 & Hw2 & Hr3).
      change (flat (Word w2 :: rest3)) with (w2 ++ flat rest3).
      cbn [triple_at].
      destruct (ieqs w a) eqn:Ea; [|reflexivity].
      destruct (eqc c solidus) eqn:Ec; [|reflexivity].
      rewrite (end_ok_shift a b w (w2 ++ flat rest3) c (ieqs_length _ _ Ea) Hb0).
      cbn [andb].
      rewrite (word_match b w2 (flat rest3) key_b Hw20 Hw2 (wf_after_word _ Hr3)).
      reflexivity.
    + apply wf_sep in Hr2. destruct Hr2 as [Hd _].
      change (flat (Sep d :: rest3)) with (d :: flat rest3).
      rewrite Eb.
      rewrite (istartswith_sep b' (d :: flat rest3) b0 Hb0w)
        by (cbn [sep_head]; rewrite Hd; reflexivity).
      cbn [triple_at]. rewrite !andb_false_r. reflexivity.
Qed.

Lemma expand_triples_skip (e : list tok) (toks : list tok) : forall n,
  expand_triples_from a b e n toks
  = expand_triples_from a b e 0 (skipn n toks).
Proof.
  induction toks as [|t rest IH]; intros n; [destruct n; reflexivity|].
  destruct n as [|n]; [reflexivity|]. cbn [expand_triples_from skipn]. apply IH.
Qed.

Lemma triple_at_shape (toks : list tok) :
  triple_at a b toks = true ->
  exists w1 c w2 rest,
    toks = Word w1 :: Sep c :: Word w2 :: rest
    /\ ieqs w1 a = true /\ c = solidus /\ ieqs w2 b = true.
Proof.
  destruct toks as [|[w1|?] [|[?|c] [|[w2|?] rest]]]; try discriminate.
  cbn [triple_at]. intros H.
  apply andb_true_iff in H. destruct H as [H H3].
  apply andb_true_iff in H. destruct H as [H1 H2].
  exists w1, c, w2, rest. repeat split; auto. apply eqc_eq, H2.
Qed.

(** the substitution of the key [a/b] replaces the triples *)
Lemma expand_flat_slash (e : list tok) (toks : list tok) : forall prev,
  wf (wordb prev) toks = true ->
  expand_from (slash_key a b) (flat e) prev (flat toks)
  = flat (expand_triples_from a b e 0 toks).
Proof.
  remember (length toks) as n eqn:Hn. revert toks Hn.
  induction n as [n IH] using lt_wf_ind. intros toks -> prev H.
  destruct toks as [|[w|c] rest]; [reflexivity| |].
  - pose proof (wf_word _ _ _ H) as (Hp & Hw0 & Hw & Hr).
    rewrite Hp in H.
    pose proof (abbrev_at_triple w rest prev Hp H) as E.
    cbn [expand_triples_from].
    destruct (triple_at a b (Word w :: rest)) eqn:T.
    + destruct (triple_at_shape _ T) as (w1 & c & w2 & rest3 & Et & E1 & -> & E2).
      injection Et as <- ->.
      apply wf_sep in Hr. destruct Hr as [_ Hr].
      apply wf_word in Hr. destruct Hr as (_ & Hw20 & Hw2 & Hr3).
      rewrite flat_app, expand_triples_skip. cbn [skipn].
      assert (Ef : flat (Word w :: Sep solidus :: Word w2 :: rest3)
                   = (w ++ solidus :: w2) ++ flat rest3).
      { cbn [flat flat_map flat1]. rewrite <- !app_assoc. reflexivity. }
      rewrite Ef in E |- *. unfold expand_from.
      rewrite sub_match.
      * f_equal. apply (IH (length rest3)); [simpl; lia|reflexivity|].
        rewrite prev_after_app. cbn [prev_after fold_left].
        fold (prev_after (Some solidus) w2).
        rewrite prev_after_word by assumption. exact Hr3.
      * destruct w; [contradiction|discriminate].
      * rewrite E. f_equal. unfold slash_key. rewrite !length_app.
        cbn [length]. rewrite (ieqs_length _ _ E1), (ieqs_length _ _ E2).
        reflexivity.
    + destruct w as [|w0 w']; [contradiction|].
      inversion Hw as [|? ? Hw0' Hw']; subst.
      change (flat (Word (w0 :: w') :: rest)) with (w0 :: (w' ++ flat rest)) in *.
      unfold expand_from in *. rewrite sub_step, E.
      change (flat (Word (w0 :: w') :: expand_triples_from a b e 0 rest))
        with (w0 :: (w' ++ flat (expand_triples_from a b e 0 rest))).
      f_equal.
      pose proof (expand_inside (slash_key a b) (flat e) w' (flat rest) (Some w0)
                    Hw0' Hw') as Ei.
      unfold expand_from in Ei. rewrite Ei. f_equal.
      apply (IH (length rest)); [simpl; lia|reflexivity|].
      change (prev_after (Some w0) w') with (prev_after prev (w0 :: w')).
      rewrite prev_after_word by assumption. exact Hr.
  - apply wf_sep in H. destruct H as [Hc Hr].
    change (flat (Sep c :: rest)) with (c :: flat rest).
    rewrite expand_sep by (apply slash_key_head || assumption).
    cbn [expand_triples_from triple_at].
    change (flat (Sep c :: expand_triples_from a b e 0 rest))
      with (c :: flat (expand_triples_from a b e 0 rest)).
    f_equal. apply (IH (length rest)); [simpl; lia|reflexivity|].
    simpl. rewrite Hc. exact Hr.
Qed.

(** the key [a/b] matches nowhere when there is no triple *)
Lemma nomatch_flat_slash (toks : list tok) : forall prev,
  wf (wordb prev) toks = true ->
  nomatch (abbrev_at (slash_key a b)) prev (flat toks) = no_triple a b toks.
Proof.
  induction toks as [|[w|c] rest IH]; intros prev H; [reflexivity| |].
  - pose proof (wf_word _ _ _ H) as (Hp & Hw0 & Hw & Hr).
    rewrite Hp in H.
    pose proof (abbrev_at_triple w rest prev Hp H) as E.
    destruct w as [|w0 w']; [contradiction|].
    inversion Hw as [|? ? Hw0' Hw']; subst.
    change (flat (Word (w0 :: w') :: rest)) with (w0 :: (w' ++ flat rest)) in *.
    cbn [nomatch no_triple]. rewrite E.
    rewrite (nomatch_inside (slash_key a b) w' (flat rest) (Some w0) Hw0' Hw').
    rewrite IH.
    + destruct (triple_at a b (Word (w0 :: w') :: rest)); reflexivity.
    + change (prev_after (Some w0) w') with (prev_after prev (w0 :: w')).
      rewrite prev_after_word by assumption. exact Hr.
  - apply wf_sep in H. destruct H as [Hc Hr].
    change (flat (Sep c :: rest)) with (c :: flat rest).
    rewrite nomatch_sep by (apply slash_key_head || assumption).
    cbn [no_triple triple_at]. rewrite IH by (simpl; rewrite Hc; exact Hr).
    reflexivity.
Qed.

End SlashKey.

(** *** Triples after the substitutions *)

Section Triples.
Variable a b : str.
Variable e1 : str.
Variable e' : list tok.
Hypothesis not_a : forallb (other_word a) (Word e1 :: e') = true.
Hypothesis not_b : forallb (other_word b) (Word e1 :: e') = true.

Lemma no_triple_app (e : list tok) (l : list tok) :
  forallb (other_word a) e = true ->
  no_triple a b (e ++ l) = no_triple a b l.
Proof.
  induction e as [|t e IH]; intros H; [reflexivity|].
  cbn [forallb] in H. apply andb_true_iff in H. destruct H as [Ht He].
  cbn [app no_triple]. rewrite (IH He).
  destruct t as [w|c]; [|reflexivity].
  cbn [other_word] in Ht. apply negb_true_iff in Ht.
  destruct (e ++ l) as [|[?|c] [|[w2|?] l']]; try reflexivity.
  cbn [triple_at]. rewrite Ht. reflexivity.
Qed.

Lemma first_not_b : ieqs e1 b = false.
Proof.
  cbn [forallb other_word] in not_b. apply andb_true_iff in not_b.
  destruct not_b as [H _]. apply negb_true_iff, H.
Qed.

(** a copied token starts no triple in the output when it started none
    in the input *)
Lemma triple_head_expand_triples (t : tok) (rest : list tok) :
  triple_at a b (t :: rest) = false ->
  triple_at a b (t :: expand_triples_from a b (Word e1 :: e') 0 rest) = false.
Proof.
  intros H. destruct t as [w1|c]; [|reflexivity].
  destruct rest as [|[w'|c] rest2]; [reflexivity| |].
  - cbn [expand_triples_from].
    destruct (triple_at a b (Word w' :: rest2)); reflexivity.
  - cbn [expand_triples_from triple_at].
    destruct rest2 as [|[w2|d] rest3]; [reflexivity| |reflexivity].
    cbn [expand_triples_from].
    destruct (triple_at a b (Word w2 :: rest3)); [cbn [app triple_at]; rewrite first_not_b; apply andb_false_r|].
    exact H.
Qed.

Lemma no_triple_expand_triples (toks : list tok) :
  no_triple a b (expand_triples_from a b (Word e1 :: e') 0 toks) = true.
Proof.
  remember (length toks) as n eqn:Hn. revert toks Hn.
  induction n as [n IH] using lt_wf_ind. intros toks ->.
  destruct toks as [|t rest]; [reflexivity|].
  cbn [expand_triples_from].
  destruct (triple_at a b (t :: rest)) eqn:T.
  - rewrite no_triple_app by exact not_a. rewrite expand_triples_skip.
    apply (IH (length (skipn 2 rest))); [|reflexivity].
    rewrite length_skipn. simpl. lia.
  - cbn [no_triple]. rewrite triple_head_expand_triples by exact T.
    apply (IH (length rest)); [simpl; lia|reflexivity].
Qed.

Lemma triple_head_expand_toks (k : str) (t : tok) (rest : list tok) :
  triple_at a b (t :: rest) = false ->
  triple_at a b (t :: expand_toks k (Word e1 :: e') rest) = false.
Proof.
  intros H. destruct t as [w1|c]; [|reflexivity].
  destruct rest as [|[w'|c] rest2]; [reflexivity| |].
  - unfold expand_toks. cbn [flat_map expand_tok].
    destruct (ieqs w' k); reflexivity.
  - unfold expand_toks. cbn [flat_map expand_tok app].
    destruct rest2 as [|[w2|d] rest3]; [reflexivity| |reflexivity].
    cbn [flat_map expand_tok].
    destruct (ieqs w2 k); [cbn [app triple_at]; rewrite first_not_b; apply andb_false_r|]. exact H.
Qed.

(** the substitution of a one-word key makes no triple *)
Lemma no_triple_expand_toks (k : str) (toks : list tok) :
  no_triple a b toks = true ->
  no_triple a b (expand_toks k (Word e1 :: e') toks) = true.
Proof.
  induction toks as [|t rest IH]; intros H; [reflexivity|].
  cbn [no_triple] in H. apply andb_true_iff in H. destruct H as [Ht Hr].
  apply negb_true_iff in Ht.
  assert (Hcopy : no_triple a b (t :: expand_toks k (Word e1 :: e') rest) = true).
  { cbn [no_triple]. rewrite triple_head_expand_toks by exact Ht.
    apply IH, Hr. }
  unfold expand_toks. cbn [flat_map]. fold (expand_toks k (Word e1 :: e') rest).
  destruct t as [w|c]; cbn [expand_tok]; [|exact Hcopy].
  destruct (ieqs w k); [|exact Hcopy].
  rewrite no_triple_app by exact not_a. apply IH, Hr.
Qed.

End Triples.

End SlashFacts.

(** The whole table of abbreviations: after [expand_abbrevs] no key is
    left. *)

Module AbbrevFacts.
Import PyStr PdfProcessor NormalForm ScanFacts ClassFacts PunctFacts WordFacts TokenFacts SlashFacts.

Lemma wf_expand_triples (a b : str) (e : list tok) (toks : list tok) : forall after,
  wf_open false e = true -> wf after toks = true ->
  wf after (expand_triples_from a b e 0 toks) = true.
Proof.
  remember (length toks) as n eqn:Hn. revert toks Hn.
  induction n as [n IH] using lt_wf_ind. intros toks -> after He H.
  destruct toks as [|t rest]; [reflexivity|].
  cbn [expand_triples_from].
  destruct (triple_at a b (t :: rest)) eqn:T.
  - destruct (triple_at_shape _ _ _ T) as (w1 & c & w2 & rest3 & Et & _ & _ & _).
    injection Et as -> ->.
    apply wf_word in H. destruct H as (-> & _ & _ & H).
    apply wf_sep in H. destruct H as [_ H].
    apply wf_word in H. destruct H as (_ & _ & _ & H).
    rewrite expand_triples_skip. cbn [skipn].
    apply wf_open_app; [exact He|].
    apply (IH (length rest3)); [simpl; lia|reflexivity|exact He|exact H].
  - destruct t as [w|c].
    + cbn [wf] in H |- *.
      apply andb_true_iff in H. destruct H as [H Hr]. rewrite H.
      apply (IH (length rest)); [simpl; lia|reflexivity|exact He|exact Hr].
    + cbn [wf] in H |- *.
      apply andb_true_iff in H. destruct H as [H Hr]. rewrite H.
      apply (IH (length rest)); [simpl; lia|reflexivity|exact He|exact Hr].
Qed.

Lemma word_headed_shape (e : list tok) :
  word_headed e = true -> exists e1 e', e = Word e1 :: e'.
Proof. destruct e as [|[w|c] e']; try discriminate. eauto. Qed.

Lemma combine_eq (x : str) : forall y : str,
  length x = length y -> forallb eqc_pair (combine x y) = true -> x = y.
Proof.
  induction x as [|c x IH]; intros [|d y] L H; try discriminate; [reflexivity|].
  cbn [combine forallb] in H. apply andb_true_iff in H. destruct H as [H1 H2].
  apply eqc_eq in H1. cbn [fst snd] in H1. subst d.
  f_equal. apply IH; [simpl in L; lia|exact H2].
Qed.

Section Table.
Variable a b : str.
Variable keys : list str.

Lemma entry_ok_parts (kv : string * string) :
  entry_ok a b keys kv = true ->
  (exists e1 e', expansion kv = Word e1 :: e')
  /\ wf_open false (expansion kv) = true
  /\ forallb (other_word a) (expansion kv) = true
  /\ forallb (other_word b) (expansion kv) = true
  /\ forall k, In k keys -> forallb (other_word k) (expansion kv) = true.
Proof.
  unfold entry_ok. cbv zeta. intros H.
  apply andb_true_iff in H. destruct H as [H H5].
  apply andb_true_iff in H. destruct H as [H H4].
  apply andb_true_iff in H. destruct H as [H H3].
  apply andb_true_iff in H. destruct H as [H1 H2].
  repeat split; auto using word_headed_shape.
  intros k Hk. rewrite forallb_forall in H5. apply H5, Hk.
Qed.

Lemma expand_abbrev_toks (kv : string * string) (toks : list tok) :
  one_word (key kv) = true ->
  wf false toks = true ->
  expand_abbrev (flat toks) kv = flat (expand_toks (key kv) (expansion kv) toks).
Proof.
  intros Hk H. unfold expand_abbrev, sub.
  rewrite <- (flat_tokenize (lit (snd kv))).
  apply (expand_flat (key kv) Hk (expansion kv) toks None H).
Qed.

Lemma settled_step (kv : string * string) (done : list str) (toks : list tok) :
  entry_ok a b keys kv = true ->
  incl (done ++ [key kv]) keys ->
  settled a b done toks ->
  settled a b (done ++ [key kv]) (expand_toks (key kv) (expansion kv) toks).
Proof.
  intros Hkv Hin (Hwf & Ht & Hd).
  destruct (entry_ok_parts kv Hkv) as ((e1 & e' & Ee) & He & Ha & Hb & Hk).
  split; [apply wf_expand_toks; assumption|].
  split.
  - rewrite Ee in *. apply no_triple_expand_toks; assumption.
  - intros k Hkin. apply other_word_expand.
    + apply Hk, Hin, Hkin.
    + apply in_app_or in Hkin. destruct Hkin as [Hkin|[<-|[]]].
      * right. apply Hd, Hkin.
      * left. reflexivity.
Qed.

Lemma settled_fold (todo : list (string * string)) : forall done toks,
  forallb (fun kv => one_word (key kv)) todo = true ->
  forallb (entry_ok a b keys) todo = true ->
  incl (done ++ map key todo) keys ->
  settled a b done toks ->
  exists toks',
    fold_left expand_abbrev todo (flat toks) = flat toks'
    /\ settled a b (done ++ map key todo) toks'.
Proof.
  induction todo as [|kv todo IH]; intros done toks H1 H2 Hin Hs.
  - exists toks. cbn [map]. rewrite app_nil_r. split; [reflexivity|exact Hs].
  - cbn [forallb] in H1, H2.
    apply andb_true_iff in H1. destruct H1 as [H1 H1'].
    apply andb_true_iff in H2. destruct H2 as [H2 H2'].
    cbn [map] in Hin |- *.
    assert (Ea : forall l : list str, done ++ key kv :: l = (done ++ [key kv]) ++ l).
    { intros l. rewrite <- app_assoc. reflexivity. }
    rewrite Ea in Hin |- *.
    cbn [fold_left]. rewrite expand_abbrev_toks by (exact H1 || apply Hs).
    apply IH; try assumption.
    apply settled_step; try assumption.
    intros k Hk. apply Hin, in_or_app. left. exact Hk.
Qed.

End Table.

Lemma table_checked : table_ok = true.
Proof. vm_compute. reflexivity. Qed.

(** after the expansion step no abbreviation of the table is left *)
Lemma expand_abbrevs_free (s : str) : abbrev_free (expand_abbrevs s) = true.
Proof.
  pose proof table_checked as H. unfold table_ok in H.
  unfold abbrev_free, expand_abbrevs.
  destruct medical_abbrevs as [|kv0 rest]; [discriminate|].
  apply andb_true_iff in H. destruct H as [H H6].
  apply andb_true_iff in H. destruct H as [H H5].
  apply andb_true_iff in H. destruct H as [H H4].
  apply andb_true_iff in H. destruct H as [H H3].
  apply andb_true_iff in H. destruct H as [H1 H2].
  apply Nat.eqb_eq in H2. pose proof (combine_eq _ _ H2 H1) as Ek.
  cbn [forallb] in H6. apply andb_true_iff in H6. destruct H6 as [H0 H6].
  destruct (entry_ok_parts mg dl (map key rest) kv0 H0)
    as ((e1 & e' & Ee) & He & Ha & Hb & Hk).
  cbn [fold_left].
  assert (E0 : expand_abbrev s kv0
               = flat (expand_triples_from mg dl (expansion kv0) 0 (tokenize s))).
  { unfold expand_abbrev, sub. fold (key kv0). rewrite Ek.
    rewrite <- (flat_tokenize (lit (snd kv0))).
    rewrite <- (flat_tokenize s) at 1.
    apply (expand_flat_slash mg dl H3 H4 (expansion kv0) (tokenize s) None).
    apply wf_tokenize. }
  rewrite E0.
  destruct (settled_fold mg dl (map key rest) rest []
              (expand_triples_from mg dl (expansion kv0) 0 (tokenize s)) H5 H6)
    as (toks' & E & Hwf & Ht & Hd).
  { cbn [app]. apply incl_refl. }
  { split; [apply wf_expand_triples; [exact He|apply wf_tokenize]|].
    split; [|intros k []].
    rewrite Ee in *. apply no_triple_expand_triples; assumption. }
  rewrite E. cbn [forallb]. apply andb_true_iff. split.
  - fold (key kv0). rewrite Ek.
    rewrite (nomatch_flat_slash mg dl H3 H4 toks' None Hwf). exact Ht.
  - apply forallb_forall. intros kv Hkv. fold (key kv).
    rewrite forallb_forall in H5.
    rewrite (nomatch_flat (key kv) (H5 kv Hkv) toks' None Hwf).
    apply Hd. cbn [app]. apply in_map, Hkv.
Qed.

End AbbrevFacts.

(** The steps behind the expansion keep the words and what kind of
    separator stands between them, and the abbreviations of a text are
    read off these. *)

Module AlphaFacts.
Import PyStr PdfProcessor NormalForm ScanFacts ClassFacts ChainFacts PunctFacts.
Import FixpointFacts WordFacts TokenFacts SlashFacts AbbrevFacts.

Lemma blank_junk c : implb (isspace c) (junk c) = true.
Proof. by_cases c. Qed.

Lemma special_junk c : implb (negb (allowed c)) (junk c) = true.
Proof. by_cases c. Qed.

Lemma punct_junk c : implb (ispunct c) (junk c) = true.
Proof. by_cases c. Qed.

Lemma word_not_junk c : implb (isword c) (negb (junk c)) = true.
Proof. by_cases c. Qed.

Lemma slash_not_junk c : implb (eqc c solidus) (negb (junk c)) = true.
Proof. by_cases c. Qed.

Lemma hash_sep : isword hash = false.
Proof. reflexivity. Qed.

(** *** [alpha] and concatenation *)

Lemma alpha_app (u : str) : forall p (v : str),
  alpha p (u ++ v) = alpha p u ++ alpha (pend p u) v.
Proof.
  induction u as [|c u IH]; intros p v; [reflexivity|].
  cbn [app alpha]. unfold pend. cbn [fold_left]. fold (pend (junk c) u).
  destruct (junk c) eqn:J.
  - apply IH.
  - destruct p; cbn [app]; rewrite IH; reflexivity.
Qed.

Lemma alpha_junk (j : str) : forall p,
  Forall (fun c => junk c = true) j -> alpha p j = [].
Proof.
  induction j as [|c j IH]; intros p H; [reflexivity|].
  inversion H as [|? ? Hc Hj]; subst. cbn [alpha]. rewrite Hc. apply IH, Hj.
Qed.

Lemma pend_junk (j : str) :
  Forall (fun c => junk c = true) j -> pend true j = true.
Proof.
  induction j as [|c j IH]; intros H; [reflexivity|].
  inversion H as [|? ? Hc Hj]; subst.
  unfold pend. cbn [fold_left]. rewrite Hc. apply IH, Hj.
Qed.

Lemma pend_junk_run c (j : str) p :
  Forall (fun c => junk c = true) (c :: j) -> pend p (c :: j) = true.
Proof.
  intros H. inversion H as [|? ? Hc Hj]; subst.
  unfold pend. cbn [fold_left]. rewrite Hc. apply pend_junk, Hj.
Qed.

(** a run of junk before [v] *)
Lemma alpha_junk_run c (j v : str) p :
  Forall (fun c => junk c = true) (c :: j) ->
  alpha p ((c :: j) ++ v) = alpha true v.
Proof.
  intros H. rewrite alpha_app, (alpha_junk _ _ H), (pend_junk_run _ _ _ H).
  reflexivity.
Qed.

Lemma Forall_blank_junk (j : str) :
  Forall (fun c => isspace c = true) j -> Forall (fun c => junk c = true) j.
Proof.
  apply Forall_impl. intros c. apply implb_use, blank_junk.
Qed.

(** *** The substitutions that rewrite junk *)

Section JunkScan.
Variable match_at : option ascii -> str -> option nat.
Variable repl : str -> str.
Hypothesis seg : forall prev s n p,
  match_at prev s = Some (S n) ->
  alpha p (repl (firstn (S n) s)) = alpha p (firstn (S n) s)
  /\ pend p (repl (firstn (S n) s)) = pend p (firstn (S n) s).

Lemma alpha_sub_from (s : str) : forall prev p,
  alpha p (sub_from match_at repl 0 prev s) = alpha p s.
Proof.
  induction s as [s IH] using str_length_ind. intros prev p.
  destruct s as [|c t]; [reflexivity|].
  rewrite sub_step.
  destruct (match_at prev (c :: t)) as [[|n]|] eqn:E.
  - cbn [alpha]. rewrite !IH by (simpl; lia). reflexivity.
  - destruct (seg _ _ _ p E) as [Ea Ep].
    rewrite alpha_app, Ea, Ep, IH.
    + rewrite <- alpha_app. f_equal.
      change (firstn (S n) (c :: t)) with (c :: firstn n t).
      cbn [app]. f_equal. apply firstn_skipn.
    + simpl. pose proof (length_skipn n t). lia.
  - cbn [alpha]. rewrite !IH by (simpl; lia). reflexivity.
Qed.

End JunkScan.

Lemma seg_junk c (m : str) d (r : str) p :
  Forall (fun c => junk c = true) (c :: m) ->
  Forall (fun c => junk c = true) (d :: r) ->
  alpha p (d :: r) = alpha p (c :: m) /\ pend p (d :: r) = pend p (c :: m).
Proof.
  intros Hm Hr.
  rewrite (alpha_junk _ p Hm), (alpha_junk _ p Hr).
  rewrite (pend_junk_run _ _ p Hm), (pend_junk_run _ _ p Hr). split; reflexivity.
Qed.

Lemma alpha_collapse_spaces (s : str) :
  alpha true (collapse_spaces s) = alpha true s.
Proof.
  unfold collapse_spaces, sub. apply alpha_sub_from.
  intros prev t n p E. destruct t as [|c t]; [discriminate|].
  apply spaces_at_blank in E. destruct E as [Hc En].
  injection En as ->.
  change (firstn (S (length (takewhile isspace t))) (c :: t))
    with (c :: firstn (length (takewhile isspace t)) t).
  rewrite firstn_takewhile.
  apply seg_junk.
  - apply Forall_blank_junk. constructor; [exact Hc|apply Forall_takewhile_true].
  - repeat constructor.
Qed.

Lemma alpha_remove_special (s : str) :
  alpha true (remove_special s) = alpha true s.
Proof.
  unfold remove_special, sub. apply alpha_sub_from.
  intros prev t n p E. destruct t as [|c t]; [discriminate|].
  unfold special_at in E. destruct (allowed c) eqn:A; [discriminate|].
  injection E as <-. cbn [firstn].
  apply seg_junk; [|repeat constructor].
  constructor; [|constructor].
  apply (@implb_use _ _ (special_junk c)). rewrite A. reflexivity.
Qed.

Lemma alpha_unspace (s : str) : forall prev p,
  alpha p (unspace_from prev s) = alpha p s.
Proof.
  intros prev p. revert p.
  apply (unspace_ind (fun _ s out => forall p, alpha p out = alpha p s));
    clear s prev.
  - reflexivity.
  - intros prev c t q rest Hc Ht Hq IH p.
    rewrite (@blank_run_split _ _ _ Ht).
    change (c :: takewhile isspace t ++ q :: rest)
      with ((c :: takewhile isspace t) ++ q :: rest).
    rewrite alpha_junk_run
      by (apply Forall_blank_junk; constructor;
          [exact Hc|apply Forall_takewhile_true]).
    cbn [alpha]. rewrite (@implb_use _ _ (punct_junk q) Hq). apply IH.
  - intros prev c t _ IH p. cbn [alpha]. rewrite !IH. reflexivity.
Qed.

Lemma alpha_respace (s : str) : forall prev p,
  alpha p (respace_from prev s) = alpha p s.
Proof.
  intros prev p. revert p.
  apply (respace_ind (fun _ s out => forall p, alpha p out = alpha p s));
    clear s prev.
  - reflexivity.
  - intros prev q r u rest Hq Hr Hu IH p.
    rewrite (@blank_run_split _ _ _ Hr).
    assert (Jq : junk q = true).
    { apply (@implb_use _ _ (punct_junk q)), (@implb_use _ _ (stop_is_punct q)), Hq. }
    assert (Ju : junk u = false).
    { apply (@implb_neg _ _ (word_not_junk u)), (@implb_use _ _ (capital_is_word u)), Hu. }
    change (q :: takewhile isspace r ++ u :: rest)
      with ((q :: takewhile isspace r) ++ u :: rest).
    rewrite alpha_junk_run
      by (constructor; [exact Jq|apply Forall_blank_junk, Forall_takewhile_true]).
    cbn [alpha]. rewrite Jq, Ju.
    change (junk " ") with true. cbv iota. rewrite IH. reflexivity.
  - intros prev c t _ IH p. cbn [alpha]. rewrite !IH. reflexivity.
Qed.

Lemma alpha_fix_punctuation (s : str) :
  alpha true (fix_punctuation s) = alpha true s.
Proof.
  unfold fix_punctuation, sub.
  fold (unspace_from None s). fold (respace_from None (unspace_from None s)).
  rewrite alpha_respace. apply alpha_unspace.
Qed.

Lemma rstrip_split (s : str) :
  s = rstrip s ++ rev (takewhile isspace (rev s)).
Proof.
  unfold rstrip. rewrite <- rev_app_distr, takewhile_dropwhile, rev_involutive.
  reflexivity.
Qed.

Lemma alpha_lstrip (s : str) : alpha true (lstrip s) = alpha true s.
Proof.
  unfold lstrip. induction s as [|c t IH]; [reflexivity|].
  cbn [dropwhile alpha]. destruct (isspace c) eqn:B; [|reflexivity].
  rewrite (@implb_use _ _ (blank_junk c) B). exact IH.
Qed.

Lemma alpha_rstrip (s : str) p : alpha p (rstrip s) = alpha p s.
Proof.
  rewrite (rstrip_split s) at 2. rewrite alpha_app.
  rewrite (alpha_junk (rev _)), app_nil_r; [reflexivity|].
  apply Forall_blank_junk, Forall_rev, Forall_takewhile_true.
Qed.

Lemma alpha_strip (s : str) : alpha true (strip s) = alpha true s.
Proof. unfold strip. rewrite alpha_rstrip. apply alpha_lstrip. Qed.

(** *** [alpha] on tokens *)

Lemma talpha_pending (toks : list tok) :
  talpha true toks = [] \/ exists rest, talpha true toks = Sep hash :: rest.
Proof.
  induction toks as [|[w|c] rest IH]; [left; reflexivity| |].
  - right. cbn [talpha]. eauto.
  - cbn [talpha]. destruct (eqc c solidus); [right; eauto|exact IH].
Qed.

Lemma tokenize_word c (t : str) :
  isword c = true ->
  tokenize (c :: t)
  = match tokenize t with
    | Word w :: rest => Word (c :: w) :: rest
    | rest => Word [c] :: rest
    end.
Proof. intros H. cbn [tokenize]. rewrite H. reflexivity. Qed.

Lemma tokenize_sep c (t : str) :
  isword c = false -> tokenize (c :: t) = Sep c :: tokenize t.
Proof. intros H. cbn [tokenize]. rewrite H. reflexivity. Qed.

Lemma tokenize_hash (t : str) : tokenize (hash :: t) = Sep hash :: tokenize t.
Proof. apply tokenize_sep, hash_sep. Qed.

Lemma tokenize_alpha (s : str) : forall p,
  tokenize (alpha p s) = talpha p (tokenize s).
Proof.
  induction s as [|c t IH]; intros p; [reflexivity|].
  cbn [alpha]. destruct (isword c) eqn:W.
  - rewrite (@implb_neg _ _ (word_not_junk c) W).
    assert (E : tokenize (c :: alpha false t) = talpha false (tokenize (c :: t))).
    { rewrite !tokenize_word by exact W. rewrite IH.
      destruct (tokenize t) as [|[w|d] rest]; [reflexivity|reflexivity|].
      cbn [talpha]. destruct (eqc d solidus); [reflexivity|].
      destruct (talpha_pending rest) as [->|[r ->]]; reflexivity. }
    destruct p.
    + rewrite tokenize_hash, E. rewrite (tokenize_word c t W).
      destruct (tokenize t) as [|[w|d] rest]; reflexivity.
    + exact E.
  - rewrite (tokenize_sep c t W). cbn [talpha].
    destruct (eqc c solidus) eqn:S.
    + rewrite (@implb_neg _ _ (slash_not_junk c) S).
      destruct p.
      * rewrite tokenize_hash, (tokenize_sep c _ W), IH. reflexivity.
      * rewrite (tokenize_sep c _ W), IH. reflexivity.
    + assert (J : junk c = true).
      { unfold junk. rewrite W, S. reflexivity. }
      rewrite J. apply IH.
Qed.

Lemma other_word_talpha (k : str) (toks : list tok) : forall p,
  forallb (other_word k) (talpha p toks) = forallb (other_word k) toks.
Proof.
  induction toks as [|[w|c] rest IH]; intros p; [reflexivity| |].
  - cbn [talpha]. destruct p; cbn [forallb other_word]; rewrite IH; reflexivity.
  - cbn [talpha].
    destruct (eqc c solidus); [destruct p|]; cbn [forallb other_word];
      rewrite IH; reflexivity.
Qed.

Lemma hash_not_slash : eqc hash solidus = false.
Proof. reflexivity. Qed.

Lemma triple_head_talpha (a b w : str) (rest : list tok) :
  triple_at a b (Word w :: talpha false rest) = triple_at a b (Word w :: rest).
Proof.
  destruct rest as [|[w'|c] rest2]; [reflexivity|reflexivity|].
  cbn [talpha]. destruct (eqc c solidus) eqn:S.
  - destruct rest2 as [|[w2|d] rest3]; [reflexivity|reflexivity|].
    cbn [talpha triple_at].
    destruct (eqc d solidus); [reflexivity|].
    destruct (talpha_pending rest3) as [->|[r ->]]; reflexivity.
  - cbn [triple_at]. rewrite S.
    destruct (talpha_pending rest2) as [->|[r ->]]; cbn [triple_at].
    + destruct rest2 as [|[?|?] ?]; [reflexivity| |reflexivity].
      rewrite andb_false_r. reflexivity.
    + rewrite hash_not_slash.
      destruct rest2 as [|[?|?] ?]; try reflexivity;
        destruct r as [|[?|?] ?]; try reflexivity;
        rewrite !andb_false_r; reflexivity.
Qed.

Lemma no_triple_talpha (a b : str) (toks : list tok) : forall p,
  no_triple a b (talpha p toks) = no_triple a b toks.
Proof.
  induction toks as [|[w|c] rest IH]; intros p; [reflexivity| |].
  - cbn [talpha].
    assert (E : no_triple a b (Word w :: talpha false rest)
                = no_triple a b (Word w :: rest)).
    { cbn [no_triple]. rewrite triple_head_talpha, IH. reflexivity. }
    destruct p; [|exact E].
    change (no_triple a b (Sep hash :: Word w :: talpha false rest))
      with (no_triple a b (Word w :: talpha false rest)).
    exact E.
  - cbn [talpha]. destruct (eqc c solidus).
    + destruct p; cbn [no_triple triple_at negb andb]; apply IH.
    + cbn [no_triple triple_at negb andb]. apply IH.
Qed.

Lemma forallb_ext_in {A} (f g : A -> bool) (l : list A) :
  (forall x, In x l -> f x = g x) -> forallb f l = forallb g l.
Proof.
  induction l as [|x l IH]; intros H; [reflexivity|].
  cbn [forallb]. rewrite (H x) by (left; reflexivity).
  rewrite IH; [reflexivity|]. intros y Hy. apply H. right. exact Hy.
Qed.

Lemma token_free_talpha (toks : list tok) p :
  token_free (talpha p toks) = token_free toks.
Proof.
  unfold token_free. rewrite no_triple_talpha. f_equal.
  apply forallb_ext_in. intros kv _. apply other_word_talpha.
Qed.

(** whether a text is free of abbreviations is read off its words *)
Lemma abbrev_free_tokens (s : str) : abbrev_free s = token_free (tokenize s).
Proof.
  pose proof table_checked as H. unfold table_ok in H.
  unfold abbrev_free, token_free.
  destruct medical_abbrevs as [|kv0 rest]; [discriminate|].
  apply andb_true_iff in H. destruct H as [H _].
  apply andb_true_iff in H. destruct H as [H H5].
  apply andb_true_iff in H. destruct H as [H H4].
  apply andb_true_iff in H. destruct H as [H H3].
  apply andb_true_iff in H. destruct H as [H1 H2].
  apply Nat.eqb_eq in H2. pose proof (combine_eq _ _ H2 H1) as Ek.
  cbn [forallb tl]. fold (key kv0). rewrite Ek. f_equal.
  - rewrite <- (flat_tokenize s) at 1.
    apply (nomatch_flat_slash mg dl H3 H4 (tokenize s) None), wf_tokenize.
  - apply forallb_ext_in. intros kv Hkv. fold (key kv).
    rewrite forallb_forall in H5.
    rewrite <- (flat_tokenize s) at 1.
    apply (nomatch_flat (key kv) (H5 kv Hkv) (tokenize s) None), wf_tokenize.
Qed.

(** two texts with the same words between the same kind of separators
    have the same abbreviations *)
Lemma abbrev_free_alpha (s s' : str) :
  alpha true s = alpha true s' -> abbrev_free s = abbrev_free s'.
Proof.
  intros E. rewrite !abbrev_free_tokens.
  rewrite <- (token_free_talpha (tokenize s) true).
  rewrite <- (token_free_talpha (tokenize s') true).
  rewrite <- !tokenize_alpha, E. reflexivity.
Qed.

End AlphaFacts.

(** The guarantees of the normalizer, and the normalizer on a text that
    has them. *)

Module IdempotenceFacts.
Import PyStr PdfProcessor Props NormalForm CharFacts SubFacts NormalizerFacts.
Import ScanFacts ClassFacts ChainFacts PunctFacts.
Import FixpointFacts WordFacts TokenFacts SlashFacts AbbrevFacts AlphaFacts.

(** *** What the normalizer guarantees of its result *)

Lemma preprocess_allowed (x : str) :
  Forall (fun c => allowed c = true) (preprocess_medical_text x).
Proof.
  unfold preprocess_medical_text. cbv zeta.
  apply Forall_strip, fix_punctuation_Forall; [reflexivity|].
  apply remove_special_allowed.
Qed.

Lemma space_is_space : blank_is_space " "%char.
Proof. intros _. reflexivity. Qed.

Lemma preprocess_blank_is_space (x : str) :
  Forall blank_is_space (preprocess_medical_text x).
Proof.
  unfold preprocess_medical_text. cbv zeta.
  apply Forall_strip, fix_punctuation_Forall; [apply space_is_space|].
  apply remove_special_blank, paragraph_breaks_blank,
    collapse_spaces_blank_is_space.
Qed.

Lemma fix_punctuation_scans (t : str) :
  fix_punctuation t = respace_from None (unspace_from None t).
Proof. reflexivity. Qed.

Lemma preprocess_blank_punct (x : str) :
  chain blank_punct None (preprocess_medical_text x).
Proof.
  unfold preprocess_medical_text. cbv zeta.
  apply chain_strip. rewrite fix_punctuation_scans.
  apply respace_blank_punct, unspace_blank_punct. discriminate.
Qed.

Lemma preprocess_stop_capital (x : str) :
  chain stop_capital None (preprocess_medical_text x).
Proof.
  unfold preprocess_medical_text. cbv zeta.
  apply chain_strip. rewrite fix_punctuation_scans.
  apply respace_stop_capital. discriminate.
Qed.

Lemma preprocess_stripped (x : str) :
  strip (preprocess_medical_text x) = preprocess_medical_text x.
Proof. unfold preprocess_medical_text. cbv zeta. apply strip_strip. Qed.

(** the steps behind the expansion change no word and put nothing but a
    solidus between two words that had something else between them *)
Lemma preprocess_alpha (x : str) :
  alpha true (preprocess_medical_text x)
  = alpha true (expand_abbrevs (remove_headers x)).
Proof.
  unfold preprocess_medical_text. cbv zeta.
  rewrite alpha_strip, alpha_fix_punctuation, alpha_remove_special.
  rewrite paragraph_breaks_fixed by apply collapse_spaces_no_newline.
  apply alpha_collapse_spaces.
Qed.

Lemma preprocess_abbrev_free (x : str) :
  abbrev_free (preprocess_medical_text x) = true.
Proof.
  rewrite (abbrev_free_alpha _ _ (preprocess_alpha x)).
  apply expand_abbrevs_free.
Qed.

(** *** The steps on a normalized text *)

Lemma expand_abbrevs_fixed (y : str) :
  abbrev_free y = true -> expand_abbrevs y = y.
Proof.
  unfold abbrev_free, expand_abbrevs.
  induction medical_abbrevs as [|kv l IH]; intros H; [reflexivity|].
  cbn [forallb] in H. apply andb_true_iff in H. destruct H as [H1 H2].
  cbn [fold_left]. unfold expand_abbrev at 2. unfold sub.
  rewrite nomatch_sub by exact H1. apply IH, H2.
Qed.

(** no step adds a second blank next to a blank, unless a character
    outside the allow-list is replaced *)
Lemma preprocess_no_double_space (x : str) :
  Forall (fun c => allowed c = true) (expand_abbrevs (remove_headers x)) ->
  no_double_space (preprocess_medical_text x).
Proof.
  intros H. unfold preprocess_medical_text, no_double_space. cbv zeta.
  set (e := expand_abbrevs (remove_headers x)) in *.
  rewrite (paragraph_breaks_fixed (collapse_spaces e))
    by apply collapse_spaces_no_newline.
  rewrite remove_special_fixed.
  - apply chain_strip. rewrite fix_punctuation_scans.
    apply respace_blank_blank, unspace_blank_blank.
    unfold collapse_spaces, sub. apply collapse_chain. discriminate.
  - unfold collapse_spaces. apply sub_Forall; [|exact H].
    intros _ _ _ _ _. repeat constructor.
Qed.

(** a text with the guarantees of the normalizer and no two adjacent
    blanks is returned as it is *)
Lemma preprocess_fixed (y : str) :
  Forall no_newline y ->
  Forall (fun c => allowed c = true) y ->
  Forall blank_is_space y ->
  chain blank_punct None y ->
  chain stop_capital None y ->
  strip y = y ->
  abbrev_free y = true ->
  no_double_space y ->
  preprocess_medical_text y = y.
Proof.
  intros Hn Ha Hb Hp Hc Hs Hf Hd.
  unfold preprocess_medical_text. cbv zeta.
  rewrite (remove_headers_fixed y Hn), (expand_abbrevs_fixed y Hf).
  rewrite (collapse_spaces_fixed y Hb Hd), (paragraph_breaks_fixed y Hn).
  rewrite (remove_special_fixed y Ha), fix_punctuation_scans.
  rewrite (unspace_fixed y None None Hp).
  rewrite (respace_fixed y None None Hb Hd Hc). exact Hs.
Qed.

Lemma preprocess_fixed_result (x : str) :
  no_double_space (preprocess_medical_text x) ->
  preprocess_medical_text (preprocess_medical_text x)
  = preprocess_medical_text x.
Proof.
  intros H. apply preprocess_fixed.
  - apply preprocess_no_newline.
  - apply preprocess_allowed.
  - apply preprocess_blank_is_space.
  - apply preprocess_blank_punct.
  - apply preprocess_stop_capital.
  - apply preprocess_stripped.
  - apply preprocess_abbrev_free.
  - exact H.
Qed.

Lemma expansions_allowed :
  forallb (fun kv => forallb allowed (lit (snd kv))) medical_abbrevs = true.
Proof. vm_compute. reflexivity. Qed.

Lemma expand_abbrevs_allowed (t : str) :
  Forall (fun c => allowed c = true) t ->
  Forall (fun c => allowed c = true) (expand_abbrevs t).
Proof.
  pose proof expansions_allowed as E. unfold expand_abbrevs. revert t.
  induction medical_abbrevs as [|kv l IH]; intros t H; [exact H|].
  cbn [forallb] in E. apply andb_true_iff in E. destruct E as [E1 E2].
  cbn [fold_left]. apply (IH E2). unfold expand_abbrev.
  apply sub_Forall; [|exact H].
  intros _ _ _ _ _. apply forallb_Forall, E1.
Qed.

Lemma remove_headers_allowed (t : str) :
  Forall (fun c => allowed c = true) t ->
  Forall (fun c => allowed c = true) (remove_headers t).
Proof.
  intros H. unfold remove_headers. cbv zeta.
  repeat (apply sub_Forall; [intros _ _ _ _ _; repeat constructor|]).
  exact H.
Qed.

End IdempotenceFacts.

(** C7 (amended).  Normalizing a normalized text changes nothing exactly
    when the normalized text has no two adjacent blanks; this is so for
    every text made of characters of the allow-list. *)
Theorem preprocess_idempotent_iff :
  (forall x : PyStr.str,
      PdfProcessor.preprocess_medical_text (PdfProcessor.preprocess_medical_text x)
      = PdfProcessor.preprocess_medical_text x
      <-> NormalForm.no_double_space (PdfProcessor.preprocess_medical_text x))
  /\ (forall x : PyStr.str,
         Forall (fun c => PdfProcessor.allowed c = true) x ->
         PdfProcessor.preprocess_medical_text (PdfProcessor.preprocess_medical_text x)
         = PdfProcessor.preprocess_medical_text x).
Proof.
  split.
  - intros x. split.
    + intros E. rewrite <- E.
      apply IdempotenceFacts.preprocess_no_double_space.
      rewrite FixpointFacts.remove_headers_fixed
        by apply NormalizerFacts.preprocess_no_newline.
      rewrite IdempotenceFacts.expand_abbrevs_fixed
        by apply IdempotenceFacts.preprocess_abbrev_free.
      apply IdempotenceFacts.preprocess_allowed.
    + apply IdempotenceFacts.preprocess_fixed_result.
  - intros x H. apply IdempotenceFacts.preprocess_fixed_result.
    apply IdempotenceFacts.preprocess_no_double_space.
    apply IdempotenceFacts.expand_abbrevs_allowed,
      IdempotenceFacts.remove_headers_allowed, H.
Qed.

Lemma preprocess_idempotent_witness :
  Forall (fun c => PdfProcessor.allowed c = true)
         (PyStr.lit "Page 2: BP 120/80 mmHg .  Rest")
  /\ PdfProcessor.preprocess_medical_text
       (PdfProcessor.preprocess_medical_text
          (PyStr.lit "Page 2: BP 120/80 mmHg .  Rest"))
     = PdfProcessor.preprocess_medical_text
         (PyStr.lit "Page 2: BP 120/80 mmHg .  Rest").
Proof.
  assert (H : Forall (fun c => PdfProcessor.allowed c = true)
                     (PyStr.lit "Page 2: BP 120/80 mmHg .  Rest")).
  { apply WordFacts.forallb_Forall. vm_compute. reflexivity. }
  split; [exact H|].
  apply (proj2 preprocess_idempotent_iff), H.
Defined.

Set Implicit Arguments.

(** ** The chunker *)

Module ChunkerFacts.
Import PyStr PdfProcessor Props.

Lemma enhance_enumerate (chunks : list str) : forall i,
  map (fun c => (chunk_id (metadata c), text c)) (enhance i chunks)
  = filter long_enough (combine (seq i (length chunks)) (map strip chunks)).
Proof.
  induction chunks as [|chunk rest IH]; intros i; simpl; [reflexivity|].
  unfold long_enough at 1. simpl.
  destruct (length (strip chunk) <? 50); simpl; rewrite IH; reflexivity.
Qed.

Lemma enhance_long (chunks : list str) : forall i,
  Forall (fun c => 50 <= length (text c)
                   /\ length_ (metadata c) = length (text c))
         (enhance i chunks).
Proof.
  induction chunks as [|chunk rest IH]; intros i; simpl; [constructor|].
  destruct (length (strip chunk) <? 50) eqn:E; [apply IH|].
  constructor; [|apply IH]. simpl.
  apply Nat.ltb_ge in E. auto.
Qed.

Lemma enhance_ids_from (chunks : list str) : forall i,
  Forall (fun n => i <= n) (ids (enhance i chunks)).
Proof.
  induction chunks as [|chunk rest IH]; intros i; simpl; [constructor|].
  assert (H : Forall (fun n => i <= n) (ids (enhance (S i) rest))).
  { eapply Forall_impl; [|apply IH]. simpl. intros; lia. }
  destruct (length (strip chunk) <? 50); [exact H|].
  constructor; [simpl; lia|exact H].
Qed.

Lemma enhance_ids_increasing (chunks : list str) : forall i,
  StronglySorted lt (ids (enhance i chunks)).
Proof.
  induction chunks as [|chunk rest IH]; intros i; simpl; [constructor|].
  destruct (length (strip chunk) <? 50); [apply IH|].
  constructor; [apply IH|].
  eapply Forall_impl; [|apply (enhance_ids_from rest (S i))].
  simpl. intros; lia.
Qed.

End ChunkerFacts.

(** C5 (counterexample).  When the splitter returns a two-character chunk
    followed by a long one, the short chunk is dropped and the only passage
    produced carries id 1: the ids are not 0, 1, 2, ... *)
Lemma chunk_ids_not_gap_free :
  let out := PdfProcessor.create_smart_chunks Examples.split_paragraphs
               Examples.two_paragraphs in
  Props.ids out = [1] /\ Props.ids out <> seq 0 (length out).
Proof. vm_compute. split; [reflexivity|discriminate]. Qed.

(** C5 (amended).  For every splitter and every text, each passage produced
    has a trimmed text of at least 50 characters; the passages are exactly
    the trimmed chunks of at least 50 characters, in order, and the id of a
    passage is the position its chunk has in the output of the splitter
    (discarded chunks counted); hence the ids are strictly increasing. *)
Theorem create_smart_chunks_ids :
  forall (split_text : PyStr.str -> list PyStr.str) (t : PyStr.str),
    let out := PdfProcessor.create_smart_chunks split_text t in
    Forall (fun c => 50 <= length (PdfProcessor.text c)) out
    /\ map (fun c => (PdfProcessor.chunk_id (PdfProcessor.metadata c),
                      PdfProcessor.text c)) out
       = filter Props.long_enough
                (Props.enumerate (map PyStr.strip (split_text t)))
    /\ StronglySorted lt (Props.ids out).
Proof.
  intros split_text t out. subst out. unfold PdfProcessor.create_smart_chunks.
  split; [|split].
  - eapply Forall_impl; [|apply ChunkerFacts.enhance_long].
    simpl. intros c [H _]. exact H.
  - rewrite ChunkerFacts.enhance_enumerate.
    unfold Props.enumerate. rewrite length_map. reflexivity.
  - apply ChunkerFacts.enhance_ids_increasing.
Qed.

(** ** The domain pre-filter *)

(** C9 (counterexample).  The claim has the first query accepted although
    "hypertension" is not in the keyword list; the word is in the list of
    [validate_medical_query]. *)
Lemma hypertension_is_an_indicator :
  ~ (RetrievalQA.validate_medical_query (PyStr.lit "What is hypertension?") = true
     /\ ~ In "hypertension"%string RetrievalQA.medical_indicators
     /\ RetrievalQA.validate_medical_query (PyStr.lit "What's the weather today?") = false).
Proof.
  intros [_ [H _]]. apply H. unfold RetrievalQA.medical_indicators.
  simpl. repeat (first [left; reflexivity | right]).
Qed.

(** C9 (amended).  "What is hypertension?" is classified as in-domain, and
    both "hypertension" and "what is" are keywords of the list that occur in
    the lower-cased query; "What's the weather today?" is classified as
    out-of-domain. *)
Theorem validate_medical_query_scenario :
  let q := PyStr.lower (PyStr.lit "What is hypertension?") in
  RetrievalQA.validate_medical_query (PyStr.lit "What is hypertension?") = true
  /\ In "hypertension"%string RetrievalQA.medical_indicators
  /\ PyStr.contains (PyStr.lit "hypertension") q = true
  /\ In "what is"%string RetrievalQA.medical_indicators
  /\ PyStr.contains (PyStr.lit "what is") q = true
  /\ RetrievalQA.validate_medical_query (PyStr.lit "What's the weather today?") = false.
Proof.
  cbv zeta. unfold RetrievalQA.medical_indicators.
  repeat split; try (vm_compute; reflexivity);
    simpl; repeat (first [left; reflexivity | right]).
Qed.

(** ** The vector database *)

Module VectorFacts.
Import PyStr PdfProcessor Py VectorDatabase Props.

Lemma same_store_refl g : same_store g g.
Proof. repeat split. Qed.

Lemma same_store_trans g1 g2 g3 :
  same_store g1 g2 -> same_store g2 g3 -> same_store g1 g3.
Proof.
  intros (A1 & B1 & C1) (A2 & B2 & C2). repeat split; congruence.
Qed.

Lemma framed_ret {A} (a : A) : framed (ret a).
Proof. intros g o g' H. inversion H; subst. apply same_store_refl. Qed.

Lemma framed_raise {A} : framed (@raise Globals A).
Proof. intros g o g' H. inversion H; subst. apply same_store_refl. Qed.

Lemma framed_get : framed (@get Globals).
Proof. intros g o g' H. inversion H; subst. apply same_store_refl. Qed.

Lemma framed_of_option {A} (o : option A) : framed (@of_option Globals A o).
Proof. destruct o; [apply framed_ret|apply framed_raise]. Qed.

Lemma framed_of_outcome {A} (o : outcome A) : framed (@of_outcome Globals A o).
Proof. intros g r g' H. inversion H; subst. apply same_store_refl. Qed.

Lemma framed_bind {A B} (c : M Globals A) (k : A -> M Globals B) :
  framed c -> (forall a, framed (k a)) -> framed (bind c k).
Proof.
  intros Hc Hk g o g' H. unfold bind in H.
  destruct (c g) as [[a|] g1] eqn:E.
  - eapply same_store_trans; [eapply Hc, E|eapply Hk, H].
  - inversion H; subst. eapply Hc, E.
Qed.

(** how a sequence of two computations runs *)
Lemma bind_run {S A B} (c : M S A) (k : A -> M S B) s o s' :
  bind c k s = (o, s') ->
  (exists a s1, c s = (Ok a, s1) /\ k a s1 = (o, s'))
  \/ (c s = (Raise, s') /\ o = Raise).
Proof.
  unfold bind. destruct (c s) as [[a|] s1]; intros H.
  - left. eauto.
  - right. inversion H; subst. auto.
Qed.

Lemma framed_modify (f : Globals -> Globals) :
  (forall g, same_store g (f g)) -> framed (modify f).
Proof. intros Hf g o g' H. inversion H; subst. apply Hf. Qed.

Lemma framed_try_except {A} (c h : M Globals A) :
  framed c -> framed h -> framed (try_except c h).
Proof.
  intros Hc Hh g o g' H. unfold try_except in H.
  destruct (c g) as [[a|] g1] eqn:E.
  - inversion H; subst. eapply Hc, E.
  - eapply same_store_trans; [eapply Hc, E|eapply Hh, H].
Qed.

Section WithLibrary.
Variable L : Library.

Lemma framed_initialize_embeddings : framed (initialize_embeddings L).
Proof.
  unfold initialize_embeddings.
  apply framed_bind; [apply framed_of_option|intros m].
  apply framed_bind; [apply framed_modify; intros g; repeat split|intros _].
  apply framed_bind; [apply framed_modify; intros g; repeat split|intros _].
  apply framed_ret.
Qed.

(** Creating the index where there is none keeps the count at zero. *)
Lemma create_vector_index_frame g o g' :
  vector_index g = None ->
  create_vector_index L g = (o, g') -> same_store g g'.
Proof.
  intros Hnone H.
  unfold create_vector_index, initialize_embeddings, bind, get, of_option,
    modify, ret, raise in H.
  destruct (dimension g) eqn:D; simpl in H.
  - rewrite D in H. simpl in H. inversion H; subst.
    unfold same_store, index_count. simpl. rewrite Hnone. auto.
  - destruct (load_model L); simpl in H; inversion H; subst;
      unfold same_store, index_count; simpl; rewrite ?Hnone; auto.
Qed.

Lemma create_vector_index_sets g index g' :
  create_vector_index L g = (Ok index, g') -> vector_index g' = Some index.
Proof.
  unfold create_vector_index, initialize_embeddings, bind, get, of_option,
    modify, ret, raise.
  destruct (dimension g) eqn:D; simpl.
  - rewrite D. simpl. intros H; inversion H; subst. reflexivity.
  - destruct (load_model L); simpl; intros H; inversion H; subst.
    reflexivity.
Qed.

Lemma batch_length (texts : list str) i :
  length (firstn batch_size (skipn i texts)) = min batch_size (length texts - i).
Proof. rewrite length_firstn, length_skipn. reflexivity. Qed.

Lemma encode_batches_run (texts : list str) starts : forall acc g o g',
  encode_batches L texts starts acc g = (o, g') ->
  g' = g
  /\ forall r, o = Ok r -> encode_row_per_text L ->
       length r = length acc
                  + list_sum (map (fun i => min batch_size (length texts - i)) starts).
Proof.
  induction starts as [|i later IH]; intros acc g o g' H;
    cbn [encode_batches] in H.
  - inversion H; subst. split; [reflexivity|].
    intros r Hr _. inversion Hr; subst. simpl. lia.
  - apply bind_run in H. destruct H as [(e & g1 & H1 & H2)|[H1 Ho]].
    + unfold of_option in H1. destruct (encode L _) as [m|] eqn:E;
        inversion H1; subst.
      apply IH in H2. destruct H2 as [Hg Hlen]. split; [exact Hg|].
      intros r Hr Hrows. rewrite (Hlen r Hr Hrows), length_app.
      rewrite (Hrows _ _ E), batch_length. simpl. lia.
    + unfold of_option in H1. destruct (encode L _); inversion H1; subst.
      split; [reflexivity|]. intros r Hr. discriminate.
Qed.

Lemma batches_cover (len n : nat) :
  list_sum (map (fun i => min batch_size (len - i))
                (map (fun j => j * batch_size) (seq 0 n)))
  = min len (n * batch_size).
Proof.
  induction n as [|n IH]; [simpl; lia|].
  rewrite seq_S, !map_app, list_sum_app, IH. cbn [map list_sum fold_right].
  unfold batch_size. lia.
Qed.

Lemma range_step_cover (len : nat) :
  list_sum (map (fun i => min batch_size (len - i)) (range_step len batch_size))
  = len.
Proof.
  unfold range_step. rewrite batches_cover. unfold batch_size.
  pose proof (Nat.div_mod_eq (len + 32 - 1) 32) as D.
  pose proof (Nat.mod_upper_bound (len + 32 - 1) 32) as U.
  lia.
Qed.

Lemma np_array_run (l : list vec) g o g' :
  np_array l g = (o, g') ->
  g' = g /\ forall x, o = Ok x -> rows x = l /\ (columns x = None <-> l = []).
Proof.
  unfold np_array. destruct l as [|r others].
  - intros H; inversion H; subst. split; [reflexivity|].
    intros x Hx; inversion Hx; subst. simpl. tauto.
  - destruct (forallb _ _); intros H; inversion H; subst.
    + split; [reflexivity|]. intros x Hx; inversion Hx; subst. simpl.
      split; [reflexivity|]. split; discriminate.
    + split; [reflexivity|]. intros x Hx; discriminate.
Qed.

Lemma framed_generate_embeddings texts : framed (generate_embeddings L texts).
Proof.
  unfold generate_embeddings.
  apply framed_bind; [apply framed_get|intros g0].
  apply framed_bind.
  { destruct (embedding_model g0); [apply framed_ret|].
    apply framed_bind; [apply framed_initialize_embeddings|intros; apply framed_ret]. }
  intros _. apply framed_bind.
  - intros g o g' H. apply encode_batches_run in H. destruct H as [-> _].
    apply same_store_refl.
  - intros l g o g' H. apply np_array_run in H. destruct H as [-> _].
    apply same_store_refl.
Qed.

(** A successful embedding has one row for every text. *)
Lemma generate_embeddings_rows texts g x g' :
  encode_row_per_text L ->
  generate_embeddings L texts g = (Ok x, g') ->
  length (rows x) = length texts.
Proof.
  intros Hrows H. unfold generate_embeddings in H.
  apply bind_run in H. destruct H as [(g0 & g1 & _ & H)|[_ H]]; [|discriminate].
  apply bind_run in H. destruct H as [(u & g2 & _ & H)|[_ H]]; [|discriminate].
  apply bind_run in H. destruct H as [(l & g3 & H1 & H2)|[_ H]]; [|discriminate].
  apply encode_batches_run in H1. destruct H1 as [_ Hl].
  apply np_array_run in H2. destruct H2 as [_ Hx].
  destruct (Hx x eq_refl) as [-> _].
  rewrite (Hl l eq_refl Hrows), range_step_cover. reflexivity.
Qed.

Lemma normalize_L2_run x g o g' :
  normalize_L2 L x g = (o, g') ->
  g' = g /\ forall y, o = Ok y ->
              length (rows y) = length (rows x) /\ columns y = columns x.
Proof.
  unfold normalize_L2. destruct (columns x); intros H; inversion H; subst.
  - split; [reflexivity|]. intros y Hy; inversion Hy; subst. simpl.
    rewrite length_map. auto.
  - split; [reflexivity|]. intros y Hy; discriminate.
Qed.

Lemma index_add_ntotal index x index' :
  index_add index x = Ok index' ->
  ntotal index' = ntotal index + length (rows x).
Proof.
  unfold index_add. destruct (columns x); [|discriminate].
  destruct (_ =? _); [|discriminate].
  intros H; inversion H; subst. unfold ntotal. simpl. apply length_app.
Qed.

End WithLibrary.

End VectorFacts.

(** *** Retrieval *)

Module SearchFacts.
Import PyStr PdfProcessor Py VectorDatabase Props VectorFacts.



(** The loop appends, in order, one result for every hit that passes the
    test, and raises when a passing hit has no text or metadata. *)
Lemma collect_spec texts metadatas (hits : list (Q * Z)) : forall acc results,
  collect texts metadatas hits acc = Ok results ->
  exists new, results = acc ++ new
              /\ Forall2 (result_of texts metadatas) (filter kept hits) new.
Proof.
  induction hits as [|[s idx] later IH]; intros acc results H; simpl in H.
  - inversion H; subst. exists []. rewrite app_nil_r. split; constructor.
  - simpl. unfold kept at 1. simpl.
    destruct (negb (idx =? -1)%Z && Qgtb s relevance_threshold).
    + destruct (getitem texts idx) as [t|] eqn:Et; [|discriminate].
      destruct (getitem metadatas idx) as [m|] eqn:Em; [|discriminate].
      apply IH in H. destruct H as (new & -> & Hnew).
      exists ((t, s, m) :: new). rewrite <- app_assoc. split; [reflexivity|].
      constructor; [|exact Hnew]. repeat split; assumption.
    + apply IH, H.
Qed.






Section WithLibrary.
Variable L : Library.

(** A completed search returns the results of the hits that pass the test,
    looked up in the store. *)
Lemma similarity_search_results query k g results g' :
  similarity_search L query k g = (Ok results, g') ->
  results = []
  \/ exists index v,
       vector_index g = Some index
       /\ Forall2 (result_of (vector_texts g') (vector_metadatas g'))
                  (filter kept (hnsw_search L index v k)) results.
Proof.
  intros H. unfold similarity_search in H.
  unfold bind at 1, get at 1 in H.
  destruct (vector_index g) as [index|] eqn:Hi;
    [|inversion H; auto].
  destruct (ntotal index =? 0); [inversion H; auto|].
  right. exists index.
  apply bind_run in H. destruct H as [(u & g1 & _ & H)|[_ H]]; [|discriminate].
  apply bind_run in H. destruct H as [(e & g2 & _ & H)|[_ H]]; [|discriminate].
  apply bind_run in H. destruct H as [(x & g3 & _ & H)|[_ H]]; [|discriminate].
  apply bind_run in H. destruct H as [(y & g4 & _ & H)|[_ H]]; [|discriminate].
  apply bind_run in H. destruct H as [(hits & g5 & Hh & H)|[_ H]]; [|discriminate].
  unfold index_search in Hh.
  destruct (columns y); [|discriminate].
  destruct (rows y) as [|v rest]; [discriminate|].
  destruct (_ && _); [|discriminate].
  inversion Hh; subst hits g5. exists v. split; [reflexivity|].
  unfold bind, get, of_outcome in H.
  destruct (collect _ _ _ _) as [res|] eqn:Ec; inversion H; subst.
  apply collect_spec in Ec. destruct Ec as (new & -> & Hnew). exact Hnew.
Qed.



End WithLibrary.

End SearchFacts.

(** C1.  [add_to_vector_database] is atomic on the three collections and
    preserves the count invariant.  Whatever the library does ([encode] is
    only required to return one row per text): if the call raises, at any
    step, the index count, the stored texts and the stored metadata are as
    before the call; if it completes, the index count has grown by exactly
    the number of passages, their texts and metadata have been appended in
    order, and index count, number of texts and number of metadata entries
    are all equal afterwards when they were equal before. *)
Theorem add_to_vector_database_atomic :
  forall (L : VectorDatabase.Library),
    Props.encode_row_per_text L ->
    forall (chunks : list PdfProcessor.Chunk) (g g' : VectorDatabase.Globals)
           (o : Py.outcome unit),
      VectorDatabase.add_to_vector_database L chunks g = (o, g') ->
      match o with
      | Py.Raise => Props.same_store g g'
      | Py.Ok _ =>
          Props.index_count g' = Props.index_count g + length chunks
          /\ VectorDatabase.vector_texts g'
             = VectorDatabase.vector_texts g ++ map PdfProcessor.text chunks
          /\ VectorDatabase.vector_metadatas g'
             = VectorDatabase.vector_metadatas g ++ map PdfProcessor.metadata chunks
          /\ (Props.count_invariant g -> Props.count_invariant g')
      end.
Proof.
  intros L Hrows chunks g g' o H.
  unfold VectorDatabase.add_to_vector_database in H.
  apply VectorFacts.bind_run in H.
  destruct H as [(g0 & g1 & H0 & H)|[H0 ->]];
    [|inversion H0; subst; apply VectorFacts.same_store_refl].
  inversion H0; subst g0 g1; clear H0.
  (* the index is created when there is none *)
  apply VectorFacts.bind_run in H.
  assert (Hcreate : forall o1 g1,
             (match VectorDatabase.vector_index g with
              | Some _ => Py.ret tt
              | None => VectorDatabase.create_vector_index L;;; Py.ret tt
              end) g = (o1, g1) -> Props.same_store g g1).
  { intros o1 g1 E. destruct (VectorDatabase.vector_index g) eqn:Hi.
    - inversion E; subst. apply VectorFacts.same_store_refl.
    - apply VectorFacts.bind_run in E.
      destruct E as [(i & g2 & E1 & E2)|[E1 _]].
      + inversion E2; subst.
        eapply VectorFacts.create_vector_index_frame; eauto.
      + eapply VectorFacts.create_vector_index_frame; eauto. }
  destruct H as [(u & g1 & H1 & H)|[H1 ->]]; [|eapply Hcreate, H1].
  apply Hcreate in H1.
  (* embedding and normalisation *)
  apply VectorFacts.bind_run in H.
  destruct H as [(x & g2 & H2 & H)|[H2 ->]];
    [|eapply VectorFacts.same_store_trans;
      [exact H1|eapply VectorFacts.framed_generate_embeddings, H2]].
  pose proof (VectorFacts.generate_embeddings_rows _ _ Hrows H2) as Hx.
  apply VectorFacts.framed_generate_embeddings in H2.
  apply VectorFacts.bind_run in H.
  destruct H as [(y & g3 & H3 & H)|[H3 ->]].
  2:{ apply VectorFacts.normalize_L2_run in H3. destruct H3 as [-> _].
      eapply VectorFacts.same_store_trans; eassumption. }
  apply VectorFacts.normalize_L2_run in H3. destruct H3 as [-> Hy].
  destruct (Hy y eq_refl) as [Hy1 _]. clear Hy.
  assert (Hs : Props.same_store g g2)
    by (eapply VectorFacts.same_store_trans; eassumption).
  clear H1 H2.
  (* the index is extended, then the two lists *)
  unfold Py.bind, Py.get, Py.of_option, Py.of_outcome, Py.modify in H.
  destruct (VectorDatabase.vector_index g2) as [index|] eqn:Hi; simpl in H;
    [|inversion H; subst; exact Hs].
  destruct (VectorDatabase.index_add index y) as [index'|] eqn:Ha; simpl in H;
    inversion H; subst; [|exact Hs].
  apply VectorFacts.index_add_ntotal in Ha.
  destruct Hs as (Hc & Ht & Hm).
  assert (Hcount : Props.index_count
                     (VectorDatabase.set_vector_metadatas
                        (VectorDatabase.vector_metadatas g2 ++ map PdfProcessor.metadata chunks)
                        (VectorDatabase.set_vector_texts
                           (VectorDatabase.vector_texts g2 ++ map PdfProcessor.text chunks)
                           (VectorDatabase.set_vector_index (Some index') g2)))
                   = Props.index_count g + length chunks).
  { unfold Props.index_count in *. simpl in *. rewrite Hi in Hc.
    rewrite Ha, Hy1, Hx, length_map. lia. }
  split; [exact Hcount|].
  split; [simpl; rewrite Ht; reflexivity|].
  split; [simpl; rewrite Hm; reflexivity|].
  intros [I1 I2]. split.
  - rewrite Hcount. simpl. rewrite Ht, length_app, length_map. lia.
  - simpl. rewrite Ht, Hm, !length_app, !length_map. lia.
Qed.

(** C1 (witness).  With a library that encodes, two passages are added to
    the empty store; with one whose [encode] raises, the store is unchanged. *)
Lemma add_to_vector_database_atomic_witness :
  (Props.index_count
     (snd (VectorDatabase.add_to_vector_database Examples.toy_library
             Examples.two_passages VectorDatabase.initial)) = 2
   /\ Props.count_invariant
        (snd (VectorDatabase.add_to_vector_database Examples.toy_library
                Examples.two_passages VectorDatabase.initial)))
  /\ Props.same_store VectorDatabase.initial
       (snd (VectorDatabase.add_to_vector_database Examples.failing_library
               Examples.two_passages VectorDatabase.initial)).
Proof.
  assert (Hok : Props.encode_row_per_text Examples.toy_library).
  { intros batch m E. inversion E; subst. apply length_map. }
  assert (Hko : Props.encode_row_per_text Examples.failing_library).
  { intros batch m E. discriminate E. }
  split.
  - pose proof (add_to_vector_database_atomic Hok Examples.two_passages
                  VectorDatabase.initial) as T.
    destruct (VectorDatabase.add_to_vector_database Examples.toy_library
                Examples.two_passages VectorDatabase.initial) as [o g'] eqn:E.
    assert (Ho : o = Py.Ok tt).
    { vm_compute in E. inversion E. reflexivity. }
    specialize (T g' o eq_refl). rewrite Ho in T.
    destruct T as (Hc & _ & _ & Hinv). split.
    + simpl. rewrite Hc. reflexivity.
    + apply Hinv. split; reflexivity.
  - pose proof (add_to_vector_database_atomic Hko Examples.two_passages
                  VectorDatabase.initial) as T.
    destruct (VectorDatabase.add_to_vector_database Examples.failing_library
                Examples.two_passages VectorDatabase.initial) as [o g'] eqn:E.
    assert (Ho : o = Py.Raise).
    { vm_compute in E. inversion E. reflexivity. }
    specialize (T g' o eq_refl). rewrite Ho in T. exact T.
Defined.


Module ExampleFacts.
Import PyStr PdfProcessor Py VectorDatabase Props Examples.

Lemma toy_library_row_per_text : encode_row_per_text toy_library.
Proof. intros batch m E. inversion E; subst. apply length_map. Qed.

End ExampleFacts.


(** ** Persistence *)

Module PersistenceFacts.
Import PyStr PdfProcessor Py VectorDatabase Props VectorFacts.

Lemma str_eqb_eq (a b : str) : str_eqb a b = true <-> a = b.
Proof.
  unfold str_eqb. destruct (list_eq_dec ascii_dec a b); split; congruence.
Qed.

Lemma str_eqb_refl (a : str) : str_eqb a a = true.
Proof. apply str_eqb_eq. reflexivity. Qed.

Lemma str_eqb_neq (a b : str) : a <> b -> str_eqb a b = false.
Proof.
  intros H. destruct (str_eqb a b) eqn:E; [|reflexivity].
  apply str_eqb_eq in E. contradiction.
Qed.

Lemma paths_differ (path : str) : faiss_path path <> pkl_path path.
Proof.
  unfold faiss_path, pkl_path. intros H. apply app_inv_head in H. discriminate H.
Qed.

Lemma write_run path b dk o dk' :
  write path b dk = (o, dk') ->
  (o = Ok tt /\ open_wb_ok dk path = true /\ dk' = write_file path b dk)
  \/ (o = Raise /\ open_wb_ok dk path = false /\ dk' = dk).
Proof.
  unfold write. destruct (open_wb_ok dk path); intros H; inversion H; subst; auto.
Qed.

Lemma write_file_same path b dk : files (write_file path b dk) path = Some b.
Proof. simpl. rewrite str_eqb_refl. reflexivity. Qed.

Lemma write_file_other path b dk p :
  p <> path -> files (write_file path b dk) p = files dk p.
Proof. intros H. simpl. rewrite (str_eqb_neq H). reflexivity. Qed.

(** What a completed save has written. *)
Lemma save_run g path dk dk' :
  save_vector_database g path dk = (Ok tt, dk') ->
  dk' = write_file (pkl_path path) (side_file g)
          (if has_vectors g
           then match vector_index g with
                | Some index => write_file (faiss_path path) (FaissFile index) dk
                | None => dk
                end
           else dk).
Proof.
  intros H. unfold save_vector_database in H.
  apply bind_run in H. destruct H as [(u & d1 & H1 & H)|[_ H]]; [|discriminate].
  assert (d1 = dk).
  { unfold makedirs in H1. destruct (dirname path); [discriminate|].
    destruct (makedirs_ok dk _); inversion H1; reflexivity. }
  subst d1. clear H1.
  apply bind_run in H. destruct H as [(u2 & d2 & H2 & H)|[_ H]]; [|discriminate].
  apply write_run in H. destruct H as [(_ & _ & ->)|(H & _)]; [|discriminate].
  unfold has_vectors, side_file. f_equal.
  destruct (vector_index g) as [index|]; [|inversion H2; reflexivity].
  destruct (0 <? ntotal index); [|inversion H2; reflexivity].
  apply write_run in H2. destruct H2 as [(_ & _ & ->)|(H2 & _)];
    [reflexivity|discriminate].
Qed.




End PersistenceFacts.



(** C6 (counterexample).  On a disk where both files are missing, the load
    skips them and returns true. *)
Lemma load_missing_files_true :
  VectorDatabase.files Examples.empty_disk
    (VectorDatabase.faiss_path Examples.store_path) = None
  /\ VectorDatabase.files Examples.empty_disk
       (VectorDatabase.pkl_path Examples.store_path) = None
  /\ fst (VectorDatabase.load_vector_database Examples.toy_library
            Examples.empty_disk Examples.store_path VectorDatabase.initial)
     = Py.Ok true.
Proof. repeat split. Qed.

(** C6 (amended).  [load_vector_database] never raises: it returns a boolean
    in every case.  It returns true exactly when every file that exists can
    be read (the index file by [faiss.read_index], the side file as a
    dictionary with its three keys) and the embedding model initialises, and
    false otherwise; a missing file is not a failure: it is skipped, and the
    globals it would have set stay as they were. *)
Theorem load_vector_database_never_raises :
  forall (L : VectorDatabase.Library) (dk : VectorDatabase.Disk)
         (path : PyStr.str) (g : VectorDatabase.Globals),
  exists (b : bool) (g' : VectorDatabase.Globals),
    VectorDatabase.load_vector_database L dk path g = (Py.Ok b, g')
    /\ b = Props.load_succeeds L dk path
    /\ (VectorDatabase.files dk (VectorDatabase.faiss_path path) = None ->
        VectorDatabase.vector_index g' = VectorDatabase.vector_index g)
    /\ (VectorDatabase.files dk (VectorDatabase.pkl_path path) = None ->
        VectorDatabase.vector_texts g' = VectorDatabase.vector_texts g
        /\ VectorDatabase.vector_metadatas g' = VectorDatabase.vector_metadatas g).
Proof.
  intros L dk path g.
  unfold VectorDatabase.load_vector_database, VectorDatabase.load_body,
    Props.load_succeeds, Props.index_file_ok, Props.side_file_ok,
    VectorDatabase.initialize_embeddings, VectorDatabase.read_index,
    VectorDatabase.pickle_load,
    Py.try_except, Py.bind, Py.of_option, Py.modify, Py.ret, Py.raise.
  destruct (VectorDatabase.files dk (VectorDatabase.faiss_path path)) as [[index|data|]|];
    destruct (VectorDatabase.files dk (VectorDatabase.pkl_path path)) as [[index'|data'|]|];
    try destruct data' as [[texts|] [metadatas|] [dm|]];
    destruct (VectorDatabase.load_model L) as [m|];
    simpl; eexists; eexists;
      (split; [reflexivity|]);
      (split; [reflexivity|]);
      (split; [try discriminate; reflexivity|]);
      try discriminate; intros _; split; reflexivity.
Qed.

(** C6 (witness).  On the empty disk the load returns true and leaves the
    index, the texts and the metadata as they were. *)
Lemma load_vector_database_never_raises_witness :
  exists g',
    VectorDatabase.load_vector_database Examples.toy_library Examples.empty_disk
      Examples.store_path VectorDatabase.initial = (Py.Ok true, g')
    /\ VectorDatabase.vector_index g' = None
    /\ VectorDatabase.vector_texts g' = [].
Proof.
  destruct (load_vector_database_never_raises Examples.toy_library
              Examples.empty_disk Examples.store_path VectorDatabase.initial)
    as (b & g' & E & Hb & Hi & Ht).
  exists g'. vm_compute in Hb. subst b. split; [exact E|].
  split; [apply Hi; reflexivity|]. apply Ht. reflexivity.
Defined.

(** ** The critic loop *)

Module RetrievalFacts.
Import PyStr PdfProcessor Py VectorDatabase RetrievalQA Props VectorFacts.

Section WithClient.
Variable L : Library.
Variable format_2f : Q -> str.
Variable groq_client : Groq.

Local Abbreviation critic_loop := (critic_loop L format_2f groq_client).
Local Abbreviation draft := (draft L format_2f groq_client).
Local Abbreviation retrieve := (retrieve_relevant_context L format_2f).
Local Abbreviation complete := (chat_completion groq_client).
Local Abbreviation generate := (generate_medical_response L format_2f groq_client).

(** one turn of [while top_k <= max_top_k] *)
Lemma critic_loop_unfold query top_k retries final s :
  critic_loop query top_k retries final s =
  if le_lt_dec top_k max_top_k then
    match draft query top_k s with
    | (Raise, s') => (Raise, s')
    | (Ok c, s') =>
        if is_response_complete c then (Ok (c, retries), s')
        else critic_loop query (top_k + 1) (retries + 1) c s'
    end
  else (Ok (final, retries), s).
Proof.
  rewrite critic_loop_equation_1.
  destruct (le_lt_dec top_k max_top_k); simpl; [|reflexivity].
  destruct (draft query top_k s) as [[c|] s']; simpl; [|reflexivity].
  destruct (is_response_complete c); reflexivity.
Qed.

Lemma lift_logs {A} (c : M Globals A) s o s' :
  lift c s = (o, s') ->
  retrievals s' = retrievals s /\ completions s' = completions s.
Proof.
  unfold lift. destruct (c (globals s)) as [o1 g1].
  intros H; inversion H; subst. auto.
Qed.

Lemma retrieve_logs query k s o s' :
  retrieve query k s = (o, s') ->
  retrievals s' = retrievals s ++ [k] /\ completions s' = completions s.
Proof.
  unfold retrieve_relevant_context. intros H.
  apply bind_run in H. destruct H as [(u & s1 & H1 & H)|[H1 _]];
    [|discriminate H1].
  unfold modify in H1. injection H1 as _ <-.
  apply bind_run in H. destruct H as [(r & s2 & H2 & H)|[H2 _]].
  - apply lift_logs in H2. simpl in H2.
    destruct r; inversion H; subst; exact H2.
  - apply lift_logs in H2. exact H2.
Qed.

Lemma complete_logs prompt s o s' :
  complete prompt s = (o, s') ->
  retrievals s' = retrievals s /\ completions s' = completions s ++ [prompt].
Proof.
  unfold chat_completion, bind, get, modify, of_option. simpl.
  destruct (groq_client _ _); intros H; inversion H; subst; auto.
Qed.

Lemma draft_run query k s o s' :
  draft query k s = (o, s') ->
  (retrieve query k s = (Raise, s') /\ o = Raise)
  \/ exists context s1,
      retrieve query k s = (Ok context, s1)
      /\ ((complete (format_prompt context query) s1 = (Raise, s') /\ o = Raise)
          \/ exists response,
              complete (format_prompt context query) s1 = (Ok response, s')
              /\ o = Ok (format_medical_response response)).
Proof.
  unfold RetrievalQA.draft. intros H.
  apply bind_run in H. destruct H as [(context & s1 & H1 & H)|[H1 Ho]]; [|auto].
  right. exists context, s1. split; [exact H1|].
  apply bind_run in H. destruct H as [(response & s2 & H2 & H)|[H2 Ho]]; [|auto].
  right. exists response. inversion H; subst. auto.
Qed.

(** A turn makes one retrieval, of the breadth of the turn, and at most one
    completion call. *)
Lemma draft_logs query k s o s' :
  draft query k s = (o, s') ->
  retrievals s' = retrievals s ++ [k]
  /\ exists prompts, completions s' = completions s ++ prompts /\ length prompts <= 1.
Proof.
  intros H. apply draft_run in H.
  destruct H as [[H _]|(context & s1 & H1 & H)].
  - apply retrieve_logs in H. destruct H as [Hr Hc]. split; [exact Hr|].
    exists []. rewrite app_nil_r. auto.
  - apply retrieve_logs in H1. destruct H1 as [Hr Hc].
    assert (Hl : exists o2, complete (format_prompt context query) s1 = (o2, s')).
    { destruct H as [[H _]|(r & H & _)]; eauto. }
    destruct Hl as [o2 Hl]. apply complete_logs in Hl. destruct Hl as [Hr2 Hc2].
    split; [congruence|].
    exists [format_prompt context query]. split; [congruence|simpl; lia].
Qed.

(** From breadth [top_k] on, the loop makes at most [turns_left top_k]
    turns, of breadths [top_k], [top_k + 1], ... *)
Lemma critic_loop_calls n : forall query top_k retries final s o s',
  turns_left top_k = n ->
  critic_loop query top_k retries final s = (o, s') ->
  exists turns prompts,
    turns <= n
    /\ retrievals s' = retrievals s ++ seq top_k turns
    /\ completions s' = completions s ++ prompts
    /\ length prompts <= turns.
Proof.
  induction n as [|n IH]; intros query top_k retries final s o s' Hn H;
    rewrite critic_loop_unfold in H;
    destruct (le_lt_dec top_k max_top_k) as [Hle|Hgt];
    unfold turns_left, max_top_k in *; try lia.
  - inversion H; subst. exists 0, []. rewrite !app_nil_r. simpl. auto.
  - destruct (draft query top_k s) as [[c|] s1] eqn:Ed;
      apply draft_logs in Ed; destruct Ed as (Hr & prompts & Hc & Hp).
    + destruct (is_response_complete c).
      * inversion H; subst. exists 1, prompts. simpl. repeat split; auto; lia.
      * apply IH in H; [|unfold turns_left, max_top_k; lia].
        destruct H as (turns & more & Ht & Hr' & Hc' & Hm).
        exists (S turns), (prompts ++ more). repeat split.
        -- lia.
        -- rewrite Hr', Hr, <- app_assoc. simpl.
           replace (top_k + 1) with (S top_k) by lia. reflexivity.
        -- rewrite Hc', Hc, <- app_assoc. reflexivity.
        -- rewrite length_app. lia.
    + inversion H; subst. exists 1, prompts. simpl. repeat split; auto; lia.
Qed.

Section Chain.
Variable query : str.
Variable ss : nat -> Session.
Variable cs : nat -> str.

Local Abbreviation rejected_between :=
  (rejected_between L format_2f groq_client query ss cs).

Lemma rejected_to_the_end n : forall k retries final,
  k + n = S max_top_k -> 1 <= n ->
  rejected_between k (S max_top_k) ->
  critic_loop query k retries final (ss k)
  = (Ok (cs max_top_k, retries + n), ss (S max_top_k)).
Proof.
  unfold max_top_k.
  induction n as [|n IH]; intros k retries final Hk Hn Hrej; [lia|].
  rewrite critic_loop_unfold.
  destruct (le_lt_dec k max_top_k) as [Hle|Hgt]; unfold max_top_k in *; [|lia].
  destruct (Hrej k ltac:(lia)) as [Hd Hc]. rewrite Hd, Hc.
  destruct n as [|n].
  - assert (k = 12) by lia. subst k.
    rewrite critic_loop_unfold.
    destruct (le_lt_dec (12 + 1) max_top_k) as [Hle'|Hgt'];
      unfold max_top_k in *; [lia|]. reflexivity.
  - replace (k + 1) with (S k) by lia.
    rewrite IH; [|lia|lia|intros j Hj; apply Hrej; lia].
    do 3 f_equal. lia.
Qed.

Lemma rejected_until_raise n : forall k retries final hi s_err,
  k + n = hi -> hi <= max_top_k ->
  rejected_between k hi ->
  draft query hi (ss hi) = (Raise, s_err) ->
  critic_loop query k retries final (ss k) = (Raise, s_err).
Proof.
  unfold max_top_k.
  induction n as [|n IH]; intros k retries final hi s_err Hk Hhi Hrej Hraise;
    rewrite critic_loop_unfold;
    destruct (le_lt_dec k max_top_k) as [Hle|Hgt]; unfold max_top_k in *; try lia.
  - assert (k = hi) by lia. subst k. rewrite Hraise. reflexivity.
  - destruct (Hrej k ltac:(lia)) as [Hd Hc]. rewrite Hd, Hc.
    replace (k + 1) with (S k) by lia.
    apply IH with (hi := hi); auto; try lia.
    intros j Hj. apply Hrej. lia.
Qed.

End Chain.

End WithClient.

End RetrievalFacts.

(** C3.  For every query, whatever the collaborators do, one run of
    [generate_medical_response] makes its retrievals with the breadths
    3, 4, 5, ... in steps of one, at most 10 of them, and at most one
    completion call per retrieval, hence at most 10 completion calls; and
    when every candidate up to the one of breadth 12 is rejected, the run
    ends there and returns that last candidate, not an error. *)
Theorem generate_medical_response_bounded :
  forall (L : VectorDatabase.Library) (format_2f : Q -> PyStr.str)
         (groq_client : RetrievalQA.Groq) (query : PyStr.str)
         (s : RetrievalQA.Session),
    (exists turns prompts,
        turns <= 10
        /\ RetrievalQA.retrievals
             (snd (RetrievalQA.generate_medical_response L format_2f groq_client query s))
           = RetrievalQA.retrievals s ++ seq 3 turns
        /\ RetrievalQA.completions
             (snd (RetrievalQA.generate_medical_response L format_2f groq_client query s))
           = RetrievalQA.completions s ++ prompts
        /\ length prompts <= turns)
    /\ forall (ss : nat -> RetrievalQA.Session) (cs : nat -> PyStr.str),
        ss 3 = s ->
        Props.rejected_between L format_2f groq_client query ss cs 3 13 ->
        RetrievalQA.generate_medical_response L format_2f groq_client query s
        = (cs 12, ss 13).
Proof.
  intros L format_2f groq_client query s. split.
  - unfold RetrievalQA.generate_medical_response.
    destruct (RetrievalQA.critic_loop L format_2f groq_client query 3 0 [] s)
      as [o s'] eqn:E.
    apply RetrievalFacts.critic_loop_calls with (n := 10) in E; [|reflexivity].
    destruct o as [[final retries]|]; exact E.
  - intros ss cs <- Hrej.
    unfold RetrievalQA.generate_medical_response.
    rewrite RetrievalFacts.rejected_to_the_end with (n := 10) (cs := cs);
      [reflexivity|reflexivity|lia|exact Hrej].
Qed.

Module LoopExamples.
Import PyStr PdfProcessor Py VectorDatabase RetrievalQA Props Examples.

Lemma vague_client_rejected :
  rejected_between toy_library plain_2f vague_client fever session_at
                   (fun _ => lit "I don't know.") 3 13.
Proof.
  intros k Hk. do 3 (destruct k as [|k]; [lia|]).
  do 10 (destruct k as [|k]; [vm_compute; split; reflexivity|]). lia.
Qed.

Lemma flaky_client_rejected :
  rejected_between toy_library plain_2f flaky_client fever session_at
                   (fun _ => lit "I don't know.") 3 5.
Proof.
  intros k Hk. do 3 (destruct k as [|k]; [lia|]).
  do 2 (destruct k as [|k]; [vm_compute; split; reflexivity|]). lia.
Qed.

End LoopExamples.

(** C3 (witness).  With a completion service that always answers
    "I don't know.", the run on the empty store makes the retrievals of
    breadth 3 to 12 and ten completion calls, and returns "I don't know." *)
Lemma generate_medical_response_bounded_witness :
  RetrievalQA.generate_medical_response Examples.toy_library Examples.plain_2f
    Examples.vague_client Examples.fever (Examples.session_at 3)
  = (PyStr.lit "I don't know.", Examples.session_at 13)
  /\ RetrievalQA.retrievals (Examples.session_at 13) = seq 3 10
  /\ length (RetrievalQA.completions (Examples.session_at 13)) = 10.
Proof.
  split; [|split; reflexivity].
  apply (proj2 (generate_medical_response_bounded Examples.toy_library
                  Examples.plain_2f Examples.vague_client Examples.fever
                  (Examples.session_at 3))
           Examples.session_at (fun _ => PyStr.lit "I don't know.") eq_refl
           LoopExamples.vague_client_rejected).
Defined.

(** C8.  For every query: when the turns before breadth [hi] all ended with
    a rejected candidate and, in the turn of breadth [hi], the retrieval or
    the completion service raises, [generate_medical_response] returns the
    fixed apology, in the session reached at the raise: no further retrieval
    or completion call is made.  The function returns a string in every
    case: no exception leaves it. *)
Theorem generate_medical_response_fallback :
  forall (L : VectorDatabase.Library) (format_2f : Q -> PyStr.str)
         (groq_client : RetrievalQA.Groq) (query : PyStr.str)
         (s : RetrievalQA.Session) (hi : nat)
         (ss : nat -> RetrievalQA.Session) (cs : nat -> PyStr.str)
         (s_err : RetrievalQA.Session),
    3 <= hi <= 12 ->
    ss 3 = s ->
    Props.rejected_between L format_2f groq_client query ss cs 3 hi ->
    (RetrievalQA.retrieve_relevant_context L format_2f query hi (ss hi)
     = (Py.Raise, s_err)
     \/ exists context s1,
         RetrievalQA.retrieve_relevant_context L format_2f query hi (ss hi)
         = (Py.Ok context, s1)
         /\ RetrievalQA.chat_completion groq_client
              (RetrievalQA.format_prompt context query) s1
            = (Py.Raise, s_err)) ->
    RetrievalQA.generate_medical_response L format_2f groq_client query s
    = (PyStr.lit RetrievalQA.fallback, s_err).
Proof.
  intros L format_2f groq_client query s hi ss cs s_err Hhi <- Hrej Hraise.
  assert (Hd : RetrievalQA.draft L format_2f groq_client query hi (ss hi)
               = (Py.Raise, s_err)).
  { unfold RetrievalQA.draft, Py.bind.
    destruct Hraise as [H|(context & s1 & H1 & H2)].
    - rewrite H. reflexivity.
    - rewrite H1, H2. reflexivity. }
  unfold RetrievalQA.generate_medical_response.
  rewrite RetrievalFacts.rejected_until_raise
    with (n := hi - 3) (cs := cs) (hi := hi) (s_err := s_err);
    [reflexivity|lia|unfold RetrievalQA.max_top_k; lia|exact Hrej|exact Hd].
Qed.

(** C8 (witness).  With a completion service that fails at its third call,
    the run on the empty store ends in the turn of breadth 5 and returns
    the apology; the session shows three retrievals and three completion
    calls, the failed one included. *)
Lemma generate_medical_response_fallback_witness :
  RetrievalQA.generate_medical_response Examples.toy_library Examples.plain_2f
    Examples.flaky_client Examples.fever (Examples.session_at 3)
  = (PyStr.lit RetrievalQA.fallback, Examples.session_at 6).
Proof.
  apply generate_medical_response_fallback
    with (hi := 5) (ss := Examples.session_at)
         (cs := fun _ => PyStr.lit "I don't know.").
  - lia.
  - reflexivity.
  - exact LoopExamples.flaky_client_rejected.
  - right. exists (PyStr.lit RetrievalQA.no_context).
    eexists. split; vm_compute; reflexivity.
Defined.

Unset Implicit Arguments.

(** * Further properties of the code *)

(** ** The normalizer: what its result looks like *)

Module NormalizerResult.
Import PyStr PdfProcessor Props NormalForm CharFacts SubFacts NormalizerFacts.
Import ScanFacts ClassFacts ChainFacts PunctFacts.
Import FixpointFacts WordFacts AbbrevFacts AlphaFacts IdempotenceFacts.

(** a pattern that matches nowhere does not match at a given position *)
Lemma nomatch_at match_at (u : str) : forall prev c (v : str),
  nomatch match_at prev (u ++ c :: v) = true ->
  match_at (prev_after prev u) (c :: v) = None.
Proof.
  induction u as [|a u IH]; intros prev c v H.
  - cbn [app nomatch] in H. apply andb_true_iff in H. destruct H as [H _].
    cbn [prev_after fold_left].
    destruct (match_at prev (c :: v)); [discriminate|reflexivity].
  - cbn [app nomatch] in H. apply andb_true_iff in H. destruct H as [_ H].
    apply (IH (Some a) c v H).
Qed.

Lemma neighbours (R : ascii -> ascii -> bool) (u : str) a b (v : str) :
  chain R None (u ++ a :: b :: v) -> R a b = false.
Proof.
  intros H.
  change (u ++ a :: b :: v) with (u ++ [a] ++ b :: v) in H.
  rewrite app_assoc in H. apply (chain_last _ _ _ _ _ _ H).
Qed.

(** *** A text of blanks *)

Lemma blank_not_P c : implb (isspace c) (negb (eqc "P" c)) = true.
Proof. by_cases c. Qed.

Lemma blank_not_C c : implb (isspace c) (negb (eqc "C" c)) = true.
Proof. by_cases c. Qed.

Lemma blank_not_digit c : implb (isspace c) (negb (isdigit c)) = true.
Proof. by_cases c. Qed.

Lemma takewhile_all p (s : str) :
  Forall (fun c => p c = true) s -> takewhile p s = s.
Proof.
  induction 1 as [|c t Hc Ht IH]; [reflexivity|].
  cbn [takewhile]. rewrite Hc, IH. reflexivity.
Qed.

Lemma blank_no_header (s : str) :
  Forall (fun c => isspace c = true) s -> remove_headers s = s.
Proof.
  intros H. unfold remove_headers, sub. cbv zeta.
  assert (Hp : sub_from (header_at (lit "Page ")) (fun _ => []) 0 None s = s).
  { apply nomatch_sub.
    apply (nomatch_Forall (fun c => isspace c = true)); [|exact H].
    intros prev r Hr. unfold header_at.
    destruct r as [|c r]; [reflexivity|].
    inversion Hr as [|? ? Hc _]; subst.
    cbn [lit list_ascii_of_string startswith].
    rewrite (@implb_neg _ _ (blank_not_P c) Hc). reflexivity. }
  assert (Hc : sub_from (header_at (lit "Chapter ")) (fun _ => []) 0 None s = s).
  { apply nomatch_sub.
    apply (nomatch_Forall (fun c => isspace c = true)); [|exact H].
    intros prev r Hr. unfold header_at.
    destruct r as [|c r]; [reflexivity|].
    inversion Hr as [|? ? Hc _]; subst.
    cbn [lit list_ascii_of_string startswith].
    rewrite (@implb_neg _ _ (blank_not_C c) Hc). reflexivity. }
  rewrite Hp, Hc. apply nomatch_sub.
  apply (nomatch_Forall (fun c => isspace c = true)); [|exact H].
  intros prev r Hr. unfold page_number_at.
  destruct r as [|c r]; [reflexivity|].
  destruct (isnewline c); [|reflexivity].
  inversion Hr as [|? ? _ Hr']; subst.
  destruct r as [|d r]; [reflexivity|].
  inversion Hr' as [|? ? Hd _]; subst.
  cbn [takewhile]. rewrite (@implb_neg _ _ (blank_not_digit d) Hd). reflexivity.
Qed.

Lemma blank_no_abbreviation (s : str) :
  Forall (fun c => isspace c = true) s -> expand_abbrevs s = s.
Proof.
  intros H. apply expand_abbrevs_fixed.
  rewrite (abbrev_free_alpha s []); [vm_compute; reflexivity|].
  apply alpha_junk, Forall_blank_junk, H.
Qed.

Lemma blank_collapses c (t : str) :
  Forall (fun c => isspace c = true) (c :: t) ->
  collapse_spaces (c :: t) = lit " ".
Proof.
  intros H. unfold collapse_spaces, sub. rewrite sub_step.
  unfold spaces_at. rewrite (takewhile_all _ _ H). cbn [length].
  rewrite skipn_all. reflexivity.
Qed.

Lemma preprocess_blank (x : str) :
  Forall (fun c => isspace c = true) x -> preprocess_medical_text x = [].
Proof.
  intros H. unfold preprocess_medical_text. cbv zeta.
  rewrite (blank_no_header x H), (blank_no_abbreviation x H).
  destruct x as [|c t]; [reflexivity|].
  rewrite (blank_collapses c t H). vm_compute. reflexivity.
Qed.

End NormalizerResult.

(** X1.  Whatever the input, the text [preprocess_medical_text] returns is
    made of characters of the allow-list only, its only blank character is
    the space (no tab, no line break is left), and it has no blank at
    either end: trimming it changes nothing. *)
Theorem preprocess_output_characters :
  forall x : PyStr.str,
    Forall (fun c => PdfProcessor.allowed c = true) (PdfProcessor.preprocess_medical_text x)
    /\ Forall (fun c => PyStr.isspace c = true -> c = " "%char)
              (PdfProcessor.preprocess_medical_text x)
    /\ PyStr.strip (PdfProcessor.preprocess_medical_text x)
       = PdfProcessor.preprocess_medical_text x.
Proof.
  intros x. split; [apply IdempotenceFacts.preprocess_allowed|].
  split; [apply IdempotenceFacts.preprocess_blank_is_space|].
  apply IdempotenceFacts.preprocess_stripped.
Qed.

(** X2.  In the text [preprocess_medical_text] returns, no blank stands
    directly before one of [, . ! ? ; :], and none of [. ! ?] stands
    directly before a capital letter [A-Z]. *)
Theorem preprocess_punctuation_spacing :
  forall (x u : PyStr.str) (a b : ascii) (v : PyStr.str),
    PdfProcessor.preprocess_medical_text x = u ++ a :: b :: v ->
    (PyStr.isspace a = true -> NormalForm.ispunct b = false)
    /\ (NormalForm.isstop a = true -> PyStr.isupper b = false).
Proof.
  intros x u a b v E. split; intros Ha.
  - pose proof (IdempotenceFacts.preprocess_blank_punct x) as H.
    rewrite E in H. apply NormalizerResult.neighbours in H.
    unfold NormalForm.blank_punct in H. rewrite Ha in H. exact H.
  - pose proof (IdempotenceFacts.preprocess_stop_capital x) as H.
    rewrite E in H. apply NormalizerResult.neighbours in H.
    unfold NormalForm.stop_capital in H. rewrite Ha in H. exact H.
Qed.

Lemma preprocess_punctuation_spacing_witness :
  PdfProcessor.preprocess_medical_text (PyStr.lit "Rest , then walk .Next")
  = PyStr.lit "Rest," ++ " "%char :: "t"%char :: PyStr.lit "hen walk. Next"
  /\ (PyStr.isspace " "%char = true -> NormalForm.ispunct "t"%char = false)
  /\ (NormalForm.isstop " "%char = true -> PyStr.isupper "t"%char = false).
Proof.
  assert (E : PdfProcessor.preprocess_medical_text (PyStr.lit "Rest , then walk .Next")
              = PyStr.lit "Rest," ++ " "%char :: "t"%char :: PyStr.lit "hen walk. Next").
  { vm_compute. reflexivity. }
  split; [exact E|].
  exact (preprocess_punctuation_spacing _ _ _ _ _ E).
Defined.

(** X3.  The text [preprocess_medical_text] returns contains none of the
    twenty abbreviations as a whole word, in any letter case: at no
    position of the result does [\b] + abbreviation + [\b] match under
    [re.IGNORECASE]. *)
Theorem preprocess_leaves_no_abbreviation :
  forall x : PyStr.str,
    Forall (fun kv =>
              forall (u : PyStr.str) (c : ascii) (v : PyStr.str),
                PdfProcessor.preprocess_medical_text x = u ++ c :: v ->
                PdfProcessor.abbrev_at (PyStr.lit (fst kv))
                                       (NormalForm.prev_after None u) (c :: v)
                = None)
           PdfProcessor.medical_abbrevs.
Proof.
  intros x. apply Forall_forall. intros kv Hkv u c v E.
  pose proof (IdempotenceFacts.preprocess_abbrev_free x) as H.
  unfold NormalForm.abbrev_free in H. rewrite forallb_forall in H.
  specialize (H kv Hkv). rewrite E in H.
  apply NormalizerResult.nomatch_at, H.
Qed.

(** X4.  A text made of blank characters only (spaces, tabs, line breaks;
    the empty text too) is normalized to the empty text, and
    [process_pdf_complete] then returns no passage, whatever the splitter
    would do. *)
Theorem preprocess_blank_text :
  forall x : PyStr.str,
    Forall (fun c => PyStr.isspace c = true) x ->
    PdfProcessor.preprocess_medical_text x = []
    /\ forall split_text : PyStr.str -> list PyStr.str,
         PdfProcessor.process_pdf_complete split_text x = [].
Proof.
  intros x H. pose proof (NormalizerResult.preprocess_blank x H) as E.
  split; [exact E|].
  intros split_text. unfold PdfProcessor.process_pdf_complete.
  destruct x; [reflexivity|]. rewrite E. reflexivity.
Qed.

Lemma preprocess_blank_text_witness :
  Forall (fun c => PyStr.isspace c = true)
         (" "%char :: "009"%char :: PdfProcessor.nl ++ PyStr.lit "  ")
  /\ PdfProcessor.preprocess_medical_text
       (" "%char :: "009"%char :: PdfProcessor.nl ++ PyStr.lit "  ") = [].
Proof.
  assert (H : Forall (fun c => PyStr.isspace c = true)
                     (" "%char :: "009"%char :: PdfProcessor.nl ++ PyStr.lit "  ")).
  { repeat constructor. }
  split; [exact H|].
  exact (proj1 (preprocess_blank_text _ H)).
Defined.

(** ** Passages and their metadata *)

Module PassageFacts.
Import PyStr PdfProcessor Props FixpointFacts.

Lemma split_from_some (s : str) : forall c (cur : str),
  1 <= length (split_from (c :: cur) s).
Proof.
  induction s as [|d t IH]; intros c cur; [simpl; lia|].
  cbn [split_from]. destruct (isspace d); [simpl; lia|apply IH].
Qed.

Lemma split_from_at_most (s : str) : forall cur : str,
  length (split_from cur s) <= length s + match cur with [] => 0 | _ => 1 end.
Proof.
  induction s as [|d t IH]; intros cur.
  - destruct cur; simpl; lia.
  - cbn [split_from]. destruct (isspace d).
    + specialize (IH []). destruct cur; simpl in *; lia.
    + specialize (IH (d :: cur)). destruct cur; simpl in *; lia.
Qed.

(** a trimmed text that is not empty has at least one word, and at most
    as many words as characters *)
Lemma words_of_trimmed (s : str) :
  1 <= length (split (strip s)) <= length (strip s) \/ strip s = [].
Proof.
  pose proof (strip_head s) as H.
  destruct (strip s) as [|c t] eqn:E; [right; reflexivity|left].
  split.
  - unfold split. cbn [split_from]. rewrite H. apply split_from_some.
  - pose proof (split_from_at_most (c :: t) []) as B. cbv iota in B.
    rewrite Nat.add_0_r in B. exact B.
Qed.

Lemma enhance_metadata (chunks : list str) : forall i,
  Forall (fun c =>
            strip (text c) = text c
            /\ length_ (metadata c) = length (text c)
            /\ word_count (metadata c) = length (split (text c))
            /\ 1 <= word_count (metadata c) <= length (text c)
            /\ has_medical_terms (metadata c) = detect_medical_terms (text c)
            /\ source (metadata c) = "medical_encyclopedia"%string)
         (enhance i chunks).
Proof.
  induction chunks as [|chunk rest IH]; intros i; [constructor|].
  cbn [enhance]. cbv zeta.
  destruct (length (strip chunk) <? 50) eqn:E; [apply IH|].
  constructor; [|apply IH]. cbn [text metadata length_ word_count
                                  has_medical_terms source].
  apply Nat.ltb_ge in E.
  split; [apply strip_strip|]. split; [reflexivity|]. split; [reflexivity|].
  split; [|split; reflexivity].
  destruct (words_of_trimmed chunk) as [H|H]; [exact H|].
  rewrite H in E. simpl in E. lia.
Qed.

End PassageFacts.

(** X5.  Every passage [create_smart_chunks] produces describes its own
    text: the text is trimmed, [length] is its number of characters,
    [word_count] is the number of its blank-separated words, which is at
    least one and at most the number of characters, [has_medical_terms] is
    what [detect_medical_terms] says of it, and [source] is the fixed
    label. *)
Theorem create_smart_chunks_metadata :
  forall (split_text : PyStr.str -> list PyStr.str) (t : PyStr.str),
    Forall (fun c =>
              PyStr.strip (PdfProcessor.text c) = PdfProcessor.text c
              /\ PdfProcessor.length_ (PdfProcessor.metadata c)
                 = length (PdfProcessor.text c)
              /\ PdfProcessor.word_count (PdfProcessor.metadata c)
                 = length (PyStr.split (PdfProcessor.text c))
              /\ 1 <= PdfProcessor.word_count (PdfProcessor.metadata c)
                   <= length (PdfProcessor.text c)
              /\ PdfProcessor.has_medical_terms (PdfProcessor.metadata c)
                 = PdfProcessor.detect_medical_terms (PdfProcessor.text c)
              /\ PdfProcessor.source (PdfProcessor.metadata c)
                 = "medical_encyclopedia"%string)
           (PdfProcessor.create_smart_chunks split_text t).
Proof.
  intros split_text t. unfold PdfProcessor.create_smart_chunks.
  apply PassageFacts.enhance_metadata.
Qed.

(** ** The keyword tests *)

Module KeywordFacts.
Import PyStr PdfProcessor RetrievalQA WordFacts.

Lemma startswith_iff (p s : str) :
  startswith p s = true <-> exists v, s = p ++ v.
Proof.
  revert s. induction p as [|a p IH]; intros s.
  - split; [intros _; exists s; reflexivity|reflexivity].
  - destruct s as [|b s].
    + split; [discriminate|intros [v E]; discriminate].
    + cbn [startswith]. rewrite andb_true_iff, IH. split.
      * intros [E [v ->]]. apply eqc_eq in E. subst b. exists v. reflexivity.
      * intros [v E]. injection E as -> ->. split; [|exists v; reflexivity].
        unfold eqc. apply Ascii.eqb_refl.
Qed.

(** [p in s]: [s] has the substring [p] *)
Lemma contains_iff (p s : str) :
  contains p s = true <-> exists u v, s = u ++ p ++ v.
Proof.
  induction s as [|c t IH].
  - cbn [contains]. rewrite orb_false_r, startswith_iff. split.
    + intros [v E]. exists [], v. exact E.
    + intros [u [v E]]. destruct u; [exists v; exact E|discriminate].
  - cbn [contains]. rewrite orb_true_iff, startswith_iff, IH. split.
    + intros [[v E]|[u [v E]]].
      * exists [], v. exact E.
      * exists (c :: u), v. rewrite E. reflexivity.
    + intros [u [v E]]. destruct u as [|d u].
      * left. exists v. exact E.
      * right. injection E as _ E. exists u, v. exact E.
Qed.

Lemma lower_app (a b : str) : lower (a ++ b) = lower a ++ lower b.
Proof. apply map_app. Qed.

(** the lowered text has the substring [k] when the text has a substring
    that is [k] once lowered *)
Lemma contains_lower_iff (k t : str) :
  contains k (lower t) = true
  <-> exists u w v, t = u ++ w ++ v /\ lower w = k.
Proof.
  rewrite contains_iff. split.
  - intros [u' [v' E]]. unfold lower in E.
    apply map_eq_app in E. destruct E as (u & r & -> & Eu & Er).
    apply map_eq_app in Er. destruct Er as (w & v & -> & Ew & Ev).
    exists u, w, v. split; [reflexivity|exact Ew].
  - intros (u & w & v & -> & Ew). exists (lower u), (lower v).
    rewrite !lower_app, Ew. reflexivity.
Qed.

Lemma any_in_lower_iff (keys : list string) (t : str) :
  any_in (map lit keys) (lower t) = true
  <-> exists k u w v, In k keys /\ t = u ++ w ++ v /\ lower w = lit k.
Proof.
  unfold any_in. rewrite existsb_exists. split.
  - intros [k' [Hin Hc]]. apply in_map_iff in Hin. destruct Hin as [k [<- Hin]].
    apply contains_lower_iff in Hc. destruct Hc as (u & w & v & E & Ew).
    exists k, u, w, v. auto.
  - intros (k & u & w & v & Hin & E & Ew). exists (lit k).
    split; [apply in_map, Hin|].
    apply contains_lower_iff. exists u, w, v. auto.
Qed.

End KeywordFacts.

(** X6.  Both keyword tests are substring tests that ignore letter case
    and word boundaries: [detect_medical_terms] holds of a text exactly
    when some part of it, once lowered, is one of the 27 keywords, and
    [validate_medical_query] holds of a query exactly when some part of
    it, once lowered, is one of the 34 indicators. *)
Theorem keyword_tests_are_substring_tests :
  forall t : PyStr.str,
    (PdfProcessor.detect_medical_terms t = true
     <-> exists k u w v,
           In k PdfProcessor.medical_keywords
           /\ t = u ++ w ++ v /\ PyStr.lower w = PyStr.lit k)
    /\ (RetrievalQA.validate_medical_query t = true
        <-> exists k u w v,
              In k RetrievalQA.medical_indicators
              /\ t = u ++ w ++ v /\ PyStr.lower w = PyStr.lit k).
Proof.
  intros t. split.
  - unfold PdfProcessor.detect_medical_terms. apply KeywordFacts.any_in_lower_iff.
  - unfold RetrievalQA.validate_medical_query. cbv zeta.
    apply KeywordFacts.any_in_lower_iff.
Qed.

(** ** The store: runs of its functions *)

Module StoreFacts.
Import PyStr PdfProcessor Py VectorDatabase Props VectorFacts SearchFacts Coverage.

(** what a call of [add_to_vector_database] leaves, when it raises and
    when it returns *)
Lemma add_run :
  forall (L : VectorDatabase.Library),
    Props.encode_row_per_text L ->
    forall (chunks : list PdfProcessor.Chunk) (g g' : VectorDatabase.Globals)
           (o : Py.outcome unit),
      VectorDatabase.add_to_vector_database L chunks g = (o, g') ->
      match o with
      | Py.Raise => Props.same_store g g'
      | Py.Ok _ =>
          Props.index_count g' = Props.index_count g + length chunks
          /\ VectorDatabase.vector_texts g'
             = VectorDatabase.vector_texts g ++ map PdfProcessor.text chunks
          /\ VectorDatabase.vector_metadatas g'
             = VectorDatabase.vector_metadatas g ++ map PdfProcessor.metadata chunks
          /\ (Props.count_invariant g -> Props.count_invariant g')
      end.
Proof.
  intros L Hrows chunks g g' o H.
  unfold VectorDatabase.add_to_vector_database in H.
  apply VectorFacts.bind_run in H.
  destruct H as [(g0 & g1 & H0 & H)|[H0 ->]];
    [|inversion H0; subst; apply VectorFacts.same_store_refl].
  inversion H0; subst g0 g1; clear H0.
  (* the index is created when there is none *)
  apply VectorFacts.bind_run in H.
  assert (Hcreate : forall o1 g1,
             (match VectorDatabase.vector_index g with
              | Some _ => Py.ret tt
              | None => VectorDatabase.create_vector_index L;;; Py.ret tt
              end) g = (o1, g1) -> Props.same_store g g1).
  { intros o1 g1 E. destruct (VectorDatabase.vector_index g) eqn:Hi.
    - inversion E; subst. apply VectorFacts.same_store_refl.
    - apply VectorFacts.bind_run in E.
      destruct E as [(i & g2 & E1 & E2)|[E1 _]].
      + inversion E2; subst.
        eapply VectorFacts.create_vector_index_frame; eauto.
      + eapply VectorFacts.create_vector_index_frame; eauto. }
  destruct H as [(u & g1 & H1 & H)|[H1 ->]]; [|eapply Hcreate, H1].
  apply Hcreate in H1.
  (* embedding and normalisation *)
  apply VectorFacts.bind_run in H.
  destruct H as [(x & g2 & H2 & H)|[H2 ->]];
    [|eapply VectorFacts.same_store_trans;
      [exact H1|eapply VectorFacts.framed_generate_embeddings, H2]].
  pose proof (VectorFacts.generate_embeddings_rows _ _ Hrows H2) as Hx.
  apply VectorFacts.framed_generate_embeddings in H2.
  apply VectorFacts.bind_run in H.
  destruct H as [(y & g3 & H3 & H)|[H3 ->]].
  2:{ apply VectorFacts.normalize_L2_run in H3. destruct H3 as [-> _].
      eapply VectorFacts.same_store_trans; eassumption. }
  apply VectorFacts.normalize_L2_run in H3. destruct H3 as [-> Hy].
  destruct (Hy y eq_refl) as [Hy1 _]. clear Hy.
  assert (Hs : Props.same_store g g2)
    by (eapply VectorFacts.same_store_trans; eassumption).
  clear H1 H2.
  (* the index is extended, then the two lists *)
  unfold Py.bind, Py.get, Py.of_option, Py.of_outcome, Py.modify in H.
  destruct (VectorDatabase.vector_index g2) as [index|] eqn:Hi; simpl in H;
    [|inversion H; subst; exact Hs].
  destruct (VectorDatabase.index_add index y) as [index'|] eqn:Ha; simpl in H;
    inversion H; subst; [|exact Hs].
  apply VectorFacts.index_add_ntotal in Ha.
  destruct Hs as (Hc & Ht & Hm).
  assert (Hcount : Props.index_count
                     (VectorDatabase.set_vector_metadatas
                        (VectorDatabase.vector_metadatas g2 ++ map PdfProcessor.metadata chunks)
                        (VectorDatabase.set_vector_texts
                           (VectorDatabase.vector_texts g2 ++ map PdfProcessor.text chunks)
                           (VectorDatabase.set_vector_index (Some index') g2)))
                   = Props.index_count g + length chunks).
  { unfold Props.index_count in *. simpl in *. rewrite Hi in Hc.
    rewrite Ha, Hy1, Hx, length_map. lia. }
  split; [exact Hcount|].
  split; [simpl; rewrite Ht; reflexivity|].
  split; [simpl; rewrite Hm; reflexivity|].
  intros [I1 I2]. split.
  - rewrite Hcount. simpl. rewrite Ht, length_app, length_map. lia.
  - simpl. rewrite Ht, Hm, !length_app, !length_map. lia.
Qed.

Lemma same_store_invariant g g' :
  same_store g g' -> count_invariant g -> count_invariant g'.
Proof.
  intros (Hc & Ht & Hm) [I1 I2]. unfold count_invariant.
  rewrite Hc, Ht, Hm. split; assumption.
Qed.

Lemma add_keeps_invariant (L : Library) chunks g o g' :
  encode_row_per_text L ->
  add_to_vector_database L chunks g = (o, g') ->
  count_invariant g -> count_invariant g'.
Proof.
  intros Hrows E I. pose proof (add_run L Hrows chunks g g' o E) as H.
  destruct o; [apply H, I|eapply same_store_invariant; eauto].
Qed.

Lemma framed_normalize_L2 (L : Library) x : framed (normalize_L2 L x).
Proof.
  intros g o g' E. apply normalize_L2_run in E. destruct E as [-> _].
  apply same_store_refl.
Qed.

Lemma framed_np_array l : framed (np_array l).
Proof.
  intros g o g' E. apply np_array_run in E. destruct E as [-> _].
  apply same_store_refl.
Qed.

Lemma framed_index_search (L : Library) index x k : framed (index_search L index x k).
Proof.
  unfold index_search.
  destruct (columns x); [|apply framed_raise].
  destruct (rows x); [apply framed_raise|].
  destruct (_ && _); [apply framed_ret|apply framed_raise].
Qed.

(** a search changes neither the index nor the texts nor the metadata *)
Lemma framed_similarity_search (L : Library) query k :
  framed (similarity_search L query k).
Proof.
  unfold similarity_search. apply framed_bind; [apply framed_get|].
  intros g. destruct (vector_index g) as [index|]; [|apply framed_ret].
  destruct (ntotal index =? 0); [apply framed_ret|].
  apply framed_bind.
  { destruct (embedding_model g); [apply framed_ret|].
    apply framed_bind; [apply framed_initialize_embeddings|].
    intros _. apply framed_ret. }
  intros _. apply framed_bind; [apply framed_of_option|].
  intros e. apply framed_bind; [apply framed_np_array|].
  intros x. apply framed_bind; [apply framed_normalize_L2|].
  intros y. apply framed_bind; [apply framed_index_search|].
  intros hits. apply framed_bind; [apply framed_get|].
  intros g1. apply framed_of_outcome.
Qed.

Lemma reachable_invariant (L : Library) g :
  encode_row_per_text L -> reachable L g -> count_invariant g.
Proof.
  intros Hrows R. induction R as [|g o g' R IH E|g chunks o g' R IH E|g q k o g' R IH E].
  - split; reflexivity.
  - eapply same_store_invariant; [|exact IH].
    eapply framed_initialize_embeddings, E.
  - eapply add_keeps_invariant; eauto.
  - eapply same_store_invariant; [|exact IH].
    eapply framed_similarity_search, E.
Qed.

End StoreFacts.

(** X10.  However the store is filled and queried from the state at import
    (by [initialize_embeddings], [add_to_vector_database] and
    [similarity_search], in any order, with any arguments, whether the
    calls return or raise), [get_database_stats] reports as many chunks
    as the index holds vectors, and there are as many metadata entries;
    the embedding model is only assumed to return one row per text. *)
Theorem reachable_store_is_consistent :
  forall (L : VectorDatabase.Library) (g : VectorDatabase.Globals),
    Props.encode_row_per_text L ->
    Coverage.reachable L g ->
    VectorDatabase.total_chunks (VectorDatabase.get_database_stats g)
    = VectorDatabase.index_size (VectorDatabase.get_database_stats g)
    /\ length (VectorDatabase.vector_metadatas g)
       = VectorDatabase.total_chunks (VectorDatabase.get_database_stats g).
Proof.
  intros L g Hrows R.
  destruct (StoreFacts.reachable_invariant L g Hrows R) as [I1 I2].
  unfold Props.index_count in I1. cbn [VectorDatabase.total_chunks
    VectorDatabase.get_database_stats] in *.
  split; [symmetry; exact I1|symmetry; exact I2].
Qed.

Lemma reachable_store_is_consistent_witness :
  let g := snd (VectorDatabase.add_to_vector_database Examples.toy_library
                  Examples.two_passages VectorDatabase.initial) in
  VectorDatabase.total_chunks (VectorDatabase.get_database_stats g) = 2
  /\ VectorDatabase.total_chunks (VectorDatabase.get_database_stats g)
     = VectorDatabase.index_size (VectorDatabase.get_database_stats g).
Proof.
  cbv zeta. split; [vm_compute; reflexivity|].
  apply (reachable_store_is_consistent Examples.toy_library).
  - exact ExampleFacts.toy_library_row_per_text.
  - eapply Coverage.reach_add; [apply Coverage.reach_import|].
    apply surjective_pairing.
Defined.

(** ** The extraction of the text *)

Module ExtractionFacts.
Import PyStr PdfProcessor PdfExtraction Py.

Lemma extract_pages_all (texts : list str) : forall acc,
  extract_pages (map Some texts) acc
  = Ok (acc ++ concat (map (fun t => t ++ nl)
                           (filter (fun t => negb (length t =? 0)) texts))).
Proof.
  induction texts as [|t texts IH]; intros acc; [cbn; rewrite app_nil_r; reflexivity|].
  cbn [map extract_pages filter]. destruct t as [|c t].
  - cbn [length Nat.eqb negb]. apply IH.
  - cbn [length Nat.eqb negb map concat]. rewrite IH, <- !app_assoc. reflexivity.
Qed.

Lemma extract_pages_raise (ps : list (option str)) : forall acc,
  In None ps -> extract_pages ps acc = Raise.
Proof.
  induction ps as [|p ps IH]; intros acc H; [destruct H|].
  destruct p as [t|]; [|reflexivity].
  destruct H as [H|H]; [discriminate|].
  cbn [extract_pages]. destruct t; apply IH, H.
Qed.

End ExtractionFacts.

(** X7.  [extract_text_from_pdf] returns the texts of the pages that have
    one, in page order, each followed by a line break; when the reader
    cannot be opened, or the extraction of any page raises, it returns the
    empty text, and what earlier pages gave is dropped. *)
Theorem extract_text_from_pdf_pages :
  (forall texts : list PyStr.str,
      PdfExtraction.extract_text_from_pdf
        (Some {| PdfExtraction.pages := map Some texts |})
      = concat (map (fun t => t ++ PdfProcessor.nl)
                    (filter (fun t => negb (length t =? 0)) texts)))
  /\ (forall ps : list (option PyStr.str),
         In None ps ->
         PdfExtraction.extract_text_from_pdf
           (Some {| PdfExtraction.pages := ps |}) = [])
  /\ PdfExtraction.extract_text_from_pdf None = [].
Proof.
  split; [|split; [|reflexivity]].
  - intros texts. unfold PdfExtraction.extract_text_from_pdf.
    cbn [PdfExtraction.pages]. rewrite ExtractionFacts.extract_pages_all.
    reflexivity.
  - intros ps H. unfold PdfExtraction.extract_text_from_pdf.
    cbn [PdfExtraction.pages].
    rewrite (ExtractionFacts.extract_pages_raise ps [] H). reflexivity.
Qed.

(** ** Embedding in batches *)

Module BatchFacts.
Import PyStr PdfProcessor Py VectorDatabase Props VectorFacts Coverage.

Lemma firstn_add {A} (a b : nat) : forall l : list A,
  firstn (a + b) l = firstn a l ++ firstn b (skipn a l).
Proof.
  induction a as [|a IH]; intros l; [reflexivity|].
  destruct l as [|x l]; [cbn; rewrite firstn_nil; reflexivity|].
  cbn [Nat.add firstn skipn app]. rewrite IH. reflexivity.
Qed.

Lemma concat_batches (texts : list str) (n : nat) :
  concat (map (fun i => firstn batch_size (skipn i texts))
              (map (fun j => j * batch_size) (seq 0 n)))
  = firstn (n * batch_size) texts.
Proof.
  induction n as [|n IH]; [reflexivity|].
  rewrite seq_S, !map_app, concat_app, IH. cbn [map concat Nat.add].
  rewrite app_nil_r, <- firstn_add. f_equal. lia.
Qed.

Lemma batches_number (len : nat) :
  len <= ((len + batch_size - 1) / batch_size) * batch_size
  /\ ((len + batch_size - 1) / batch_size) * batch_size <= len + batch_size - 1.
Proof.
  unfold batch_size.
  pose proof (Nat.div_mod_eq (len + 32 - 1) 32) as E.
  pose proof (Nat.mod_upper_bound (len + 32 - 1) 32) as B.
  lia.
Qed.

Lemma batches_concat (texts : list str) : concat (batches texts) = texts.
Proof.
  unfold batches, range_step. rewrite concat_batches.
  apply firstn_all2. apply batches_number.
Qed.

Lemma batches_sizes (texts : list str) :
  Forall (fun b => 1 <= length b <= batch_size) (batches texts).
Proof.
  unfold batches, range_step. apply Forall_forall. intros b Hb.
  apply in_map_iff in Hb. destruct Hb as [i [<- Hi]].
  apply in_map_iff in Hi. destruct Hi as [j [<- Hj]].
  apply in_seq in Hj. rewrite batch_length.
  pose proof (batches_number (length texts)) as [_ B].
  unfold batch_size in *. nia.
Qed.

Lemma batches_length (texts : list str) :
  length (batches texts) = (length texts + 31) / 32.
Proof.
  unfold batches, range_step, batch_size. rewrite !length_map, length_seq.
  f_equal. lia.
Qed.

Lemma encode_batches_outs (L : Library) (texts : list str) starts :
  forall acc g r g',
    encode_batches L texts starts acc g = (Ok r, g') ->
    exists outs,
      Forall2 (fun i out => encode L (firstn batch_size (skipn i texts)) = Some out)
              starts outs
      /\ r = acc ++ concat outs.
Proof.
  induction starts as [|i later IH]; intros acc g r g' E.
  - inversion E; subst. exists []. split; [constructor|].
    cbn. rewrite app_nil_r. reflexivity.
  - cbn [encode_batches] in E. cbv zeta in E.
    apply bind_run in E. destruct E as [(out & g1 & E1 & E2)|[_ E]]; [|discriminate].
    apply IH in E2. destruct E2 as (outs & F & ->).
    unfold of_option in E1. destruct (encode L _) as [out'|] eqn:Ee; [|discriminate].
    inversion E1; subst. exists (out :: outs). split.
    + constructor; assumption.
    + cbn [concat]. rewrite app_assoc. reflexivity.
Qed.

Lemma Forall2_map_left {A B C} (f : A -> B) (P : B -> C -> Prop) l l' :
  Forall2 (fun a c => P (f a) c) l l' -> Forall2 P (map f l) l'.
Proof. induction 1; cbn [map]; constructor; assumption. Qed.

Lemma generate_embeddings_outs (L : Library) (texts : list str) g x g' :
  generate_embeddings L texts g = (Ok x, g') ->
  exists outs,
    Forall2 (fun b out => encode L b = Some out) (batches texts) outs
    /\ rows x = concat outs.
Proof.
  intros E. unfold generate_embeddings in E.
  apply bind_run in E. destruct E as [(g0 & g1 & _ & E)|[_ E]]; [|discriminate].
  apply bind_run in E. destruct E as [(u & g2 & _ & E)|[_ E]]; [|discriminate].
  apply bind_run in E. destruct E as [(l & g3 & E1 & E)|[_ E]]; [|discriminate].
  apply encode_batches_outs in E1. destruct E1 as (outs & F & El).
  apply np_array_run in E. destruct E as [_ E].
  destruct (E x eq_refl) as [Er _]. exists outs. split.
  - unfold batches. apply Forall2_map_left. exact F.
  - rewrite Er, El. reflexivity.
Qed.

(** nothing to embed: the array has one dimension *)
Lemma generate_embeddings_nil (L : Library) g x g' :
  generate_embeddings L [] g = (Ok x, g') -> columns x = None.
Proof.
  intros E. unfold generate_embeddings in E.
  apply bind_run in E. destruct E as [(g0 & g1 & _ & E)|[_ E]]; [|discriminate].
  apply bind_run in E. destruct E as [(u & g2 & _ & E)|[_ E]]; [|discriminate].
  change (range_step (length (@nil str)) batch_size) with (@nil nat) in E.
  cbn [encode_batches] in E.
  apply bind_run in E. destruct E as [(l & g3 & E1 & E)|[_ E]]; [|discriminate].
  inversion E1; subst. inversion E; subst. reflexivity.
Qed.

Lemma add_nothing (L : Library) g o g' :
  add_to_vector_database L [] g = (o, g') -> o = Raise /\ same_store g g'.
Proof.
  intros H. unfold add_to_vector_database in H.
  apply bind_run in H.
  destruct H as [(g0 & g1 & H0 & H)|[H0 _]]; [|discriminate].
  inversion H0; subst g0 g1; clear H0.
  apply bind_run in H.
  assert (Hcreate : forall o1 g1,
             (match vector_index g with
              | Some _ => ret tt
              | None => create_vector_index L;;; ret tt
              end) g = (o1, g1) -> same_store g g1).
  { intros o1 g1 E. destruct (vector_index g) eqn:Hi.
    - inversion E; subst. apply same_store_refl.
    - apply bind_run in E.
      destruct E as [(i & g2 & E1 & E2)|[E1 _]].
      + inversion E2; subst.
        eapply create_vector_index_frame; eauto.
      + eapply create_vector_index_frame; eauto. }
  destruct H as [(u & g1 & H1 & H)|[H1 ->]];
    [|split; [reflexivity|eapply Hcreate, H1]].
  apply Hcreate in H1.
  cbn [map] in H. cbv zeta in H.
  apply bind_run in H.
  destruct H as [(x & g2 & H2 & H)|[H2 ->]];
    [|split; [reflexivity|];
      eapply same_store_trans;
      [exact H1|eapply framed_generate_embeddings, H2]].
  pose proof (generate_embeddings_nil _ _ _ _ H2) as Hc.
  apply framed_generate_embeddings in H2.
  apply bind_run in H.
  destruct H as [(y & g3 & H3 & H)|[H3 ->]].
  - unfold normalize_L2 in H3. rewrite Hc in H3. discriminate.
  - apply normalize_L2_run in H3. destruct H3 as [-> _].
    split; [reflexivity|]. eapply same_store_trans; eassumption.
Qed.

End BatchFacts.

(** X8.  [generate_embeddings] hands every text to the embedding model
    exactly once and in order: the batches it encodes are slices of at
    most 32 texts, none of them empty, there are ceil(n / 32) of them for
    n texts, put one after the other they are the list of texts, and the
    rows of the array returned are what the model gave for the batches,
    in the same order. *)
Theorem generate_embeddings_batches :
  forall (L : VectorDatabase.Library) (texts : list PyStr.str),
    concat (Coverage.batches texts) = texts
    /\ Forall (fun b => 1 <= length b <= 32) (Coverage.batches texts)
    /\ length (Coverage.batches texts) = (length texts + 31) / 32
    /\ forall g x g',
         VectorDatabase.generate_embeddings L texts g = (Py.Ok x, g') ->
         exists outs,
           Forall2 (fun b out => VectorDatabase.encode L b = Some out)
                   (Coverage.batches texts) outs
           /\ VectorDatabase.rows x = concat outs.
Proof.
  intros L texts.
  split; [apply BatchFacts.batches_concat|].
  split; [apply BatchFacts.batches_sizes|].
  split; [apply BatchFacts.batches_length|].
  intros g x g'. apply BatchFacts.generate_embeddings_outs.
Qed.

(** X9.  [add_to_vector_database] with an empty list of passages always
    raises (the array of no embeddings has one dimension, and
    [faiss.normalize_L2] reads its second one) and leaves index count,
    texts and metadata as they were. *)
Theorem add_to_vector_database_nothing :
  forall (L : VectorDatabase.Library) (g : VectorDatabase.Globals),
    fst (VectorDatabase.add_to_vector_database L [] g) = Py.Raise
    /\ Props.same_store g (snd (VectorDatabase.add_to_vector_database L [] g)).
Proof.
  intros L g.
  destruct (VectorDatabase.add_to_vector_database L [] g) as [o g'] eqn:E.
  apply BatchFacts.add_nothing in E. exact E.
Qed.

(** ** Searching a consistent store *)

Module LookupFacts.
Import PyStr PdfProcessor Py VectorDatabase Props VectorFacts SearchFacts Coverage.

Lemma getitem_in_range {A} (l : list A) (i : Z) :
  (0 <= i < Z.of_nat (length l))%Z -> exists a, getitem l i = Some a.
Proof.
  intros H. unfold getitem.
  destruct (0 <=? i)%Z eqn:E; [|apply Z.leb_gt in E; lia].
  destruct (nth_error l (Z.to_nat i)) as [a|] eqn:N; [exists a; reflexivity|].
  apply nth_error_None in N. lia.
Qed.

(** the loop over the hits does not fail on positions inside the store *)
Lemma collect_in_range (texts : list str) (metadatas : list Metadata) n hits :
  length texts = n -> length metadatas = n ->
  Forall (hit_in_range n) hits ->
  forall acc, exists results, collect texts metadatas hits acc = Ok results.
Proof.
  intros Ht Hm H. induction H as [|[score idx] hits Hh _ IH]; intros acc.
  - exists acc. reflexivity.
  - cbn [collect].
    destruct (negb (idx =? -1)%Z && Qgtb score relevance_threshold) eqn:K;
      [|apply IH].
    apply andb_true_iff in K. destruct K as [K _].
    apply negb_true_iff, Z.eqb_neq in K.
    destruct Hh as [Hh|Hh]; [contradiction|]. cbn [snd] in Hh.
    destruct (getitem_in_range texts idx) as [t ->]; [lia|].
    destruct (getitem_in_range metadatas idx) as [m ->]; [lia|].
    apply IH.
Qed.

Lemma similarity_search_returns (L : Library) m index g query k :
  load_model L = Some m ->
  encode_dimension L m ->
  vector_index g = Some index ->
  dim index = get_sentence_embedding_dimension m ->
  0 < k ->
  count_invariant g ->
  (forall v, Forall (hit_in_range (ntotal index)) (hnsw_search L index v k)) ->
  exists results g', similarity_search L query k g = (Ok results, g').
Proof.
  intros Hl He Hi Hd Hk [I1 I2] Hr.
  unfold index_count in I1. cbn [index_size get_database_stats] in I1.
  rewrite Hi in I1.
  unfold similarity_search, bind, get. rewrite Hi.
  destruct (ntotal index =? 0); [eexists; eexists; reflexivity|].
  destruct (He [query]) as (out & Ee & Elen & Edim).
  destruct out as [|v [|? ?]]; try discriminate.
  inversion Edim as [|? ? Ev _]; subst.
  assert (Hc : forall g1,
             vector_texts g1 = vector_texts g ->
             vector_metadatas g1 = vector_metadatas g ->
             exists results g',
               (let (o, s') := of_option (encode L [query]) g1 in
                match o with
                | Ok a =>
                    (fun query_embedding : list vec =>
                       bind (np_array query_embedding)
                         (fun query_embedding0 =>
                            bind (normalize_L2 L query_embedding0)
                              (fun query_embedding1 =>
                                 bind (index_search L index query_embedding1 k)
                                   (fun hits =>
                                      bind get
                                        (fun g2 =>
                                           of_outcome
                                             (collect (vector_texts g2)
                                                (vector_metadatas g2) hits [])))))) a s'
                | Raise => (Raise, s')
                end) = (Ok results, g')).
  { intros g1 Ht Hm. rewrite Ee. cbn [of_option ret].
    unfold bind, np_array. cbn [forallb ret normalize_L2 columns rows map].
    unfold index_search. cbn [columns rows].
    rewrite Ev, Hd, Nat.eqb_refl. apply Nat.ltb_lt in Hk. rewrite Hk.
    cbn [andb ret get]. rewrite Ht, Hm.
    destruct (collect_in_range (vector_texts g) (vector_metadatas g)
                (ntotal index) (hnsw_search L index (fvec_renorm_L2 L v) k))
      with (acc := @nil (str * Q * Metadata)) as [results Ec];
      [symmetry; exact I1|rewrite <- I2; symmetry; exact I1|apply Hr|].
    rewrite Ec. eexists; eexists; reflexivity. }
  destruct (embedding_model g) as [m'|].
  - cbn [ret]. apply Hc; reflexivity.
  - unfold initialize_embeddings, bind, of_option, modify. rewrite Hl.
    cbn [ret]. apply Hc; reflexivity.
Qed.

End LookupFacts.

(** X11.  A search on a consistent store returns and does not raise: when
    the embedding model can be loaded and turns every text into one vector
    of its dimension, the index has that dimension, [k] is positive, index
    count, texts and metadata are equally many, and the index reports only
    the padding position -1 or positions below its number of vectors,
    then [similarity_search] returns a list of results. *)
Theorem similarity_search_on_consistent_store :
  forall (L : VectorDatabase.Library) (m : VectorDatabase.SentenceTransformer)
         (index : VectorDatabase.IndexHNSWFlat) (g : VectorDatabase.Globals)
         (query : PyStr.str) (k : nat),
    VectorDatabase.load_model L = Some m ->
    Coverage.encode_dimension L m ->
    VectorDatabase.vector_index g = Some index ->
    VectorDatabase.dim index = VectorDatabase.get_sentence_embedding_dimension m ->
    0 < k ->
    Props.count_invariant g ->
    (forall v, Forall (Coverage.hit_in_range (VectorDatabase.ntotal index))
                      (VectorDatabase.hnsw_search L index v k)) ->
    exists results g',
      VectorDatabase.similarity_search L query k g = (Py.Ok results, g')
      /\ Props.same_store g g'.
Proof.
  intros L m index g query k Hl He Hi Hd Hk I Hr.
  destruct (LookupFacts.similarity_search_returns L m index g query k
              Hl He Hi Hd Hk I Hr) as (results & g' & E).
  exists results, g'. split; [exact E|].
  eapply StoreFacts.framed_similarity_search, E.
Qed.

Lemma similarity_search_on_consistent_store_witness :
  let g := snd (VectorDatabase.add_to_vector_database Examples.toy_library
                  Examples.two_passages VectorDatabase.initial) in
  exists results g',
    VectorDatabase.similarity_search Examples.toy_library Examples.fever 3 g
    = (Py.Ok results, g')
    /\ Props.same_store g g'.
Proof.
  cbv zeta.
  set (g := snd (VectorDatabase.add_to_vector_database Examples.toy_library
                   Examples.two_passages VectorDatabase.initial)).
  set (index := match VectorDatabase.vector_index g with
                | Some i => i
                | None => {| VectorDatabase.dim := 0; VectorDatabase.neighbors := 0;
                             VectorDatabase.efSearch := 0;
                             VectorDatabase.efConstruction := 0;
                             VectorDatabase.xb := [] |}
                end).
  apply (similarity_search_on_consistent_store Examples.toy_library
           Examples.toy_model index g Examples.fever 3).
  - reflexivity.
  - intros batch. eexists. split; [reflexivity|].
    split; [apply length_map|].
    apply Forall_forall. intros v Hv. apply in_map_iff in Hv.
    destruct Hv as [t [<- _]]. reflexivity.
  - vm_compute. reflexivity.
  - vm_compute. reflexivity.
  - lia.
  - split; vm_compute; reflexivity.
  - intros v. replace (VectorDatabase.ntotal index) with 2 by (vm_compute; reflexivity).
    unfold VectorDatabase.hnsw_search, Examples.toy_library, Examples.toy_hits.
    cbn [firstn repeat app Nat.sub].
    repeat constructor; unfold Coverage.hit_in_range; cbn [snd]; lia.
Defined.

(** ** Saving and loading *)

Module RoundTripFacts.
Import PyStr PdfProcessor Py VectorDatabase Props VectorFacts SearchFacts.
Import PersistenceFacts Coverage.

(** the globals after a load that found readable files *)
Lemma load_run (L : Library) dk path g0 m texts metadatas dm :
  index_file_ok (files dk (faiss_path path)) = true ->
  files dk (pkl_path path)
  = Some (PickleFile {| p_texts := Some texts; p_metadatas := Some metadatas;
                        p_dimension := Some dm |}) ->
  load_model L = Some m ->
  load_vector_database L dk path g0
  = (Ok true,
     {| vector_index := match files dk (faiss_path path) with
                        | Some (FaissFile index) => Some index
                        | _ => vector_index g0
                        end;
        vector_texts := texts;
        vector_metadatas := metadatas;
        embedding_model := Some m;
        dimension := Some (get_sentence_embedding_dimension m) |}).
Proof.
  intros Hf Hp Hl.
  unfold load_vector_database, load_body, initialize_embeddings, read_index,
    pickle_load, try_except, bind, of_option, modify, ret, raise.
  rewrite Hp, Hl.
  destruct (files dk (faiss_path path)) as [[index|data|]|];
    try discriminate; reflexivity.
Qed.

Lemma saved_files g path dk dk' :
  save_vector_database g path dk = (Ok tt, dk') ->
  files dk' (pkl_path path) = Some (side_file g)
  /\ files dk' (faiss_path path)
     = (if has_vectors g
        then option_map FaissFile (vector_index g)
        else files dk (faiss_path path)).
Proof.
  intros E. apply save_run in E. subst dk'. split.
  - apply write_file_same.
  - rewrite write_file_other by apply paths_differ.
    unfold has_vectors. destruct (vector_index g) as [index|]; [|reflexivity].
    destruct (0 <? ntotal index); [|reflexivity].
    cbn [option_map]. apply write_file_same.
Qed.

Lemma save_then_load (L : Library) g path dk dk' g0 m :
  save_vector_database g path dk = (Ok tt, dk') ->
  index_file_ok (files dk' (faiss_path path)) = true ->
  load_model L = Some m ->
  load_vector_database L dk' path g0
  = (Ok true,
     {| vector_index := match files dk' (faiss_path path) with
                        | Some (FaissFile index) => Some index
                        | _ => vector_index g0
                        end;
        vector_texts := vector_texts g;
        vector_metadatas := vector_metadatas g;
        embedding_model := Some m;
        dimension := Some (get_sentence_embedding_dimension m) |}).
Proof.
  intros E Hf Hl. destruct (saved_files g path dk dk' E) as [Hp _].
  apply (load_run L dk' path g0 m _ _ _ Hf Hp Hl).
Qed.

End RoundTripFacts.

(** X12.  Saving and loading is a round trip for a store that holds
    vectors: after a completed [save_vector_database], a
    [load_vector_database] of the same path (in the same or in another
    process, the embedding model being loadable) returns true and has
    restored the index, the texts and the metadata exactly; the dimension
    is then the model's, whatever the side file says. *)
Theorem save_then_load_restores :
  forall (L : VectorDatabase.Library) (g g0 : VectorDatabase.Globals)
         (path : PyStr.str) (dk dk' : VectorDatabase.Disk)
         (m : VectorDatabase.SentenceTransformer),
    VectorDatabase.save_vector_database g path dk = (Py.Ok tt, dk') ->
    Props.has_vectors g = true ->
    VectorDatabase.load_model L = Some m ->
    exists g1,
      VectorDatabase.load_vector_database L dk' path g0 = (Py.Ok true, g1)
      /\ VectorDatabase.vector_index g1 = VectorDatabase.vector_index g
      /\ VectorDatabase.vector_texts g1 = VectorDatabase.vector_texts g
      /\ VectorDatabase.vector_metadatas g1 = VectorDatabase.vector_metadatas g
      /\ VectorDatabase.embedding_model g1 = Some m
      /\ VectorDatabase.dimension g1
         = Some (VectorDatabase.get_sentence_embedding_dimension m).
Proof.
  intros L g g0 path dk dk' m E Hv Hl.
  destruct (RoundTripFacts.saved_files g path dk dk' E) as [_ Hf].
  rewrite Hv in Hf.
  unfold Props.has_vectors in Hv.
  destruct (VectorDatabase.vector_index g) as [index|] eqn:Hi; [|discriminate].
  cbn [option_map] in Hf.
  eexists. split.
  - apply (RoundTripFacts.save_then_load L g path dk dk' g0 m E); [|exact Hl].
    rewrite Hf. reflexivity.
  - rewrite Hf. cbn. repeat split; reflexivity.
Qed.

Lemma save_then_load_restores_witness :
  let g := snd (VectorDatabase.add_to_vector_database Examples.toy_library
                  Examples.two_passages VectorDatabase.initial) in
  let dk' := snd (VectorDatabase.save_vector_database g Examples.store_path
                    Examples.empty_disk) in
  exists g1,
    VectorDatabase.load_vector_database Examples.toy_library dk'
      Examples.store_path VectorDatabase.initial = (Py.Ok true, g1)
    /\ VectorDatabase.vector_index g1 = VectorDatabase.vector_index g
    /\ VectorDatabase.vector_texts g1 = VectorDatabase.vector_texts g
    /\ VectorDatabase.vector_metadatas g1 = VectorDatabase.vector_metadatas g
    /\ VectorDatabase.embedding_model g1 = Some Examples.toy_model
    /\ VectorDatabase.dimension g1 = Some 2.
Proof.
  cbv zeta.
  apply (save_then_load_restores Examples.toy_library _ VectorDatabase.initial
           Examples.store_path Examples.empty_disk _ Examples.toy_model).
  - vm_compute. reflexivity.
  - vm_compute. reflexivity.
  - reflexivity.
Defined.

(** X13.  Saving a store without vectors does not touch the index file, so
    an index file that an earlier save left on disk survives it: a load of
    the same path then pairs that old index with the newly saved (empty or
    index-less) texts, and returns true. *)
Theorem save_without_vectors_keeps_old_index :
  forall (L : VectorDatabase.Library) (g g0 : VectorDatabase.Globals)
         (path : PyStr.str) (dk dk' : VectorDatabase.Disk)
         (old : VectorDatabase.IndexHNSWFlat)
         (m : VectorDatabase.SentenceTransformer),
    VectorDatabase.save_vector_database g path dk = (Py.Ok tt, dk') ->
    Props.has_vectors g = false ->
    VectorDatabase.files dk (VectorDatabase.faiss_path path)
    = Some (VectorDatabase.FaissFile old) ->
    VectorDatabase.load_model L = Some m ->
    exists g1,
      VectorDatabase.load_vector_database L dk' path g0 = (Py.Ok true, g1)
      /\ VectorDatabase.vector_index g1 = Some old
      /\ VectorDatabase.vector_texts g1 = VectorDatabase.vector_texts g
      /\ VectorDatabase.vector_metadatas g1 = VectorDatabase.vector_metadatas g.
Proof.
  intros L g g0 path dk dk' old m E Hv Ho Hl.
  destruct (RoundTripFacts.saved_files g path dk dk' E) as [_ Hf].
  rewrite Hv, Ho in Hf.
  eexists. split.
  - apply (RoundTripFacts.save_then_load L g path dk dk' g0 m E); [|exact Hl].
    rewrite Hf. reflexivity.
  - rewrite Hf. repeat split; reflexivity.
Qed.

Lemma save_without_vectors_keeps_old_index_witness :
  let full := snd (VectorDatabase.add_to_vector_database Examples.toy_library
                     Examples.two_passages VectorDatabase.initial) in
  let dk := snd (VectorDatabase.save_vector_database full Examples.store_path
                   Examples.empty_disk) in
  let dk' := snd (VectorDatabase.save_vector_database VectorDatabase.initial
                    Examples.store_path dk) in
  exists g1,
    VectorDatabase.load_vector_database Examples.toy_library dk'
      Examples.store_path VectorDatabase.initial = (Py.Ok true, g1)
    /\ VectorDatabase.vector_index g1 = VectorDatabase.vector_index full
    /\ VectorDatabase.vector_texts g1 = []
    /\ VectorDatabase.vector_metadatas g1 = [].
Proof.
  cbv zeta.
  set (full := snd (VectorDatabase.add_to_vector_database Examples.toy_library
                      Examples.two_passages VectorDatabase.initial)).
  set (dk := snd (VectorDatabase.save_vector_database full Examples.store_path
                    Examples.empty_disk)).
  assert (Hi : exists old, VectorDatabase.vector_index full = Some old
                           /\ VectorDatabase.files dk
                                (VectorDatabase.faiss_path Examples.store_path)
                              = Some (VectorDatabase.FaissFile old)).
  { eexists. split; vm_compute; reflexivity. }
  destruct Hi as (old & Hfull & Hold). rewrite Hfull.
  apply (save_without_vectors_keeps_old_index Examples.toy_library
           VectorDatabase.initial VectorDatabase.initial Examples.store_path
           dk _ old Examples.toy_model).
  - apply injective_projections; [vm_compute; reflexivity|reflexivity].
  - reflexivity.
  - exact Hold.
  - reflexivity.
Defined.

(** X14.  A load that finds the side file but no index file returns true
    from the state at import, and the store it leaves reports the chunks
    of the side file while it holds no index: [get_database_stats] gives
    their number as [total_chunks] and 0 as [index_size], and every
    [similarity_search] returns the empty list. *)
Theorem load_without_index_file :
  forall (L : VectorDatabase.Library) (dk : VectorDatabase.Disk) (path : PyStr.str)
         (texts : list PyStr.str) (metadatas : list PdfProcessor.Metadata)
         (dm : option nat) (m : VectorDatabase.SentenceTransformer),
    VectorDatabase.files dk (VectorDatabase.faiss_path path) = None ->
    VectorDatabase.files dk (VectorDatabase.pkl_path path)
    = Some (VectorDatabase.PickleFile
              {| VectorDatabase.p_texts := Some texts;
                 VectorDatabase.p_metadatas := Some metadatas;
                 VectorDatabase.p_dimension := Some dm |}) ->
    VectorDatabase.load_model L = Some m ->
    exists g',
      VectorDatabase.load_vector_database L dk path VectorDatabase.initial
      = (Py.Ok true, g')
      /\ VectorDatabase.total_chunks (VectorDatabase.get_database_stats g')
         = length texts
      /\ VectorDatabase.index_size (VectorDatabase.get_database_stats g') = 0
      /\ forall (query : PyStr.str) (k : nat),
           VectorDatabase.similarity_search L query k g' = (Py.Ok [], g').
Proof.
  intros L dk path texts metadatas dm m Hf Hp Hl.
  eexists. split.
  - apply (RoundTripFacts.load_run L dk path VectorDatabase.initial m
             texts metadatas dm); [rewrite Hf; reflexivity|exact Hp|exact Hl].
  - rewrite Hf. split; [reflexivity|]. split; [reflexivity|].
    intros query k. reflexivity.
Qed.

Lemma load_without_index_file_witness :
  let full := snd (VectorDatabase.add_to_vector_database Examples.toy_library
                     Examples.two_passages VectorDatabase.initial) in
  let dk := VectorDatabase.write_file
              (VectorDatabase.pkl_path Examples.store_path)
              (Props.side_file full) Examples.empty_disk in
  exists g',
    VectorDatabase.load_vector_database Examples.toy_library dk
      Examples.store_path VectorDatabase.initial = (Py.Ok true, g')
    /\ VectorDatabase.total_chunks (VectorDatabase.get_database_stats g') = 2
    /\ VectorDatabase.index_size (VectorDatabase.get_database_stats g') = 0
    /\ forall (query : PyStr.str) (k : nat),
         VectorDatabase.similarity_search Examples.toy_library query k g'
         = (Py.Ok [], g').
Proof.
  cbv zeta.
  apply (load_without_index_file Examples.toy_library _ Examples.store_path
           (map PdfProcessor.text Examples.two_passages)
           (map PdfProcessor.metadata Examples.two_passages)
           (Some 2) Examples.toy_model).
  - vm_compute. reflexivity.
  - vm_compute. reflexivity.
  - reflexivity.
Defined.

(** ** The answer: formatting and the critic *)

Module FormatFacts.
Import PyStr PdfProcessor RetrievalQA Props NormalForm CharFacts SubFacts.
Import ScanFacts FixpointFacts WordFacts Coverage KeywordFacts.

(** replacing a character by nothing leaves none of it *)
Lemma replace_removes c (s : str) : forall skip prev,
  Forall (fun x => x <> c)
         (sub_from (fun _ r => if startswith [c] r then Some (length [c]) else None)
                   (fun _ => []) skip prev s).
Proof.
  induction s as [|d t IH]; intros skip prev; [constructor|].
  cbn [sub_from]. destruct skip as [|k]; [|apply IH].
  cbn [startswith length]. destruct (eqc c d) eqn:E.
  - cbn [andb app]. apply IH.
  - cbn [andb]. constructor; [|apply IH].
    intros ->. unfold eqc in E. rewrite Ascii.eqb_refl in E. discriminate.
Qed.

Lemma startswith_length (p s : str) :
  startswith p s = true -> length p <= length s.
Proof.
  intros H. apply startswith_iff in H. destruct H as [v ->].
  rewrite length_app. lia.
Qed.

(** a replacement by a text that is not longer makes the text no longer *)
Lemma replace_length (old new : str) :
  length new <= length old ->
  forall (s : str) prev,
    length (sub_from (fun _ r => if startswith old r then Some (length old) else None)
                     (fun _ => new) 0 prev s)
    <= length s.
Proof.
  intros Hn s. induction s as [s IH] using str_length_ind. intros prev.
  destruct s as [|c t]; [reflexivity|].
  rewrite sub_step.
  destruct (startswith old (c :: t)) eqn:E.
  - destruct (length old) as [|n] eqn:El.
    + cbn [length]. specialize (IH t ltac:(simpl; lia) (Some c)). lia.
    + apply startswith_length in E. rewrite El in E. cbn [length] in E.
      rewrite length_app.
      specialize (IH (skipn n t)
                     ltac:(simpl; rewrite length_skipn; lia)
                     (prev_after (Some c) (firstn n t))).
      rewrite length_skipn in IH. cbn [length]. lia.
  - cbn [length]. specialize (IH t ltac:(simpl; lia) (Some c)). lia.
Qed.

Lemma dropwhile_length p (s : str) : length (dropwhile p s) <= length s.
Proof.
  induction s as [|c t IH]; [reflexivity|].
  cbn [dropwhile]. destruct (p c); simpl; lia.
Qed.

Lemma strip_length (s : str) : length (strip s) <= length s.
Proof.
  unfold strip, rstrip, lstrip. rewrite length_rev.
  pose proof (dropwhile_length isspace (rev (dropwhile isspace s))) as H1.
  pose proof (dropwhile_length isspace s) as H2.
  rewrite length_rev in H1. lia.
Qed.

Lemma format_unfold (response : str) :
  format_medical_response response
  = strip (replace (nl ++ nl ++ nl) (nl ++ nl)
             (replace (lit "*") [] (replace (lit "**") [] response))).
Proof. reflexivity. Qed.

Lemma format_no_asterisk (response : str) :
  Forall not_asterisk (format_medical_response response).
Proof.
  rewrite format_unfold. apply Forall_strip.
  unfold replace at 1. apply sub_Forall.
  - intros _ _ _ _ _. repeat constructor; discriminate.
  - unfold replace at 1, sub. apply (replace_removes "*"%char).
Qed.

Lemma format_trimmed (response : str) :
  strip (format_medical_response response) = format_medical_response response.
Proof. rewrite format_unfold. apply strip_strip. Qed.

Lemma format_length (response : str) :
  length (format_medical_response response) <= length response.
Proof.
  rewrite format_unfold.
  eapply Nat.le_trans; [apply strip_length|].
  eapply Nat.le_trans; [apply replace_length; simpl; lia|].
  eapply Nat.le_trans; [apply replace_length; simpl; lia|].
  apply replace_length. simpl. lia.
Qed.

(** the critic, read as a statement about the parts of the response *)
Lemma is_response_complete_iff (r : str) :
  is_response_complete r = true
  <-> 80 <= length r
      /\ forall phrase u w v,
           In phrase vague_phrases -> r = u ++ w ++ v ->
           lower w <> lower (lit phrase).
Proof.
  unfold is_response_complete.
  assert (H : negb (existsb (fun phrase => contains (lower (lit phrase)) (lower r))
                            vague_phrases) = true
              <-> forall phrase u w v,
                    In phrase vague_phrases -> r = u ++ w ++ v ->
                    lower w <> lower (lit phrase)).
  { rewrite negb_true_iff. split.
    - intros E phrase u w v Hin Er Ew.
      assert (X : existsb (fun phrase => contains (lower (lit phrase)) (lower r))
                          vague_phrases = true).
      { apply existsb_exists. exists phrase. split; [exact Hin|].
        apply contains_lower_iff. exists u, w, v. auto. }
      rewrite X in E. discriminate.
    - intros H. destruct (existsb _ _) eqn:E; [|reflexivity].
      apply existsb_exists in E. destruct E as [phrase [Hin Hc]].
      apply contains_lower_iff in Hc. destruct Hc as (u & w & v & Er & Ew).
      exfalso. exact (H phrase u w v Hin Er Ew). }
  destruct r as [|c t]; [split; [discriminate|intros [L _]; simpl in L; lia]|].
  destruct (length (c :: t) <? 80) eqn:E.
  - apply Nat.ltb_lt in E. split; [discriminate|intros [L _]; lia].
  - apply Nat.ltb_ge in E. rewrite H. split; [intros X; split; assumption|intros [_ X]; exact X].
Qed.

End FormatFacts.

(** X15.  The text [format_medical_response] returns contains no asterisk,
    has no blank at either end, and is never longer than the response it
    was given. *)
Theorem format_medical_response_clean :
  forall response : PyStr.str,
    Forall Coverage.not_asterisk (RetrievalQA.format_medical_response response)
    /\ PyStr.strip (RetrievalQA.format_medical_response response)
       = RetrievalQA.format_medical_response response
    /\ length (RetrievalQA.format_medical_response response) <= length response.
Proof.
  intros response.
  split; [apply FormatFacts.format_no_asterisk|].
  split; [apply FormatFacts.format_trimmed|apply FormatFacts.format_length].
Qed.

(** X16.  The critic accepts a response exactly when it has at least 80
    characters and no part of it is, letter case ignored, one of the six
    vague phrases: a phrase anywhere in the text rejects it, however long
    the text is. *)
Theorem is_response_complete_characterised :
  forall r : PyStr.str,
    RetrievalQA.is_response_complete r = true
    <-> 80 <= length r
        /\ forall phrase u w v,
             In phrase RetrievalQA.vague_phrases -> r = u ++ w ++ v ->
             PyStr.lower w <> PyStr.lower (PyStr.lit phrase).
Proof. exact FormatFacts.is_response_complete_iff. Qed.

(** ** The critic loop: what it returns and what it leaves *)

Module LoopFacts.
Import PyStr PdfProcessor Py VectorDatabase RetrievalQA Props VectorFacts.
Import RetrievalFacts StoreFacts FormatFacts Coverage Examples.

Section WithClient.
Variable L : Library.
Variable format_2f : Q -> str.
Variable groq_client : Groq.

Local Abbreviation critic_loop := (critic_loop L format_2f groq_client).
Local Abbreviation draft := (draft L format_2f groq_client).
Local Abbreviation retrieve := (retrieve_relevant_context L format_2f).
Local Abbreviation complete := (chat_completion groq_client).

Lemma lift_run {A} (c : M Globals A) s o s' :
  lift c s = (o, s') -> c (globals s) = (o, globals s').
Proof.
  unfold lift. destruct (c (globals s)) as [o1 g1].
  intros H. inversion H; subst. reflexivity.
Qed.

Lemma retrieve_store query k s o s' :
  retrieve query k s = (o, s') -> same_store (globals s) (globals s').
Proof.
  unfold retrieve_relevant_context. intros H.
  apply bind_run in H. destruct H as [(u & s1 & H1 & H)|[H1 _]];
    [|discriminate H1].
  unfold modify in H1. injection H1 as _ <-.
  apply bind_run in H. destruct H as [(r & s2 & H2 & H)|[H2 _]].
  - apply lift_run in H2. apply framed_similarity_search in H2.
    destruct r; inversion H; subst; exact H2.
  - apply lift_run in H2. apply framed_similarity_search in H2. exact H2.
Qed.

Lemma complete_store prompt s o s' :
  complete prompt s = (o, s') -> globals s' = globals s.
Proof.
  unfold chat_completion, bind, get, modify, of_option. simpl.
  destruct (groq_client _ _); intros H; inversion H; subst; reflexivity.
Qed.

(** a turn leaves the store as it is, and its candidate is a formatted
    response *)
Lemma draft_store query k s o s' :
  draft query k s = (o, s') ->
  same_store (globals s) (globals s')
  /\ forall c, o = Ok c -> exists response, c = format_medical_response response.
Proof.
  intros H. apply draft_run in H.
  destruct H as [[H ->]|(context & s1 & H1 & H)].
  - apply retrieve_store in H. split; [exact H|discriminate].
  - apply retrieve_store in H1.
    destruct H as [[H ->]|(r & H & ->)].
    + apply complete_store in H. rewrite H. split; [exact H1|discriminate].
    + apply complete_store in H. rewrite H. split; [exact H1|].
      intros c E. injection E as <-. exists r. reflexivity.
Qed.

Lemma critic_loop_keeps (P : str -> Prop) :
  (forall response, P (format_medical_response response)) ->
  forall n query top_k retries final s o s',
    turns_left top_k = n ->
    P final ->
    critic_loop query top_k retries final s = (o, s') ->
    same_store (globals s) (globals s')
    /\ forall c r, o = Ok (c, r) -> P c.
Proof.
  intros HP. induction n as [|n IH];
    intros query top_k retries final s o s' Hn Hf H;
    rewrite critic_loop_unfold in H;
    destruct (le_lt_dec top_k max_top_k) as [Hle|Hgt];
    unfold turns_left, max_top_k in *; try lia.
  - inversion H; subst. split; [apply same_store_refl|].
    intros c r E. injection E as <- _. exact Hf.
  - destruct (draft query top_k s) as [[c|] s1] eqn:Ed;
      apply draft_store in Ed; destruct Ed as [Hs Hc].
    + destruct (Hc c eq_refl) as [response ->].
      destruct (is_response_complete (format_medical_response response)).
      * inversion H; subst. split; [exact Hs|].
        intros c r E. injection E as <- _. apply HP.
      * apply IH in H; [|unfold turns_left, max_top_k; lia|apply HP].
        destruct H as [Hs' Hc']. split; [|exact Hc'].
        eapply same_store_trans; eassumption.
    + inversion H; subst. split; [exact Hs|discriminate].
Qed.

Section Chain.
Variable query : str.
Variable ss : nat -> Session.
Variable cs : nat -> str.

Local Abbreviation rejected_between :=
  (rejected_between L format_2f groq_client query ss cs).

Lemma rejected_until_accepted n : forall k retries final hi c s_acc,
  k + n = hi -> hi <= max_top_k ->
  rejected_between k hi ->
  draft query hi (ss hi) = (Ok c, s_acc) ->
  is_response_complete c = true ->
  critic_loop query k retries final (ss k) = (Ok (c, retries + n), s_acc).
Proof.
  unfold max_top_k.
  induction n as [|n IH]; intros k retries final hi c s_acc Hk Hhi Hrej Hd Hc;
    rewrite critic_loop_unfold;
    destruct (le_lt_dec k max_top_k) as [Hle|Hgt]; unfold max_top_k in *; try lia.
  - assert (k = hi) by lia. subst k. rewrite Hd, Hc.
    rewrite Nat.add_0_r. reflexivity.
  - destruct (Hrej k ltac:(lia)) as [Hd' Hc']. rewrite Hd', Hc'.
    replace (k + 1) with (S k) by lia.
    rewrite (IH (S k) (retries + 1) (cs k) hi c s_acc); auto; try lia.
    + do 3 f_equal. lia.
    + intros j Hj. apply Hrej. lia.
Qed.

End Chain.

End WithClient.

Lemma recovering_client_rejected :
  rejected_between toy_library plain_2f recovering_client fever session_at
                   (fun _ => lit "I don't know.") 3 5.
Proof.
  intros k Hk. do 3 (destruct k as [|k]; [lia|]).
  do 2 (destruct k as [|k]; [vm_compute; split; reflexivity|]). lia.
Qed.

Lemma fallback_clean :
  Forall not_asterisk (lit fallback) /\ strip (lit fallback) = lit fallback.
Proof.
  split; [|vm_compute; reflexivity].
  apply Forall_forall. intros c Hc ->. vm_compute in Hc.
  repeat (destruct Hc as [Hc|Hc]; [discriminate Hc|]). exact Hc.
Qed.

End LoopFacts.

(** X17.  [generate_medical_response] returns the first candidate the
    critic accepts: when the turns before breadth [hi] all ended with a
    rejected candidate and the turn of breadth [hi] ends with a candidate
    the critic accepts, that candidate is returned, in the session reached
    by that turn: no further retrieval or completion call is made. *)
Theorem generate_medical_response_first_accepted :
  forall (L : VectorDatabase.Library) (format_2f : Q -> PyStr.str)
         (groq_client : RetrievalQA.Groq) (query : PyStr.str)
         (s : RetrievalQA.Session) (hi : nat)
         (ss : nat -> RetrievalQA.Session) (cs : nat -> PyStr.str)
         (c : PyStr.str) (s_acc : RetrievalQA.Session),
    3 <= hi <= 12 ->
    ss 3 = s ->
    Props.rejected_between L format_2f groq_client query ss cs 3 hi ->
    RetrievalQA.draft L format_2f groq_client query hi (ss hi) = (Py.Ok c, s_acc) ->
    RetrievalQA.is_response_complete c = true ->
    RetrievalQA.generate_medical_response L format_2f groq_client query s
    = (c, s_acc).
Proof.
  intros L format_2f groq_client query s hi ss cs c s_acc Hhi Hs Hrej Hd Hc.
  subst s. unfold RetrievalQA.generate_medical_response.
  rewrite (LoopFacts.rejected_until_accepted L format_2f groq_client query ss cs
             (hi - 3) 3 0 [] hi c s_acc);
    [reflexivity|lia|unfold RetrievalQA.max_top_k; lia|exact Hrej|exact Hd|exact Hc].
Qed.

Lemma generate_medical_response_first_accepted_witness :
  RetrievalQA.generate_medical_response Examples.toy_library Examples.plain_2f
    Coverage.recovering_client Examples.fever (Examples.session_at 3)
  = (Coverage.long_answer, Examples.session_at 6)
  /\ RetrievalQA.retrievals (Examples.session_at 6) = [3; 4; 5].
Proof.
  split; [|reflexivity].
  apply generate_medical_response_first_accepted
    with (hi := 5) (ss := Examples.session_at)
         (cs := fun _ => PyStr.lit "I don't know.").
  - lia.
  - reflexivity.
  - exact LoopFacts.recovering_client_rejected.
  - vm_compute. reflexivity.
  - vm_compute. reflexivity.
Defined.

(** X18.  Answering a question never changes the knowledge base: whatever
    the collaborators do, after [generate_medical_response] the index
    count, the stored texts and the stored metadata are what they were
    before. *)
Theorem generate_medical_response_keeps_store :
  forall (L : VectorDatabase.Library) (format_2f : Q -> PyStr.str)
         (groq_client : RetrievalQA.Groq) (query : PyStr.str)
         (s : RetrievalQA.Session),
    Props.same_store
      (RetrievalQA.globals s)
      (RetrievalQA.globals
         (snd (RetrievalQA.generate_medical_response L format_2f groq_client
                 query s))).
Proof.
  intros L format_2f groq_client query s.
  unfold RetrievalQA.generate_medical_response.
  destruct (RetrievalQA.critic_loop L format_2f groq_client query 3 0 [] s)
    as [o s'] eqn:E.
  apply (LoopFacts.critic_loop_keeps L format_2f groq_client (fun _ => True)
           (fun _ => I) _ _ _ _ _ _ _ _ eq_refl I) in E.
  destruct E as [Hs _]. destruct o as [[c r]|]; exact Hs.
Qed.

(** X19.  The answer [generate_medical_response] returns, be it a
    candidate or the apology, contains no asterisk and has no blank at
    either end. *)
Theorem generate_medical_response_clean :
  forall (L : VectorDatabase.Library) (format_2f : Q -> PyStr.str)
         (groq_client : RetrievalQA.Groq) (query : PyStr.str)
         (s : RetrievalQA.Session),
    Forall Coverage.not_asterisk
           (fst (RetrievalQA.generate_medical_response L format_2f groq_client
                   query s))
    /\ PyStr.strip
         (fst (RetrievalQA.generate_medical_response L format_2f groq_client
                 query s))
       = fst (RetrievalQA.generate_medical_response L format_2f groq_client
                query s).
Proof.
  intros L format_2f groq_client query s.
  unfold RetrievalQA.generate_medical_response.
  destruct (RetrievalQA.critic_loop L format_2f groq_client query 3 0 [] s)
    as [o s'] eqn:E.
  assert (HP : forall response,
             Forall Coverage.not_asterisk (RetrievalQA.format_medical_response response)
             /\ PyStr.strip (RetrievalQA.format_medical_response response)
                = RetrievalQA.format_medical_response response).
  { intros response. split;
      [apply FormatFacts.format_no_asterisk|apply FormatFacts.format_trimmed]. }
  assert (H0 : Forall Coverage.not_asterisk (@nil ascii) /\ PyStr.strip [] = [])
    by (split; [constructor|reflexivity]).
  apply (LoopFacts.critic_loop_keeps L format_2f groq_client
           (fun c => Forall Coverage.not_asterisk c /\ PyStr.strip c = c)
           HP _ _ _ _ _ _ _ _ eq_refl H0) in E.
  destruct E as [_ Hc]. destruct o as [[c r]|].
  - exact (Hc c r eq_refl).
  - exact LoopFacts.fallback_clean.
Qed.

(** ** The application *)

Module AppFacts.
Import PyStr PdfProcessor PdfExtraction Py VectorDatabase RetrievalQA Props.
Import VectorFacts StoreFacts PersistenceFacts RoundTripFacts LoopFacts Coverage App.

Lemma set_store_same (w : World) : set_store (store w) w = w.
Proof. destruct w; reflexivity. Qed.

Lemma generate_keeps_store (L : Library) format_2f groq_client query s :
  same_store (globals s)
    (globals (snd (generate_medical_response L format_2f groq_client query s))).
Proof.
  unfold generate_medical_response.
  destruct (RetrievalQA.critic_loop L format_2f groq_client query 3 0 [] s)
    as [o s'] eqn:E.
  apply (critic_loop_keeps L format_2f groq_client (fun _ => True)
           (fun _ => I) _ _ _ _ _ _ _ _ eq_refl I) in E.
  destruct E as [Hs _]. destruct o as [[c r]|]; exact Hs.
Qed.

(** a request that is not admitted is answered without a call *)
Lemma chat_not_admitted (L : Library) format_2f groq_client clock payload s :
  admitted payload = false ->
  snd (chat L format_2f groq_client clock payload s) = s
  /\ (status (fst (chat L format_2f groq_client clock payload s)) = 200 ->
      body (fst (chat L format_2f groq_client clock payload s))
      = ReplyBody (lit not_medical) clock).
Proof.
  intros H. unfold chat, chat_body, bind.
  destruct payload as [| |m]; cbn [raise ret strip].
  - split; [reflexivity|discriminate].
  - split; [reflexivity|discriminate].
  - cbn [admitted] in H. destruct (strip m) as [|c t] eqn:Em.
    + split; [reflexivity|discriminate].
    + cbn [length Nat.eqb negb andb] in H.
      destruct (500 <? length (c :: t)) eqn:E5.
      * split; [reflexivity|discriminate].
      * apply Nat.ltb_ge in E5. apply Nat.leb_le in E5.
        cbn [length] in E5. rewrite E5 in H. cbn [andb] in H.
        rewrite H. cbn [negb]. split; reflexivity.
Qed.

Lemma chat_admitted (L : Library) format_2f groq_client clock payload s :
  admitted payload = true ->
  exists m,
    payload = Message m
    /\ chat L format_2f groq_client clock payload s
       = ({| body := ReplyBody
                       (fst (generate_medical_response L format_2f groq_client
                               (strip m) s)) clock;
             status := 200 |},
          snd (generate_medical_response L format_2f groq_client (strip m) s)).
Proof.
  intros H. destruct payload as [| |m]; try discriminate.
  exists m. split; [reflexivity|].
  cbn [admitted] in H.
  apply andb_true_iff in H. destruct H as [H Hv].
  apply andb_true_iff in H. destruct H as [H0 H5].
  unfold chat, chat_body, bind. cbn [ret].
  destruct (strip m) as [|c t] eqn:Em; [discriminate|].
  apply Nat.leb_le in H5.
  destruct (500 <? length (c :: t)) eqn:E5; [apply Nat.ltb_lt in E5; lia|].
  rewrite Hv. cbn [negb].
  destruct (generate_medical_response L format_2f groq_client (c :: t) s);
    reflexivity.
Qed.

(** the run of [process_medical_pdf], step by step *)
Lemma process_medical_pdf_run (L : Library) (E : Environment) w o w' :
  process_medical_pdf L E w = (o, w') ->
  let chunks := process_pdf_complete (split_text E)
                  (extract_text_from_pdf (pdf_reader E)) in
  (o = Ok false /\ (pdf_exists E = false \/ chunks = []) /\ w' = w)
  \/ (pdf_exists E = true /\ chunks <> []
      /\ exists o1 g1,
          add_to_vector_database L chunks (store w) = (o1, g1)
          /\ ((o1 = Raise /\ o = Ok false /\ w' = set_store g1 w)
              \/ (o1 = Ok tt
                  /\ exists o2 dk2,
                      VectorDatabase.save_vector_database g1 VECTOR_DB_PATH (disk w)
                      = (o2, dk2)
                      /\ w' = set_disk dk2 (set_store g1 w)
                      /\ ((o2 = Raise /\ o = Ok false)
                          \/ (o2 = Ok tt /\ o = Ok true))))).
Proof.
  cbv zeta. unfold process_medical_pdf, try_except.
  destruct (pdf_exists E); cbn [negb];
    [|intros H; inversion H; subst; left; auto].
  destruct (process_pdf_complete (split_text E)
              (extract_text_from_pdf (pdf_reader E))) as [|c chunks] eqn:Ec;
    [intros H; inversion H; subst; left; auto|].
  intros H. right. split; [reflexivity|]. split; [discriminate|].
  unfold bind, on_store, save_vector_database in H.
  destruct (add_to_vector_database L (c :: chunks) (store w)) as [o1 g1] eqn:Ea.
  exists o1, g1. split; [reflexivity|].
  destruct o1 as [[]|].
  - right. split; [reflexivity|]. cbn [store disk set_store] in H.
    destruct (VectorDatabase.save_vector_database g1 VECTOR_DB_PATH (disk w))
      as [o2 dk2] eqn:Es.
    exists o2, dk2. split; [reflexivity|].
    destruct o2 as [[]|]; inversion H; subst; split; auto.
  - left. inversion H; subst. auto.
Qed.

Lemma process_medical_pdf_true (L : Library) (E : Environment) w w' :
  encode_row_per_text L ->
  process_medical_pdf L E w = (Ok true, w') ->
  let chunks := process_pdf_complete (split_text E)
                  (extract_text_from_pdf (pdf_reader E)) in
  chunks <> []
  /\ index_count (store w') = index_count (store w) + length chunks
  /\ vector_texts (store w') = vector_texts (store w) ++ map text chunks
  /\ vector_metadatas (store w')
     = vector_metadatas (store w) ++ map metadata chunks
  /\ files (disk w') (pkl_path VECTOR_DB_PATH) = Some (side_file (store w'))
  /\ app_vector_index w' = app_vector_index w.
Proof.
  intros Hrows H. apply process_medical_pdf_run in H. cbv zeta in H.
  destruct H as [(H & _)|(_ & Hc & o1 & g1 & Ea & H)]; [discriminate|].
  destruct H as [(_ & H & _)|(-> & o2 & dk2 & Es & -> & H)]; [discriminate|].
  destruct H as [(_ & H)|(-> & _)]; [discriminate|].
  pose proof (add_run L Hrows _ _ _ _ Ea) as (Hi & Ht & Hm & _).
  apply saved_files in Es. destruct Es as [Hp _].
  cbv zeta. cbn [store disk set_disk set_store app_vector_index].
  repeat split; assumption.
Qed.

(** a completed [add_to_vector_database] has appended the texts, whatever
    the embedding model returned *)
Lemma add_texts (L : Library) chunks g g' :
  add_to_vector_database L chunks g = (Ok tt, g') ->
  vector_texts g' = vector_texts g ++ map text chunks.
Proof.
  intros H. unfold add_to_vector_database in H.
  apply bind_run in H.
  destruct H as [(g0 & g1 & H0 & H)|[_ H]]; [|discriminate].
  inversion H0; subst g0 g1; clear H0.
  apply bind_run in H.
  assert (Hcreate : forall o1 g1,
             (match vector_index g with
              | Some _ => ret tt
              | None => create_vector_index L;;; ret tt
              end) g = (o1, g1) -> same_store g g1).
  { intros o1 g1 E. destruct (vector_index g) eqn:Hi.
    - inversion E; subst. apply same_store_refl.
    - apply bind_run in E.
      destruct E as [(i & g2 & E1 & E2)|[E1 _]].
      + inversion E2; subst.
        eapply create_vector_index_frame; eauto.
      + eapply create_vector_index_frame; eauto. }
  destruct H as [(u & g1 & H1 & H)|[_ H]]; [|discriminate].
  apply Hcreate in H1.
  apply bind_run in H.
  destruct H as [(x & g2 & H2 & H)|[_ H]]; [|discriminate].
  apply framed_generate_embeddings in H2.
  apply bind_run in H.
  destruct H as [(y & g3 & H3 & H)|[_ H]]; [|discriminate].
  apply normalize_L2_run in H3. destruct H3 as [-> _].
  assert (Hs : same_store g g2) by (eapply same_store_trans; eassumption).
  unfold bind, get, of_option, of_outcome, modify in H.
  destruct (vector_index g2) as [index|]; simpl in H; [|discriminate].
  destruct (index_add index y) as [index'|]; simpl in H; [|discriminate].
  inversion H; subst. destruct Hs as (_ & Ht & _).
  simpl. rewrite Ht. reflexivity.
Qed.

Lemma load_never_raises (L : Library) dk path g :
  exists b g', VectorDatabase.load_vector_database L dk path g = (Ok b, g').
Proof.
  unfold VectorDatabase.load_vector_database, try_except.
  destruct (load_body L dk path g) as [[b|] g1]; eexists; eexists; reflexivity.
Qed.

Lemma process_medical_pdf_returns (L : Library) (E : Environment) w :
  exists b w', process_medical_pdf L E w = (Ok b, w').
Proof.
  destruct (process_medical_pdf L E w) as [o w'] eqn:H.
  apply process_medical_pdf_run in H. cbv zeta in H.
  destruct H as [(-> & _)|(_ & _ & o1 & g1 & _ & H)]; [eauto|].
  destruct H as [(_ & -> & _)|(_ & o2 & dk2 & _ & _ & H)]; [eauto|].
  destruct H as [(_ & ->)|(_ & ->)]; eauto.
Qed.

Lemma process_medical_pdf_chunks (L : Library) (E : Environment) w w' :
  process_medical_pdf L E w = (Ok true, w') ->
  0 < length (vector_texts (store w')).
Proof.
  intros H. apply process_medical_pdf_run in H. cbv zeta in H.
  destruct H as [(H & _)|(_ & Hc & o1 & g1 & Ea & H)]; [discriminate|].
  destruct H as [(_ & H & _)|(-> & o2 & dk2 & Es & -> & H)]; [discriminate|].
  apply add_texts in Ea. cbn [store set_disk set_store].
  rewrite Ea, length_app, length_map.
  destruct (process_pdf_complete _ _); [contradiction|simpl; lia].
Qed.

Lemma initialize_medical_chatbot_run (L : Library) (E : Environment) w :
  (load_model L = None ->
   initialize_medical_chatbot L E w = (Raise, w))
  /\ (forall m, load_model L = Some m ->
        exists b w', initialize_medical_chatbot L E w = (Ok b, w')
                     /\ (b = true -> 0 < length (vector_texts (store w'))))
  /\ (forall g1,
        VectorDatabase.load_vector_database L (disk w) VECTOR_DB_PATH
          (snd (initialize_embeddings L (store w))) = (Ok true, g1) ->
        vector_texts g1 <> [] ->
        fst (initialize_embeddings L (store w)) <> Raise ->
        initialize_medical_chatbot L E w = (Ok true, set_store g1 w)).
Proof.
  unfold initialize_medical_chatbot.
  split; [|split].
  - intros Hl. unfold bind, on_store, initialize_embeddings, of_option.
    rewrite Hl. destruct w; reflexivity.
  - intros m Hl.
    unfold bind at 1. unfold on_store at 1.
    unfold initialize_embeddings, bind, of_option, modify. rewrite Hl.
    cbn [ret]. unfold load_vector_database.
    set (g0 := set_dimension _ _). cbn [store disk set_store].
    destruct (load_never_raises L (disk w) VECTOR_DB_PATH g0) as (b & g1 & ->).
    cbn [get store set_store].
    destruct (b && (0 <? total_chunks (get_database_stats g1))) eqn:Eb.
    + eexists; eexists. split; [reflexivity|]. intros _.
      apply andb_true_iff in Eb. destruct Eb as [_ Eb].
      apply Nat.ltb_lt in Eb. exact Eb.
    + destruct (process_medical_pdf_returns L E (set_store g1 (set_store g0 w)))
        as (b' & w' & Ep).
      rewrite Ep. eexists; eexists. split; [reflexivity|].
      intros ->. eapply process_medical_pdf_chunks, Ep.
  - intros g1 Hload Ht Hi.
    unfold bind at 1. unfold on_store at 1.
    destruct (initialize_embeddings L (store w)) as [o0 g0] eqn:E0.
    cbn [fst snd] in *. destruct o0 as [m|]; [|contradiction].
    unfold bind, load_vector_database. cbn [store disk set_store].
    rewrite Hload. cbn [get store set_store total_chunks get_database_stats].
    destruct (vector_texts g1) as [|t ts] eqn:Et; [contradiction|].
    cbn [length Nat.ltb Nat.leb andb ret]. destruct w; reflexivity.
Qed.

End AppFacts.

(** X20.  [chat] calls the retrieval and the completion service only for a
    request that carries a message which, once trimmed, is not empty, has
    at most 500 characters and contains a medical indicator: every other
    request is answered with the session exactly as it was (no retrieval,
    no completion call), and the only answer of status 200 it can get is
    the fixed request to ask a medical question; an admitted request gets
    the answer of [generate_medical_response] for the trimmed message. In
    no case does a request change index count, texts or metadata. *)
Theorem chat_calls_only_for_admitted_requests :
  forall (L : VectorDatabase.Library) (format_2f : Q -> PyStr.str)
         (groq_client : RetrievalQA.Groq) (clock : PyStr.str)
         (payload : App.Payload) (s : RetrievalQA.Session),
    (Coverage.admitted payload = false ->
     snd (App.chat L format_2f groq_client clock payload s) = s
     /\ (App.status (fst (App.chat L format_2f groq_client clock payload s)) = 200 ->
         App.body (fst (App.chat L format_2f groq_client clock payload s))
         = App.ReplyBody (PyStr.lit App.not_medical) clock))
    /\ (Coverage.admitted payload = true ->
        exists m,
          payload = App.Message m
          /\ App.chat L format_2f groq_client clock payload s
             = ({| App.body :=
                     App.ReplyBody
                       (fst (RetrievalQA.generate_medical_response L format_2f
                               groq_client (PyStr.strip m) s)) clock;
                   App.status := 200 |},
                snd (RetrievalQA.generate_medical_response L format_2f
                       groq_client (PyStr.strip m) s)))
    /\ Props.same_store
         (RetrievalQA.globals s)
         (RetrievalQA.globals
            (snd (App.chat L format_2f groq_client clock payload s))).
Proof.
  intros L format_2f groq_client clock payload s.
  split; [apply AppFacts.chat_not_admitted|].
  split; [apply AppFacts.chat_admitted|].
  destruct (Coverage.admitted payload) eqn:Ha.
  - destruct (AppFacts.chat_admitted L format_2f groq_client clock payload s Ha)
      as (m & _ & ->).
    cbn [snd]. apply AppFacts.generate_keeps_store.
  - destruct (AppFacts.chat_not_admitted L format_2f groq_client clock payload s Ha)
      as [-> _].
    apply VectorFacts.same_store_refl.
Qed.

(** X21.  [reprocess_pdf] does not clear the index of the store: it empties
    the two lists and binds a name of its own to [None], while the index
    in [utils.vector_database] keeps its vectors.  So when it succeeds,
    texts and metadata are those of the new passages alone, and the index
    holds the old vectors and the new ones: [index_size] is the old size
    plus the number of new passages, [total_chunks] is the number of new
    passages. *)
Theorem reprocess_pdf_keeps_old_index :
  forall (L : VectorDatabase.Library) (E : App.Environment) (str_e : PyStr.str)
         (w : App.World),
    Props.encode_row_per_text L ->
    App.status (fst (App.reprocess_pdf L E str_e w)) = 200 ->
    let chunks := PdfProcessor.process_pdf_complete (App.split_text E)
                    (PdfExtraction.extract_text_from_pdf (App.pdf_reader E)) in
    let w' := snd (App.reprocess_pdf L E str_e w) in
    chunks <> []
    /\ VectorDatabase.vector_texts (App.store w') = map PdfProcessor.text chunks
    /\ VectorDatabase.vector_metadatas (App.store w')
       = map PdfProcessor.metadata chunks
    /\ VectorDatabase.total_chunks (VectorDatabase.get_database_stats (App.store w'))
       = length chunks
    /\ VectorDatabase.index_size (VectorDatabase.get_database_stats (App.store w'))
       = VectorDatabase.index_size (VectorDatabase.get_database_stats (App.store w))
         + length chunks
    /\ App.body (fst (App.reprocess_pdf L E str_e w))
       = App.ReprocessedBody (PyStr.lit "PDF reprocessed successfully!")
                             (length chunks)
    /\ App.app_vector_index w' = Some None.
Proof.
  intros L E str_e w Hrows Hs. cbv zeta.
  unfold App.reprocess_pdf, App.reprocess_body, Py.bind, Py.modify in *.
  destruct (AppFacts.process_medical_pdf_returns L E (App.clear_existing_database w))
    as (b & w1 & Ep).
  rewrite Ep in *. unfold Py.get, Py.ret in *.
  destruct b; [|discriminate Hs].
  apply (AppFacts.process_medical_pdf_true L E _ _ Hrows) in Ep.
  cbv zeta in Ep. destruct Ep as (Hc & Hi & Ht & Hm & _ & Ha).
  unfold Props.index_count in Hi.
  simpl in Hi, Ht, Hm, Ha. simpl.
  split; [exact Hc|]. split; [exact Ht|]. split; [exact Hm|].
  split; [rewrite Ht; apply length_map|].
  split; [exact Hi|].
  split; [rewrite Ht, length_map; reflexivity|exact Ha].
Qed.

Lemma reprocess_pdf_keeps_old_index_witness :
  let w' := snd (App.reprocess_pdf Examples.toy_library Coverage.toy_environment
                   [] Coverage.toy_world) in
  VectorDatabase.index_size (VectorDatabase.get_database_stats
                               (App.store Coverage.toy_world)) = 2
  /\ VectorDatabase.total_chunks (VectorDatabase.get_database_stats (App.store w')) = 1
  /\ VectorDatabase.index_size (VectorDatabase.get_database_stats (App.store w')) = 3.
Proof.
  cbv zeta. split; [vm_compute; reflexivity|].
  destruct (reprocess_pdf_keeps_old_index Examples.toy_library
              Coverage.toy_environment [] Coverage.toy_world
              ExampleFacts.toy_library_row_per_text)
    as (_ & _ & _ & Ht & Hi & _).
  - vm_compute. reflexivity.
  - cbv zeta in Ht, Hi. rewrite Ht, Hi. split; vm_compute; reflexivity.
Defined.

(** X22.  [process_medical_pdf] never raises.  It returns true only after
    the passages of the PDF were added to the store and the store was
    saved: there is at least one passage, the index count has grown by
    their number, their texts and metadata are appended, and the side file
    on disk holds the texts and metadata of the store.  When the PDF is
    missing or gives no passage, it returns false and touches nothing. *)
Theorem process_medical_pdf_outcomes :
  forall (L : VectorDatabase.Library) (E : App.Environment) (w : App.World),
    Props.encode_row_per_text L ->
    let chunks := PdfProcessor.process_pdf_complete (App.split_text E)
                    (PdfExtraction.extract_text_from_pdf (App.pdf_reader E)) in
    exists (b : bool) (w' : App.World),
      App.process_medical_pdf L E w = (Py.Ok b, w')
      /\ (b = true ->
          chunks <> []
          /\ Props.index_count (App.store w')
             = Props.index_count (App.store w) + length chunks
          /\ VectorDatabase.vector_texts (App.store w')
             = VectorDatabase.vector_texts (App.store w) ++ map PdfProcessor.text chunks
          /\ VectorDatabase.vector_metadatas (App.store w')
             = VectorDatabase.vector_metadatas (App.store w)
               ++ map PdfProcessor.metadata chunks
          /\ VectorDatabase.files (App.disk w')
               (VectorDatabase.pkl_path App.VECTOR_DB_PATH)
             = Some (Props.side_file (App.store w')))
      /\ (App.pdf_exists E = false \/ chunks = [] -> b = false /\ w' = w).
Proof.
  intros L E w Hrows. cbv zeta.
  destruct (AppFacts.process_medical_pdf_returns L E w) as (b & w' & Ep).
  exists b, w'. split; [exact Ep|]. split.
  - intros ->. apply (AppFacts.process_medical_pdf_true L E _ _ Hrows) in Ep.
    cbv zeta in Ep. destruct Ep as (H1 & H2 & H3 & H4 & H5 & _).
    repeat split; assumption.
  - intros Hn. apply AppFacts.process_medical_pdf_run in Ep. cbv zeta in Ep.
    destruct Ep as [(Eo & _ & ->)|(He & Hc & _)].
    + injection Eo as ->. split; reflexivity.
    + destruct Hn as [Hn|Hn]; [rewrite Hn in He; discriminate|contradiction].
Qed.

Lemma process_medical_pdf_outcomes_witness :
  exists w',
    App.process_medical_pdf Examples.toy_library Coverage.toy_environment
      Coverage.toy_world = (Py.Ok true, w')
    /\ length (VectorDatabase.vector_texts (App.store w')) = 3.
Proof.
  destruct (process_medical_pdf_outcomes Examples.toy_library
              Coverage.toy_environment Coverage.toy_world
              ExampleFacts.toy_library_row_per_text)
    as (b & w' & Ep & Ht & _).
  cbv zeta in Ht.
  assert (Eb : b = true).
  { assert (X : fst (App.process_medical_pdf Examples.toy_library
                       Coverage.toy_environment Coverage.toy_world) = Py.Ok true)
      by (vm_compute; reflexivity).
    rewrite Ep in X. injection X as ->. reflexivity. }
  subst b. exists w'. split; [exact Ep|].
  destruct (Ht eq_refl) as (_ & _ & -> & _).
  vm_compute. reflexivity.
Defined.

(** X23.  [initialize_medical_chatbot] raises exactly when the embedding
    model cannot be loaded, and then leaves everything as it was;
    otherwise it returns a boolean, and true only when the store holds at
    least one chunk.  When the load finds a knowledge base with at least
    one chunk, it returns true with the loaded store, and the PDF is not
    processed and the disk not written. *)
Theorem initialize_medical_chatbot_outcomes :
  forall (L : VectorDatabase.Library) (E : App.Environment) (w : App.World),
    (VectorDatabase.load_model L = None ->
     App.initialize_medical_chatbot L E w = (Py.Raise, w))
    /\ (VectorDatabase.load_model L <> None ->
        exists (b : bool) (w' : App.World),
          App.initialize_medical_chatbot L E w = (Py.Ok b, w')
          /\ (b = true ->
              0 < VectorDatabase.total_chunks
                    (VectorDatabase.get_database_stats (App.store w'))))
    /\ (forall g1,
          VectorDatabase.load_vector_database L (App.disk w) App.VECTOR_DB_PATH
            (snd (VectorDatabase.initialize_embeddings L (App.store w)))
          = (Py.Ok true, g1) ->
          VectorDatabase.vector_texts g1 <> [] ->
          VectorDatabase.load_model L <> None ->
          App.initialize_medical_chatbot L E w = (Py.Ok true, App.set_store g1 w)).
Proof.
  intros L E w.
  destruct (AppFacts.initialize_medical_chatbot_run L E w) as (H1 & H2 & H3).
  split; [exact H1|]. split.
  - intros Hl. destruct (VectorDatabase.load_model L) as [m|] eqn:El;
      [|contradiction]. exact (H2 m eq_refl).
  - intros g1 Hload Ht Hl. apply H3; [exact Hload|exact Ht|].
    unfold VectorDatabase.initialize_embeddings, Py.bind, Py.of_option.
    destruct (VectorDatabase.load_model L); [discriminate|contradiction].
Qed.

(** ** The prompt *)

Module PromptFacts.
Import PyStr PdfProcessor Py VectorDatabase RetrievalQA Props VectorFacts.
Import RetrievalFacts KeywordFacts.

Lemma contains_part (p u v : str) : contains p (u ++ p ++ v) = true.
Proof. apply contains_iff. exists u, v. reflexivity. Qed.

Lemma join_part (sep piece : str) (parts : list str) :
  In piece parts -> exists u v, join sep parts = u ++ piece ++ v.
Proof.
  induction parts as [|p rest IH]; intros H; [destruct H|].
  destruct H as [->|H].
  - destruct rest as [|q rest].
    + exists [], []. cbn [join app]. rewrite app_nil_r. reflexivity.
    + exists [], (sep ++ join sep (q :: rest)). reflexivity.
  - destruct (IH H) as (u & v & E). destruct rest as [|q rest]; [destruct H|].
    exists (p ++ sep ++ u), v.
    change (join sep (p :: q :: rest)) with (p ++ sep ++ join sep (q :: rest)).
    rewrite E, <- !app_assoc. reflexivity.
Qed.

Lemma piece_of_result (format_2f : Q -> str) results : forall i t sc m,
  In (t, sc, m) results ->
  exists pre, In (pre ++ strip t) (context_pieces format_2f i results).
Proof.
  induction results as [|[[t' sc'] m'] rest IH]; intros i t sc m H; [destruct H|].
  cbn [context_pieces]. destruct H as [H|H].
  - injection H as -> -> ->.
    exists (lit "[Source " ++ decimal i ++ lit " - Relevance: " ++ format_2f sc
            ++ lit "]" ++ nl).
    left. rewrite <- !app_assoc. reflexivity.
  - destruct (IH (S i) t sc m H) as [pre Hp]. exists pre. right. exact Hp.
Qed.

Lemma retrieve_run (L : Library) format_2f query k s context s1 :
  retrieve_relevant_context L format_2f query k s = (Ok context, s1) ->
  exists results,
    lift (similarity_search L query k) (log_retrieval k s) = (Ok results, s1)
    /\ context
       = match results with
         | [] => lit no_context
         | _ => nl ++ nl ++ repeat "="%char 50
                ++ join (nl ++ nl) (context_pieces format_2f 1 results)
         end.
Proof.
  unfold retrieve_relevant_context. intros H.
  apply bind_run in H. destruct H as [(u & s0 & H1 & H)|[H1 _]];
    [|discriminate H1].
  unfold modify in H1. injection H1 as _ <-.
  apply bind_run in H. destruct H as [(r & s2 & H2 & H)|[_ H]]; [|discriminate].
  exists r. destruct r; inversion H; subst; split; auto.
Qed.

Lemma context_has_passages format_2f results t sc m :
  In (t, sc, m) results ->
  exists u v,
    match results with
    | [] => lit no_context
    | _ => nl ++ nl ++ repeat "="%char 50
           ++ join (nl ++ nl) (context_pieces format_2f 1 results)
    end = u ++ strip t ++ v.
Proof.
  intros H. destruct (piece_of_result format_2f results 1 t sc m H) as [pre Hp].
  destruct (join_part (nl ++ nl) _ _ Hp) as (u & v & E).
  destruct results as [|r rest]; [destruct H|].
  rewrite E. exists (nl ++ nl ++ repeat "="%char 50 ++ u ++ pre), v.
  rewrite <- !app_assoc. reflexivity.
Qed.

End PromptFacts.

(** X24.  The prompt built from a retrieval contains the user's question
    verbatim and the trimmed text of every passage the search returned;
    the context is the fixed sentence that nothing was found when the
    search returned no result. *)
Theorem prompt_contains_passages_and_question :
  forall (L : VectorDatabase.Library) (format_2f : Q -> PyStr.str)
         (query : PyStr.str) (k : nat) (s s1 : RetrievalQA.Session)
         (context : PyStr.str),
    RetrievalQA.retrieve_relevant_context L format_2f query k s
    = (Py.Ok context, s1) ->
    exists results,
      RetrievalQA.lift (VectorDatabase.similarity_search L query k)
                       (RetrievalQA.log_retrieval k s)
      = (Py.Ok results, s1)
      /\ (results = [] -> context = PyStr.lit RetrievalQA.no_context)
      /\ (forall t sc m,
             In (t, sc, m) results ->
             PyStr.contains (PyStr.strip t)
                            (RetrievalQA.format_prompt context query) = true)
      /\ PyStr.contains query (RetrievalQA.format_prompt context query) = true.
Proof.
  intros L format_2f query k s s1 context H.
  apply PromptFacts.retrieve_run in H. destruct H as (results & Hl & Hc).
  exists results. split; [exact Hl|]. split; [|split].
  - intros ->. exact Hc.
  - intros t sc m Hin.
    destruct (PromptFacts.context_has_passages format_2f results t sc m Hin)
      as (u & v & E).
    rewrite <- Hc in E. apply KeywordFacts.contains_iff.
    exists (PyStr.lit RetrievalQA.prompt_head ++ u),
           (v ++ PdfProcessor.nl ++ PdfProcessor.nl
              ++ PyStr.lit "User Question:" ++ PdfProcessor.nl ++ query
              ++ PdfProcessor.nl ++ PdfProcessor.nl ++ PyStr.lit "Answer:").
    unfold RetrievalQA.format_prompt. rewrite E, <- !app_assoc. reflexivity.
  - apply KeywordFacts.contains_iff.
    exists (PyStr.lit RetrievalQA.prompt_head ++ context
              ++ PdfProcessor.nl ++ PdfProcessor.nl
              ++ PyStr.lit "User Question:" ++ PdfProcessor.nl),
           (PdfProcessor.nl ++ PdfProcessor.nl ++ PyStr.lit "Answer:").
    unfold RetrievalQA.format_prompt. rewrite <- !app_assoc. reflexivity.
Qed.

Lemma prompt_contains_passages_and_question_witness :
  let s := {| RetrievalQA.globals :=
                snd (VectorDatabase.add_to_vector_database Examples.toy_library
                       Examples.two_passages VectorDatabase.initial);
              RetrievalQA.retrievals := [];
              RetrievalQA.completions := [] |} in
  exists context s1 results,
    RetrievalQA.retrieve_relevant_context Examples.toy_library Examples.plain_2f
      Examples.fever 3 s = (Py.Ok context, s1)
    /\ RetrievalQA.lift
         (VectorDatabase.similarity_search Examples.toy_library Examples.fever 3)
         (RetrievalQA.log_retrieval 3 s) = (Py.Ok results, s1)
    /\ results <> []
    /\ (forall t sc m,
           In (t, sc, m) results ->
           PyStr.contains (PyStr.strip t)
                          (RetrievalQA.format_prompt context Examples.fever) = true)
    /\ PyStr.contains Examples.fever
         (RetrievalQA.format_prompt context Examples.fever) = true.
Proof.
  cbv zeta.
  set (s := {| RetrievalQA.globals :=
                 snd (VectorDatabase.add_to_vector_database Examples.toy_library
                        Examples.two_passages VectorDatabase.initial);
               RetrievalQA.retrievals := [];
               RetrievalQA.completions := [] |}).
  destruct (RetrievalQA.retrieve_relevant_context Examples.toy_library
              Examples.plain_2f Examples.fever 3 s) as [o s1] eqn:E.
  assert (Ho : exists c, o = Py.Ok c).
  { pose proof E as E'. vm_compute in E'. injection E' as <- _.
    eexists. reflexivity. }
  destruct Ho as [c ->].
  destruct (prompt_contains_passages_and_question _ _ _ _ _ _ _ E)
    as (results & Hl & _ & Hp & Hq).
  exists c, s1, results. split; [reflexivity|]. split; [exact Hl|].
  split; [|split; [exact Hp|exact Hq]].
  intros ->. vm_compute in Hl. discriminate Hl.
Defined.

(** ** The rows of the index *)

Module RowFacts.
Import PyStr PdfProcessor Py VectorDatabase Props VectorFacts Coverage BatchFacts.

Lemma initialize_embeddings_index (L : Library) g o g' :
  initialize_embeddings L g = (o, g') -> vector_index g' = vector_index g.
Proof.
  unfold initialize_embeddings, bind, of_option, modify, ret, raise.
  destruct (load_model L); simpl; intros H; inversion H; subst; reflexivity.
Qed.

Lemma np_array_widths (l : list vec) g x g' :
  np_array l g = (Ok x, g') ->
  forall c, columns x = Some c -> Forall (fun r => length r = c) l.
Proof.
  unfold np_array. destruct l as [|r others].
  - intros H; inversion H; subst. intros c Hc. discriminate Hc.
  - destruct (forallb _ _) eqn:F; intros H; inversion H; subst.
    intros c Hc. injection Hc as <-. constructor; [reflexivity|].
    apply Forall_forall. intros r' Hr.
    rewrite forallb_forall in F. apply Nat.eqb_eq. apply F. exact Hr.
Qed.

Lemma generate_embeddings_index (L : Library) (texts : list str) g x g' :
  generate_embeddings L texts g = (Ok x, g') ->
  vector_index g' = vector_index g
  /\ exists outs,
       Forall2 (fun b out => encode L b = Some out) (batches texts) outs
       /\ rows x = concat outs
       /\ forall c, columns x = Some c ->
                    Forall (fun r => length r = c) (concat outs).
Proof.
  intros E. pose proof (generate_embeddings_outs L texts g x g' E) as (outs & F & Er).
  unfold generate_embeddings in E.
  apply bind_run in E. destruct E as [(g0 & g1 & E0 & E)|[_ E]]; [|discriminate].
  inversion E0; subst g0 g1; clear E0.
  apply bind_run in E. destruct E as [(u & g2 & E1 & E)|[_ E]]; [|discriminate].
  assert (Hi : vector_index g2 = vector_index g).
  { destruct (embedding_model g).
    - inversion E1; subst. reflexivity.
    - apply bind_run in E1. destruct E1 as [(m & g3 & E1 & E2)|[_ E1]];
        [|discriminate].
      inversion E2; subst. eapply initialize_embeddings_index, E1. }
  apply bind_run in E. destruct E as [(l & g3 & E2 & E)|[_ E]]; [|discriminate].
  pose proof E2 as E2'. apply encode_batches_run in E2'. destruct E2' as [-> _].
  pose proof E as E'. apply np_array_run in E'. destruct E' as [-> Hx].
  destruct (Hx x eq_refl) as [Hr _].
  split; [exact Hi|]. exists outs. split; [exact F|]. split; [exact Er|].
  intros c Hc. rewrite <- Er, Hr. eapply np_array_widths; eassumption.
Qed.

Lemma add_rows (L : Library) (chunks : list Chunk) g g' :
  add_to_vector_database L chunks g = (Ok tt, g') ->
  exists index index' outs,
    vector_index g' = Some index'
    /\ match vector_index g with
       | Some i => index = i
       | None => xb index = []
       end
    /\ Forall2 (fun b out => encode L b = Some out)
               (batches (map text chunks)) outs
    /\ xb index' = xb index ++ map (fvec_renorm_L2 L) (concat outs)
    /\ dim index' = dim index
    /\ neighbors index' = neighbors index
    /\ efSearch index' = efSearch index
    /\ efConstruction index' = efConstruction index
    /\ Forall (fun r => length r = dim index') (concat outs).
Proof.
  intros H. unfold add_to_vector_database in H.
  apply bind_run in H. destruct H as [(g0 & g1 & H0 & H)|[_ H]]; [|discriminate].
  inversion H0; subst g0 g1; clear H0.
  apply bind_run in H. destruct H as [(u & g1 & H1 & H)|[_ H]]; [|discriminate].
  assert (Hc : exists index,
             vector_index g1 = Some index
             /\ match vector_index g with
                | Some i => index = i
                | None => xb index = []
                end).
  { destruct (vector_index g) as [i|] eqn:Hi.
    - inversion H1; subst. exists i. auto.
    - apply bind_run in H1. destruct H1 as [(i & g2 & H1 & H2)|[_ H1]];
        [|discriminate].
      inversion H2; subst. exists i. split.
      + eapply create_vector_index_sets, H1.
      + revert H1.
        unfold create_vector_index, initialize_embeddings, bind, get,
          of_option, modify, ret, raise.
        destruct (dimension g) eqn:D; simpl.
        * rewrite D. simpl. intros E; inversion E; subst. reflexivity.
        * destruct (load_model L); simpl; intros E; inversion E; subst.
          reflexivity. }
  destruct Hc as (index & Hg1 & Hfirst). cbv zeta in H.
  apply bind_run in H. destruct H as [(x & g2 & H2 & H)|[_ H]]; [|discriminate].
  apply generate_embeddings_index in H2.
  destruct H2 as (Hg2 & outs & F & Er & Hw).
  apply bind_run in H. destruct H as [(y & g3 & H3 & H)|[_ H]]; [|discriminate].
  assert (Hy : g3 = g2 /\ columns y = columns x
               /\ rows y = map (fvec_renorm_L2 L) (rows x)).
  { revert H3. unfold normalize_L2. destruct (columns x) eqn:C;
      intros E; inversion E; subst. simpl. auto. }
  destruct Hy as (-> & Hcy & Hry).
  apply bind_run in H. destruct H as [(g4 & g5 & H4 & H)|[_ H]]; [|discriminate].
  inversion H4; subst g4 g5; clear H4.
  apply bind_run in H. destruct H as [(i & g5 & H5 & H)|[_ H]]; [|discriminate].
  rewrite Hg2, Hg1 in H5. inversion H5; subst i g5; clear H5.
  apply bind_run in H. destruct H as [(index' & g5 & H6 & H)|[_ H]];
    [|discriminate].
  unfold of_outcome in H6.
  destruct (index_add index y) as [j|] eqn:Ha; inversion H6; subst j g5; clear H6.
  unfold index_add in Ha. rewrite Hcy in Ha.
  destruct (columns x) as [c|] eqn:C; [|discriminate].
  destruct (c =? dim index) eqn:Ec; [|discriminate].
  apply Nat.eqb_eq in Ec. injection Ha as <-.
  unfold bind, modify in H. simpl in H. inversion H; subst g'; clear H.
  exists index. eexists. exists outs. split; [reflexivity|].
  split; [exact Hfirst|]. split; [exact F|]. simpl.
  split; [rewrite Hry, Er; reflexivity|]. do 4 (split; [reflexivity|]).
  rewrite <- Ec. apply Hw. reflexivity.
Qed.

End RowFacts.

(** X25.  A call of [add_to_vector_database] that returns appends to the
    vectors of the index (none, when the call created the index) the
    renormalised rows the embedding model gave for the batches of the
    passages' texts, in the order of the passages, and changes nothing else
    of the index; every row the model gave is as wide as the dimension of
    the index. *)
Theorem add_to_vector_database_rows :
  forall (L : VectorDatabase.Library) (chunks : list PdfProcessor.Chunk)
         (g g' : VectorDatabase.Globals),
    VectorDatabase.add_to_vector_database L chunks g = (Py.Ok tt, g') ->
    exists index' outs,
      VectorDatabase.vector_index g' = Some index'
      /\ Forall2 (fun b out => VectorDatabase.encode L b = Some out)
                 (Coverage.batches (map PdfProcessor.text chunks)) outs
      /\ VectorDatabase.xb index'
         = match VectorDatabase.vector_index g with
           | Some index => VectorDatabase.xb index
           | None => []
           end ++ map (VectorDatabase.fvec_renorm_L2 L) (concat outs)
      /\ match VectorDatabase.vector_index g with
         | Some index =>
             VectorDatabase.dim index' = VectorDatabase.dim index
             /\ VectorDatabase.neighbors index' = VectorDatabase.neighbors index
             /\ VectorDatabase.efSearch index' = VectorDatabase.efSearch index
             /\ VectorDatabase.efConstruction index'
                = VectorDatabase.efConstruction index
         | None => True
         end
      /\ Forall (fun r => length r = VectorDatabase.dim index') (concat outs).
Proof.
  intros L chunks g g' H.
  apply RowFacts.add_rows in H.
  destruct H as (index & index' & outs & Hi & Hf & F & Hx & Hd & Hn & Hs & Hc & Hw).
  exists index', outs. split; [exact Hi|]. split; [exact F|].
  destruct (VectorDatabase.vector_index g) as [i|].
  - subst index. auto 6.
  - rewrite Hf in Hx. auto.
Qed.

Lemma add_to_vector_database_rows_witness :
  let g' := snd (VectorDatabase.add_to_vector_database Examples.toy_library
                   Examples.two_passages VectorDatabase.initial) in
  VectorDatabase.add_to_vector_database Examples.toy_library
    Examples.two_passages VectorDatabase.initial = (Py.Ok tt, g')
  /\ exists index' outs,
       VectorDatabase.vector_index g' = Some index'
       /\ Forall2 (fun b out =>
                     VectorDatabase.encode Examples.toy_library b = Some out)
                  (Coverage.batches
                     (map PdfProcessor.text Examples.two_passages)) outs
       /\ VectorDatabase.xb index'
          = [] ++ map (VectorDatabase.fvec_renorm_L2 Examples.toy_library)
                      (concat outs)
       /\ True
       /\ Forall (fun r => length r = VectorDatabase.dim index') (concat outs).
Proof.
  cbv zeta.
  assert (E : VectorDatabase.add_to_vector_database Examples.toy_library
                Examples.two_passages VectorDatabase.initial
              = (Py.Ok tt,
                 snd (VectorDatabase.add_to_vector_database Examples.toy_library
                        Examples.two_passages VectorDatabase.initial)))
    by (vm_compute; reflexivity).
  split; [exact E|].
  exact (add_to_vector_database_rows Examples.toy_library Examples.two_passages
           VectorDatabase.initial _ E).
Defined.

(** ** Adding and then searching *)

Module LookupAfterAddFacts.
Import PyStr PdfProcessor Py VectorDatabase Props VectorFacts StoreFacts.
Import SearchFacts.

Lemma add_metadatas (L : Library) chunks g g' :
  add_to_vector_database L chunks g = (Ok tt, g') ->
  vector_texts g' = vector_texts g ++ map text chunks
  /\ vector_metadatas g' = vector_metadatas g ++ map metadata chunks.
Proof.
  intros H. unfold add_to_vector_database in H.
  apply bind_run in H.
  destruct H as [(g0 & g1 & H0 & H)|[_ H]]; [|discriminate].
  inversion H0; subst g0 g1; clear H0.
  apply bind_run in H.
  assert (Hcreate : forall o1 g1,
             (match vector_index g with
              | Some _ => ret tt
              | None => create_vector_index L;;; ret tt
              end) g = (o1, g1) -> same_store g g1).
  { intros o1 g1 E. destruct (vector_index g) eqn:Hi.
    - inversion E; subst. apply same_store_refl.
    - apply bind_run in E.
      destruct E as [(i & g2 & E1 & E2)|[E1 _]].
      + inversion E2; subst.
        eapply create_vector_index_frame; eauto.
      + eapply create_vector_index_frame; eauto. }
  destruct H as [(u & g1 & H1 & H)|[_ H]]; [|discriminate].
  apply Hcreate in H1.
  apply bind_run in H.
  destruct H as [(x & g2 & H2 & H)|[_ H]]; [|discriminate].
  apply framed_generate_embeddings in H2.
  apply bind_run in H.
  destruct H as [(y & g3 & H3 & H)|[_ H]]; [|discriminate].
  apply normalize_L2_run in H3. destruct H3 as [-> _].
  assert (Hs : same_store g g2) by (eapply same_store_trans; eassumption).
  unfold bind, get, of_option, of_outcome, modify in H.
  destruct (vector_index g2) as [index|]; simpl in H; [|discriminate].
  destruct (index_add index y) as [index'|]; simpl in H; [|discriminate].
  inversion H; subst. destruct Hs as (_ & Ht & Hm).
  simpl. rewrite Ht, Hm. split; reflexivity.
Qed.

(** a signed position reads the same place of two lists of one length *)
Lemma getitem_same_place {A B} (l : list A) (l' : list B) (z : Z) a b :
  length l = length l' ->
  getitem l z = Some a -> getitem l' z = Some b ->
  exists i, nth_error l i = Some a /\ nth_error l' i = Some b.
Proof.
  unfold getitem. intros <-.
  destruct (0 <=? z)%Z.
  - intros Ha Hb. eauto.
  - destruct (- Z.of_nat (length l) <=? z)%Z; [|discriminate].
    intros Ha Hb. eauto.
Qed.

Lemma nth_error_stored (chunks : list Chunk) :
  forall (old_t : list str) (old_m : list Metadata) i t m,
    length old_t = length old_m ->
    nth_error (old_t ++ map text chunks) i = Some t ->
    nth_error (old_m ++ map metadata chunks) i = Some m ->
    (exists j, nth_error old_t j = Some t /\ nth_error old_m j = Some m)
    \/ (exists j c, nth_error chunks j = Some c /\ t = text c /\ m = metadata c).
Proof.
  intros old_t old_m i t m Hl Ht Hm.
  destruct (Nat.lt_ge_cases i (length old_t)) as [Hi|Hi].
  - left. exists i. rewrite nth_error_app1 in Ht by exact Hi.
    rewrite nth_error_app1 in Hm by (rewrite <- Hl; exact Hi). auto.
  - right. rewrite nth_error_app2 in Ht by exact Hi.
    rewrite nth_error_app2 in Hm by (rewrite <- Hl; exact Hi).
    rewrite <- Hl in Hm. exists (i - length old_t).
    rewrite nth_error_map in Ht, Hm.
    destruct (nth_error chunks (i - length old_t)) as [c|]; [|discriminate].
    exists c. injection Ht as <-. injection Hm as <-. auto.
Qed.

End LookupAfterAddFacts.

(** X26.  Adding and then searching is a round trip on the passages: in a
    store whose texts and metadata are equally many, every result of a
    search that follows a completed [add_to_vector_database] carries the
    text and the metadata of one and the same passage, either one stored
    before the call (same position in both lists) or one of the passages
    that were added. *)
Theorem search_after_add_returns_stored_passages :
  forall (L : VectorDatabase.Library) (chunks : list PdfProcessor.Chunk)
         (g g1 g2 : VectorDatabase.Globals) (query : PyStr.str) (k : nat)
         (results : list (PyStr.str * Q * PdfProcessor.Metadata)),
    length (VectorDatabase.vector_texts g)
    = length (VectorDatabase.vector_metadatas g) ->
    VectorDatabase.add_to_vector_database L chunks g = (Py.Ok tt, g1) ->
    VectorDatabase.similarity_search L query k g1 = (Py.Ok results, g2) ->
    Forall (fun r =>
              (exists i,
                  nth_error (VectorDatabase.vector_texts g) i = Some (fst (fst r))
                  /\ nth_error (VectorDatabase.vector_metadatas g) i
                     = Some (snd r))
              \/ (exists i c,
                     nth_error chunks i = Some c
                     /\ fst (fst r) = PdfProcessor.text c
                     /\ snd r = PdfProcessor.metadata c))
           results.
Proof.
  intros L chunks g g1 g2 query k results Hl Ha Hs.
  apply LookupAfterAddFacts.add_metadatas in Ha. destruct Ha as [Ht Hm].
  pose proof Hs as Hf. apply StoreFacts.framed_similarity_search in Hf.
  destruct Hf as (_ & Ht2 & Hm2).
  apply SearchFacts.similarity_search_results in Hs.
  destruct Hs as [->|(index & v & _ & F)]; [constructor|].
  rewrite Ht2, Hm2, Ht, Hm in F.
  revert F. generalize (filter Props.kept (VectorDatabase.hnsw_search L index v k)).
  intros hits F. induction F as [|h r hits results (Hr1 & _ & Hr2) F IH];
    constructor; [|exact IH].
  assert (Hlen : length (VectorDatabase.vector_texts g ++ map PdfProcessor.text chunks)
                 = length (VectorDatabase.vector_metadatas g
                             ++ map PdfProcessor.metadata chunks))
    by (rewrite !length_app, !length_map, Hl; reflexivity).
  destruct (LookupAfterAddFacts.getitem_same_place _ _ _ _ _ Hlen Hr1 Hr2)
    as (i & Hi1 & Hi2).
  eapply LookupAfterAddFacts.nth_error_stored; eassumption.
Qed.

Lemma search_after_add_returns_stored_passages_witness :
  let g1 := snd (VectorDatabase.add_to_vector_database Examples.toy_library
                   Examples.two_passages VectorDatabase.initial) in
  exists results g2,
    VectorDatabase.similarity_search Examples.toy_library Examples.fever 3 g1
    = (Py.Ok results, g2)
    /\ length results = 1
    /\ Forall (fun r =>
                 (exists i,
                     nth_error (VectorDatabase.vector_texts VectorDatabase.initial) i
                     = Some (fst (fst r))
                     /\ nth_error
                          (VectorDatabase.vector_metadatas VectorDatabase.initial) i
                        = Some (snd r))
                 \/ (exists i c,
                        nth_error Examples.two_passages i = Some c
                        /\ fst (fst r) = PdfProcessor.text c
                        /\ snd r = PdfProcessor.metadata c))
              results.
Proof.
  cbv zeta.
  set (g1 := snd (VectorDatabase.add_to_vector_database Examples.toy_library
                    Examples.two_passages VectorDatabase.initial)).
  assert (Ea : VectorDatabase.add_to_vector_database Examples.toy_library
                 Examples.two_passages VectorDatabase.initial = (Py.Ok tt, g1))
    by (vm_compute; reflexivity).
  destruct (VectorDatabase.similarity_search Examples.toy_library
              Examples.fever 3 g1) as [o g2] eqn:Es.
  assert (Ho : exists results, o = Py.Ok results /\ length results = 1).
  { pose proof Es as Es'. vm_compute in Es'. injection Es' as <- _.
    eexists. split; reflexivity. }
  destruct Ho as (results & -> & Hn).
  exists results, g2. split; [reflexivity|]. split; [exact Hn|].
  exact (search_after_add_returns_stored_passages Examples.toy_library
           Examples.two_passages VectorDatabase.initial g1 g2 Examples.fever 3
           results eq_refl Ea Es).
Defined.
